(** * gravity.yaml: from a YAML description to a gravity database

    A shallow embedding of the two importers of the repository,
    [src/gravityyaml.py] (class [Application]) and
    [src/gravityyaml/gravityyaml.py] with [src/gravityyaml/cli.py]
    (class [GravityYAML] and the command line), and the properties of
    the load pipeline proved about them.

    Python dictionaries read from YAML are records of optional fields
    (an absent key is [None]); the dictionary [group_index] is a
    [gmap string Z]; exceptions are values of [Exn], carried by a small
    state-and-exception monad over the process environment [World]
    (files, clock, standard output, the open SQLite connection). *)

From Stdlib Require Import Ascii.
From stdpp Require Import gmap strings list fin_maps.

Local Open Scope Z_scope.

(** ** The configuration document *)

(** One entry of the [groups] sequence: a mapping with the keys
    [name], [enabled] and [description]. *)
Record GroupSpec := {
  gs_name : option string;
  gs_enabled : option bool;
  gs_description : option string
}.

(** One entry of the [adlists] sequence: a mapping with the keys
    [url], [enabled], [description] and [groups]. *)
Record AdlistSpec := {
  as_url : option string;
  as_enabled : option bool;
  as_description : option string;
  as_groups : option (list string)
}.

(** The top-level mapping.  Only [groups] and [adlists] are ever read;
    of the other keys only the names are kept, [doc_other]. *)
Record ConfigDocument := {
  doc_other : list string;
  doc_groups : option (list GroupSpec);
  doc_adlists : option (list AdlistSpec)
}.

(** Truth value of the loaded data, as in [if not self._data]: [None]
    and the empty mapping are false. *)
Definition truthy (data : option ConfigDocument) : bool :=
  match data with
  | None => false
  | Some d => bool_decide (is_Some (doc_groups d))
              || bool_decide (is_Some (doc_adlists d))
              || bool_decide (doc_other d <> [])
  end.

(** [d.get(key, default)] on an optional field. *)
Definition get {A} (field : option A) (dflt : A) : A := default dflt field.

(** ** The store *)

Record GroupRow := {
  g_id : Z;
  g_enabled : bool;
  g_name : string;
  g_description : option string
}.

Record AdlistRow := {
  a_id : Z;
  a_address : string;
  a_enabled : bool;
  a_comment : option string
}.

Record MembershipRow := {
  m_adlist_id : Z;
  m_group_id : Z
}.

(** Modelled from the spec: the schema resource [database.sql] is not
    among the sources.  The specification lists its tables
    [group(id, enabled, name, description)],
    [adlist(id, address, enabled, comment)] and
    [adlist_by_group(adlist_id, group_id)]; a freshly initialised store
    holds no row.  Rows are kept in insertion order.  The constraints
    of the schema are not listed: they are a [Schema], below, that each
    schema file brings with it. *)
Record Tables := {
  group : list GroupRow;
  adlist : list AdlistRow;
  adlist_by_group : list MembershipRow
}.

Definition empty_tables : Tables :=
  {| group := []; adlist := []; adlist_by_group := [] |}.

(** The three [INSERT] statements the importers issue, with their bound
    values. *)
Inductive Stmt :=
| InsertGroup (enabled : bool) (name : string) (description : option string)
| InsertAdlist (address : string) (enabled : bool) (comment : option string)
| InsertMembership (adlist_id group_id : Z).

(** SQLite gives a new row the rowid one more than the largest in use,
    1 in an empty table. *)
Definition next_rowid (ids : list Z) : Z := 1 + foldr Z.max 0 ids.

(** The effect of an admitted statement: the tables with the row
    appended, and [lastrowid]. *)
Definition apply_stmt (t : Tables) (s : Stmt) : Tables * Z :=
  match s with
  | InsertGroup enabled name description =>
      let id := next_rowid (g_id <$> group t) in
      ({| group := group t ++ [ {| g_id := id; g_enabled := enabled;
                                   g_name := name; g_description := description |} ];
          adlist := adlist t;
          adlist_by_group := adlist_by_group t |}, id)
  | InsertAdlist address enabled comment =>
      let id := next_rowid (a_id <$> adlist t) in
      ({| group := group t;
          adlist := adlist t ++ [ {| a_id := id; a_address := address;
                                     a_enabled := enabled; a_comment := comment |} ];
          adlist_by_group := adlist_by_group t |}, id)
  | InsertMembership adlist_id group_id =>
      ({| group := group t;
          adlist := adlist t;
          adlist_by_group := adlist_by_group t
                             ++ [ {| m_adlist_id := adlist_id; m_group_id := group_id |} ] |},
       Z.of_nat (length (adlist_by_group t)) + 1)
  end.

(** ** Exceptions and the monad of effects *)

Inductive Exn :=
| KeyError (key : string)
| TypeError (msg : string)
| FileNotFoundError (msg : string)
| YAMLError
| Sqlite3Error (msg : string)
| ConfigFileError (msg : string)
| DatabaseError (msg : string)
| SystemExit (code : Z).

Inductive Result (A : Type) :=
| Ok (a : A)
| Raise (e : Exn).
Arguments Ok {A} a.
Arguments Raise {A} e.

(** A computation reads and updates a state and returns or raises; the
    state reached is kept in both cases. *)
Definition M (S A : Type) : Type := S -> Result A * S.

Definition ret {S A} (a : A) : M S A := fun s => (Ok a, s).
Definition raise {S A} (e : Exn) : M S A := fun s => (Raise e, s).
Definition bind {S A B} (c : M S A) (k : A -> M S B) : M S B :=
  fun s => match c s with
           | (Ok a, s') => k a s'
           | (Raise e, s') => (Raise e, s')
           end.
Definition gets {S A} (f : S -> A) : M S A := fun s => (Ok (f s), s).
Definition modify {S} (f : S -> S) : M S unit := fun s => (Ok tt, f s).

Notation "'let!' x ':=' c 'in' k" := (bind c (fun x => k))
  (at level 10, x name, c at level 100, k at level 200).
Notation "c ;;; k" := (bind c (fun _ => k))
  (at level 100, k at level 200, right associativity).

(** [for x in xs: body]. *)
Fixpoint for_each {S A} (xs : list A) (body : A -> M S unit) : M S unit :=
  match xs with
  | [] => ret tt
  | x :: xs' => body x ;;; for_each xs' body
  end.

(** [try: c finally: h]. *)
Definition try_finally {S A} (c : M S A) (h : M S unit) : M S A :=
  fun s => match c s with
           | (r, s') => match h s' with
                        | (Ok _, s'') => (r, s'')
                        | (Raise e, s'') => (Raise e, s'')
                        end
           end.

(** [d[key]] on an optional field. *)
Definition subscript {S A} (field : option A) (key : string) : M S A :=
  match field with
  | Some v => ret v
  | None => raise (KeyError key)
  end.

(** ** The process environment *)

(** Modelled from the spec: the constraints of [database.sql], which
    is not among the sources, are kept abstract.  A schema tells which
    statements the store admits in which state (uniqueness, foreign
    keys, ...). *)
Definition Schema : Type := Tables -> Stmt -> bool.

(** The content of a database: no schema before the script has run. *)
Record Store := {
  schema : option Schema;
  tables : Tables
}.

Definition empty_store : Store := {| schema := None; tables := empty_tables |}.

Inductive File :=
| FYaml (d : ConfigDocument)   (* text that parses to the mapping [d] *)
| FSchema (sch : Schema)       (* the SQL script of a schema *)
| FDb (db : Store)             (* an SQLite database, as committed *)
| FEmpty                       (* a file of length zero *)
| FOther.                      (* any other content *)

Record Date := {
  year : nat;
  month : nat;
  day : nat
}.

(** An open SQLite connection: the file it writes to and its working
    copy, which holds the changes not yet committed. *)
Record Connection := {
  conn_path : string;
  conn_db : Store
}.

(** [script_path] is the directory of the installed module,
    [os.path.dirname(os.path.realpath(__file__))]; [stdout] lists the
    lines printed, oldest first.  Files are kept by path: directories
    are not modelled, every path can be created and written. *)
Record World := {
  fs : gmap string File;
  today : Date;
  script_path : string;
  stdout : list string;
  connection : option Connection
}.

Definition set_fs (m : gmap string File) (w : World) : World :=
  {| fs := m; today := today w; script_path := script_path w;
     stdout := stdout w; connection := connection w |}.
Definition set_stdout (out : list string) (w : World) : World :=
  {| fs := fs w; today := today w; script_path := script_path w;
     stdout := out; connection := connection w |}.
Definition set_connection (c : option Connection) (w : World) : World :=
  {| fs := fs w; today := today w; script_path := script_path w;
     stdout := stdout w; connection := c |}.

(** *** Strings, paths and dates *)

Definition digit (n : nat) : string :=
  String (ascii_of_nat (48 + n `mod` 10)) EmptyString.
Definition two_digits (n : nat) : string := digit (n `div` 10) +:+ digit n.
Definition four_digits (n : nat) : string := two_digits (n `div` 100) +:+ two_digits n.

(** [d.strftime('%Y-%m-%d')]. *)
Definition strftime_Ymd (d : Date) : string :=
  four_digits (year d) +:+ "-" +:+ two_digits (month d) +:+ "-" +:+ two_digits (day d).

Fixpoint endswith_sep (s : string) : bool :=
  match s with
  | EmptyString => false
  | String c EmptyString => bool_decide (c = "/"%char)
  | String _ s' => endswith_sep s'
  end.

Definition startswith_sep (s : string) : bool :=
  match s with
  | String c _ => bool_decide (c = "/"%char)
  | EmptyString => false
  end.

(** [os.path.join(a, b)] of [posixpath]. *)
Definition path_join (a b : string) : string :=
  if startswith_sep b then b
  else if bool_decide (a = "") || endswith_sep a then a +:+ b
  else a +:+ "/" +:+ b.

(** *** Files, clock and standard output *)

Definition isfile (p : string) : M World bool :=
  gets (fun w => bool_decide (is_Some (fs w !! p))).

(** [os.rename(src, dst)]: an existing [dst] is replaced. *)
Definition rename (src dst : string) : M World unit :=
  fun w => match fs w !! src with
           | Some f => (Ok tt, set_fs (<[dst := f]> (delete src (fs w))) w)
           | None => (Raise (FileNotFoundError src), w)
           end.

(** [pathlib.Path(p).touch()]: creates an empty file, keeps an
    existing one. *)
Definition touch (p : string) : M World unit :=
  fun w => match fs w !! p with
           | Some _ => (Ok tt, w)
           | None => (Ok tt, set_fs (<[p := FEmpty]> (fs w)) w)
           end.

Definition print (line : string) : M World unit :=
  fun w => (Ok tt, set_stdout (stdout w ++ [line]) w).

(** [datetime.today().strftime('%Y-%m-%d')]. *)
Definition today_Ymd : M World string :=
  gets (fun w => strftime_Ymd (today w)).

(** [open(p, "r")] followed by [yaml.safe_load]: an empty file loads
    as [None]. *)
Definition safe_load (p : string) : M World (option ConfigDocument) :=
  fun w => match fs w !! p with
           | Some (FYaml d) => (Ok (Some d), w)
           | Some FEmpty => (Ok None, w)
           | Some _ => (Raise YAMLError, w)
           | None => (Raise (FileNotFoundError p), w)
           end.

(** [open(p, "r")] followed by [read()]. *)
Definition read_file (p : string) : M World File :=
  fun w => match fs w !! p with
           | Some f => (Ok f, w)
           | None => (Raise (FileNotFoundError p), w)
           end.

(** *** The [sqlite3] module *)

Module sqlite3.

(** [sqlite3.connect(p)]: a missing file is created empty.  The
    value returned stands for the connection object. *)
Definition connect (p : string) : M World string :=
  fun w => match fs w !! p with
           | None =>
               (Ok p, set_connection (Some {| conn_path := p; conn_db := empty_store |})
                         (set_fs (<[p := FEmpty]> (fs w)) w))
           | Some FEmpty =>
               (Ok p, set_connection (Some {| conn_path := p; conn_db := empty_store |}) w)
           | Some (FDb db) =>
               (Ok p, set_connection (Some {| conn_path := p; conn_db := db |}) w)
           | Some _ => (Raise (Sqlite3Error "file is not a database"), w)
           end.

(** [executescript(sql)] with the text read from a file: pending
    changes are committed, the script runs outside any transaction.
    Only a schema script run on a store without tables succeeds. *)
Definition executescript (sql : File) : M World unit :=
  fun w => match connection w, sql with
           | Some c, FSchema sch =>
               match schema (conn_db c) with
               | None =>
                   let db := {| schema := Some sch; tables := tables (conn_db c) |} in
                   (Ok tt, set_connection (Some {| conn_path := conn_path c; conn_db := db |})
                             (set_fs (<[conn_path c := FDb db]> (fs w)) w))
               | Some _ => (Raise (Sqlite3Error "table already exists"), w)
               end
           | Some c, _ => (Raise (Sqlite3Error "syntax error"), w)
           | None, _ => (Raise (Sqlite3Error "Cannot operate on a closed database."), w)
           end.

(** [cursor.execute(insert, values)] followed by [cursor.lastrowid]:
    the row goes to the working copy. *)
Definition execute (s : Stmt) : M World Z :=
  fun w => match connection w with
           | Some c =>
               match schema (conn_db c) with
               | Some sch =>
                   if sch (tables (conn_db c)) s then
                     let '(t, id) := apply_stmt (tables (conn_db c)) s in
                     (Ok id, set_connection
                               (Some {| conn_path := conn_path c;
                                        conn_db := {| schema := Some sch; tables := t |} |}) w)
                   else (Raise (Sqlite3Error "constraint failed"), w)
               | None => (Raise (Sqlite3Error "no such table"), w)
               end
           | None => (Raise (Sqlite3Error "Cannot operate on a closed database."), w)
           end.

(** [connection.commit()]: the working copy becomes the file. *)
Definition commit : M World unit :=
  fun w => match connection w with
           | Some c => (Ok tt, set_fs (<[conn_path c := FDb (conn_db c)]> (fs w)) w)
           | None => (Raise (Sqlite3Error "Cannot operate on a closed database."), w)
           end.

(** [connection.close()]: changes not committed are lost. *)
Definition close : M World unit :=
  fun w => match connection w with
           | Some c => (Ok tt, set_connection None w)
           | None => (Raise (Sqlite3Error "Cannot operate on a closed database."), w)
           end.

End sqlite3.

(** ** The import loops

    The body of [GravityYAML.populate_database] from the seeding of
    [group_index] to the end of the adlist loop (lines 75 to 114) and
    that of [Application._populate_database] (lines 85 to 123) are the
    same text but for the call that inserts; [insert] stands for it. *)

Definition warning (group url : string) : string :=
  "WARNING - Group " +:+ group +:+ " referenced by adlist " +:+ url +:+ " does not exist".

(** [self._data[key]]. *)
Definition item {A} (data : option ConfigDocument) (field : ConfigDocument -> option A)
    (key : string) : M World A :=
  match data with
  | Some d => subscript (field d) key
  | None => raise (TypeError "'NoneType' object is not subscriptable")
  end.

Section Importer.

Variable insert : Stmt -> M World Z.

(** [for group in self._data["groups"]: group_index[group["name"]] = insert(...)] *)
Fixpoint insert_groups (groups : list GroupSpec) (group_index : gmap string Z)
    : M World (gmap string Z) :=
  match groups with
  | [] => ret group_index
  | group :: groups' =>
      let! name := subscript (gs_name group) "name" in
      let! id := insert (InsertGroup (get (gs_enabled group) true) name
                           (gs_description group)) in
      insert_groups groups' (<[name := id]> group_index)
  end.

(** The body of [for group in adlist["groups"]]. *)
Definition link_group (group_index : gmap string Z) (list_id : Z) (url group : string)
    : M World unit :=
  match group_index !! group with
  | None => print (warning group url)
  | Some group_id =>
      if bool_decide (group_id = 0) then ret tt
      else let! _ := insert (InsertMembership list_id group_id) in ret tt
  end.

(** The body of [for adlist in self._data["adlists"]]. *)
Definition import_adlist (group_index : gmap string Z) (adlist : AdlistSpec)
    : M World unit :=
  let! url := subscript (as_url adlist) "url" in
  let! list_id := insert (InsertAdlist url (get (as_enabled adlist) true)
                            (as_description adlist)) in
  let! groups := subscript (as_groups adlist) "groups" in
  for_each groups (link_group group_index list_id url).

Definition import_document (data : option ConfigDocument) : M World unit :=
  let group_index : gmap string Z := {[ "Default" := 0 ]} in
  let! groups := item data doc_groups "groups" in
  let! group_index := insert_groups groups group_index in
  let! adlists := item data doc_adlists "adlists" in
  for_each adlists (import_adlist group_index).

End Importer.

(** ** Objects and the interpreter *)

(** A method runs on its object and the environment. *)
Definition lift {X A} (c : M World A) : M (X * World) A :=
  fun s => match c (snd s) with (r, w) => (r, (fst s, w)) end.
Definition self {X} : M (X * World) X := gets fst.
Definition assign {X} (f : X -> X) : M (X * World) unit :=
  modify (fun s => (f (fst s), snd s)).

(** [if cond: body], the body ending the method by an exception or
    falling through. *)
Definition when {S} (cond : bool) (body : M S unit) : M S unit :=
  if cond then body else ret tt.

(** [sys.exit(code)]. *)
Definition sys_exit {S A} (code : Z) : M S A := raise (SystemExit code).

(** [len(self._data["adlists"])]. *)
Definition len_adlists (data : option ConfigDocument) : M World nat :=
  let! adlists := item data doc_adlists "adlists" in ret (length adlists).

(** The exit status the interpreter gives a program that ends by
    returning or by an exception nobody caught. *)
Definition exit_status {A} (r : Result A) : Z :=
  match r with
  | Ok _ => 0
  | Raise (SystemExit code) => code
  | Raise _ => 1
  end.

(** ** [src/gravityyaml.py] *)

Module Application.

Record t := {
  _connection : option string;
  _cursor : option string;
  _data : option ConfigDocument;
  _db_path : string;
  _yaml_path : string
}.

Definition set_connection (c : option string) (o : t) : t :=
  {| _connection := c; _cursor := _cursor o; _data := _data o;
     _db_path := _db_path o; _yaml_path := _yaml_path o |}.
Definition set_cursor (c : option string) (o : t) : t :=
  {| _connection := _connection o; _cursor := c; _data := _data o;
     _db_path := _db_path o; _yaml_path := _yaml_path o |}.
Definition set_data (d : option ConfigDocument) (o : t) : t :=
  {| _connection := _connection o; _cursor := _cursor o; _data := d;
     _db_path := _db_path o; _yaml_path := _yaml_path o |}.

Definition __init__ (yaml_path db_path : string) : t :=
  {| _connection := None; _cursor := None; _data := None;
     _db_path := path_join db_path "gravity.db"; _yaml_path := yaml_path |}.

Definition _init_database : M (t * World) unit :=
  let! o := self in
  let! present := lift (isfile (_db_path o)) in
  when present
    (let! now := lift today_Ymd in
     lift (rename (_db_path o) (_db_path o +:+ ".old-" +:+ now))) ;;;
  let! script_path := lift (gets script_path) in
  let! found := lift (isfile (path_join script_path "database.sql")) in
  when (negb found)
    (lift (print "ERROR - Could not find database schema") ;;; sys_exit 1) ;;;
  let! sql := lift (read_file (path_join script_path "database.sql")) in
  let! c := lift (sqlite3.connect (_db_path o)) in
  assign (set_connection (Some c)) ;;;
  lift (sqlite3.executescript sql).

Definition _load_yaml : M (t * World) unit :=
  let! o := self in
  let! found := lift (isfile (_yaml_path o)) in
  when (negb found)
    (lift (print "ERROR - Could not find YAML file") ;;; sys_exit 1) ;;;
  let! data := lift (safe_load (_yaml_path o)) in
  assign (set_data data) ;;;
  let! n := lift (len_adlists data) in
  when (n <? 1)%nat
    (lift (print "ERROR - No ad lists specified") ;;; sys_exit 1).

Definition _populate_database : M (t * World) unit :=
  let! o := self in
  when (negb (truthy (_data o)))
    (lift (print "ERROR - Config file not loaded") ;;; sys_exit 1) ;;;
  when (negb (bool_decide (is_Some (_connection o))))
    (lift (print "ERROR - Database has not been initialized") ;;; sys_exit 1) ;;;
  assign (set_cursor (_connection o)) ;;;
  lift (import_document sqlite3.execute (_data o)) ;;;
  lift sqlite3.commit.

Definition run : M (t * World) unit :=
  _load_yaml ;;;
  _init_database ;;;
  try_finally _populate_database
    (let! o := self in
     when (bool_decide (is_Some (_cursor o))) (assign (set_cursor None)) ;;;
     lift sqlite3.close ;;;
     assign (set_connection None)).

(** [main] with the parsed arguments: the exit status of the process
    and the environment it leaves. *)
Definition main (config database : string) (w : World) : Z * World :=
  match run (__init__ config database, w) with
  | (r, (_, w')) => (exit_status r, w')
  end.

End Application.

(** ** [src/gravityyaml/] *)

(** The constructor of the built-in [FileNotFoundError]: it takes
    positional arguments only, a keyword argument makes the call itself
    raise [TypeError]. *)
Definition FileNotFoundError_new {S} (args : list string) (kwargs : list (string * string))
    : M S Exn :=
  match kwargs with
  | [] => ret (FileNotFoundError (default "" (head args)))
  | _ :: _ => raise (TypeError "FileNotFoundError() takes no keyword arguments")
  end.

(** Modelled from the spec: the module [gravityyaml.errors] is not
    among the sources.  The specification keeps store errors and
    configuration errors apart as error kinds, so [ConfigFileError] is
    no subclass of [DatabaseError]; both derive from [Exception]. *)
Module errors.

Definition is_DatabaseError (e : Exn) : bool :=
  match e with
  | DatabaseError _ => true
  | _ => false
  end.

End errors.

(** [isinstance(e, Exception)]: [SystemExit] derives from
    [BaseException] only. *)
Definition is_Exception (e : Exn) : bool :=
  match e with
  | SystemExit _ => false
  | _ => true
  end.

(** [str(e)]. *)
Definition str (e : Exn) : string :=
  match e with
  | KeyError key => "'" +:+ key +:+ "'"
  | TypeError msg | FileNotFoundError msg | Sqlite3Error msg
  | ConfigFileError msg | DatabaseError msg => msg
  | YAMLError => "could not parse the document"
  | SystemExit code => ""
  end.

(** Modelled from the spec: the class [gravityyaml.database.Database]
    is not among the sources.  It is the handle of the specification:
    entering it opens the store, [loadFile] applies the schema script,
    [insert] adds one row and returns its generated id, [commit] makes
    the rows permanent and leaving it releases the store, rows not
    committed being rolled back.  Failures of the store are raised as
    [errors.DatabaseError]. *)
Module Database.

Definition store_error {A} (c : M World A) : M World A :=
  fun w => match c w with
           | (Raise (Sqlite3Error msg), w') => (Raise (DatabaseError msg), w')
           | other => other
           end.

Definition __enter__ (path : string) : M World string :=
  store_error (sqlite3.connect path).

Definition loadFile (path : string) : M World unit :=
  let! sql := read_file path in
  store_error (sqlite3.executescript sql).

Definition insert (s : Stmt) : M World Z := store_error (sqlite3.execute s).

Definition commit : M World unit := store_error sqlite3.commit.

Definition __exit__ : M World unit := store_error sqlite3.close.

End Database.

(** [with Database(path) as conn: body]. *)
Definition with_Database {A} (path : string) (body : M World A) : M World A :=
  let! conn := Database.__enter__ path in
  try_finally body Database.__exit__.

Module GravityYAML.

Record t := {
  _database : option string;
  _data : option ConfigDocument;
  _db_path : string;
  _yaml_path : string
}.

Definition set_data (d : option ConfigDocument) (o : t) : t :=
  {| _database := _database o; _data := d;
     _db_path := _db_path o; _yaml_path := _yaml_path o |}.

Definition __init__ (yaml_path db_path : string) : t :=
  {| _database := None; _data := None;
     _db_path := path_join db_path "gravity.db"; _yaml_path := yaml_path |}.

Definition init_database : M (t * World) unit :=
  let! o := self in
  let! present := lift (isfile (_db_path o)) in
  when present
    (let! now := lift today_Ymd in
     lift (rename (_db_path o) (_db_path o +:+ ".old-" +:+ now))) ;;;
  lift (touch (_db_path o)).

Definition load_yaml : M (t * World) unit :=
  let! o := self in
  let! found := lift (isfile (_yaml_path o)) in
  when (negb found)
    (let! e := FileNotFoundError_new []
                 [("message", "YAML config file could not be found.")] in
     raise e) ;;;
  let! data := lift (safe_load (_yaml_path o)) in
  assign (set_data data) ;;;
  let! n := lift (len_adlists data) in
  when (n <? 1)%nat (raise (ConfigFileError "No ad lists specified")).

Definition populate_database : M (t * World) unit :=
  let! o := self in
  when (negb (truthy (_data o)))
    (raise (ConfigFileError "Config file not loaded. Did you forget to call load_yaml?")) ;;;
  let! script_path := lift (gets script_path) in
  let! found := lift (isfile (path_join script_path "database.sql")) in
  when (negb found)
    (let! e := FileNotFoundError_new ["Could not find database schema"] [] in raise e) ;;;
  lift (with_Database (_db_path o)
          (Database.loadFile (path_join script_path "database.sql") ;;;
           import_document Database.insert (_data o) ;;;
           Database.commit)).

Definition run : M (t * World) unit :=
  load_yaml ;;;
  init_database ;;;
  populate_database.

End GravityYAML.

(** *** [cli.py] *)

Definition EXIT_CODES (name : string) : option Z :=
  ({[ "DEFAULT" := 1; "DATABASE_ERROR" := 2;
      "CONFIG_FILE_ERROR" := 3; "FILE_ERROR" := 4 ]} : gmap string Z) !! name.

(** The arguments as [argparse] returns them; [default_args] holds the
    defaults of the three options. *)
Record Args := {
  config : string;
  database : string;
  debug : bool
}.

Definition default_args : Args :=
  {| config := "gravity.yaml"; database := "/etc/pihole/"; debug := false |}.

(** [try: app.run()] with its two handlers. *)
Definition guarded (c : M (GravityYAML.t * World) unit) : M (GravityYAML.t * World) unit :=
  fun s => match c s with
           | (Ok a, s') => (Ok a, s')
           | (Raise e, s') =>
               if errors.is_DatabaseError e then
                 (lift (print ("FATAL - " +:+ str e)) ;;;
                  let! code := subscript (EXIT_CODES "DATABASE_ERROR") "DATABASE_ERROR" in
                  sys_exit code) s'
               else if is_Exception e then
                 (lift (print ("FATAL - " +:+ str e)) ;;;
                  let! code := subscript (EXIT_CODES "DEFAULT") "DEFAULT" in
                  sys_exit code) s'
               else (Raise e, s')
           end.

(** [cli] after the arguments are parsed: the exit status of the
    process and the environment it leaves. *)
Definition cli (args : Args) (w : World) : Z * World :=
  let app := GravityYAML.__init__ (config args) (database args) in
  match (if debug args then GravityYAML.run else guarded GravityYAML.run) (app, w) with
  | (r, (_, w')) => (exit_status r, w')
  end.

(** * Notions used in the statements *)

Definition cur_tables (w : World) : Tables :=
  match connection w with
  | Some c => tables (conn_db c)
  | None => empty_tables
  end.

Definition with_tables (f : Tables -> Tables) (w : World) : World :=
  match connection w with
  | Some c =>
      set_connection
        (Some {| conn_path := conn_path c;
                 conn_db := {| schema := schema (conn_db c);
                               tables := f (tables (conn_db c)) |} |}) w
  | None => w
  end.

(** What an insert that the store admits returns and leaves; [None]
    when the store refuses it. *)
Definition exec_ok (s : Stmt) (w : World) : option (Z * World) :=
  match connection w with
  | Some c =>
      match schema (conn_db c) with
      | Some sch =>
          if sch (tables (conn_db c)) s
          then Some ((apply_stmt (cur_tables w) s).2,
                     with_tables (fun t => (apply_stmt t s).1) w)
          else None
      | None => None
      end
  | None => None
  end.

(** The two ways of inserting agree on admitted statements and leave
    the environment alone when they raise. *)
Definition inserts (insert : Stmt -> M World Z) : Prop :=
  forall s w,
    match exec_ok s w with
    | Some (id, w') => insert s w = (Ok id, w')
    | None => exists e, insert s w = (Raise e, w)
    end.

(** An invariant kept on every exit, normal or not. *)
Definition preserves {S A} (I : S -> Prop) (c : M S A) : Prop :=
  forall s, I s -> I (c s).2.

(** Two runs from related states give the same result and related
    states. *)
Definition respects {S A} (R : S -> S -> Prop) (c : M S A) : Prop :=
  forall s1 s2, R s1 s2 -> (c s1).1 = (c s2).1 /\ R (c s1).2 (c s2).2.

(** The rows and lines expected from a document, given the first ids
    the store will generate. *)
Definition group_row (id : Z) (g : GroupSpec) : GroupRow :=
  {| g_id := id; g_enabled := get (gs_enabled g) true;
     g_name := default "" (gs_name g); g_description := gs_description g |}.

Fixpoint group_rows (next : Z) (gs : list GroupSpec) : list GroupRow :=
  match gs with
  | [] => []
  | g :: gs' => group_row next g :: group_rows (next + 1) gs'
  end.

Fixpoint index_groups (idx : gmap string Z) (next : Z) (gs : list GroupSpec)
    : gmap string Z :=
  match gs with
  | [] => idx
  | g :: gs' => index_groups (<[default "" (gs_name g) := next]> idx) (next + 1) gs'
  end.

Definition adlist_row (id : Z) (a : AdlistSpec) : AdlistRow :=
  {| a_id := id; a_address := default "" (as_url a);
     a_enabled := get (as_enabled a) true; a_comment := as_description a |}.

Fixpoint adlist_rows (next : Z) (als : list AdlistSpec) : list AdlistRow :=
  match als with
  | [] => []
  | a :: als' => adlist_row next a :: adlist_rows (next + 1) als'
  end.

(** The join rows of one adlist: one per reference that resolves to an
    id other than 0. *)
Definition links (idx : gmap string Z) (list_id : Z) (refs : list string)
    : list MembershipRow :=
  omap (fun r => match idx !! r with
                 | Some gid => if bool_decide (gid = 0) then None
                               else Some {| m_adlist_id := list_id; m_group_id := gid |}
                 | None => None
                 end) refs.

(** The warnings of one adlist: one per reference that does not
    resolve. *)
Definition warnings (idx : gmap string Z) (url : string) (refs : list string)
    : list string :=
  omap (fun r => match idx !! r with
                 | Some _ => None
                 | None => Some (warning r url)
                 end) refs.

Fixpoint membership_rows (idx : gmap string Z) (next : Z) (als : list AdlistSpec)
    : list MembershipRow :=
  match als with
  | [] => []
  | a :: als' => links idx next (default [] (as_groups a))
                 ++ membership_rows idx (next + 1) als'
  end.

Fixpoint warning_lines (idx : gmap string Z) (als : list AdlistSpec) : list string :=
  match als with
  | [] => []
  | a :: als' => warnings idx (default "" (as_url a)) (default [] (as_groups a))
                 ++ warning_lines idx als'
  end.

Definition add_rows (g : list GroupRow) (a : list AdlistRow) (m : list MembershipRow)
    (t : Tables) : Tables :=
  {| group := group t ++ g; adlist := adlist t ++ a;
     adlist_by_group := adlist_by_group t ++ m |}.

(** The environment after rows went to the working copy, and after
    lines were printed. *)
Definition grow (g : list GroupRow) (a : list AdlistRow) (m : list MembershipRow)
    (w : World) : World := with_tables (add_rows g a m) w.

Definition emit (lines : list string) (w : World) : World :=
  set_stdout (stdout w ++ lines) w.

Definition next_group (w : World) : Z := next_rowid (g_id <$> group (cur_tables w)).
Definition next_adlist (w : World) : Z := next_rowid (a_id <$> adlist (cur_tables w)).

(** A document every key of which the loops read is present. *)
Definition valid_group (g : GroupSpec) : bool := bool_decide (is_Some (gs_name g)).
Definition valid_adlist (a : AdlistSpec) : bool :=
  bool_decide (is_Some (as_url a)) && bool_decide (is_Some (as_groups a)).
Definition valid_document (d : ConfigDocument) : bool :=
  match doc_groups d, doc_adlists d with
  | Some gs, Some als => forallb valid_group gs && forallb valid_adlist als
  | _, _ => false
  end.

(** A connection is open on a store whose schema admits every
    insert. *)
Definition ready (w : World) : Prop :=
  exists c sch, connection w = Some c /\ schema (conn_db c) = Some sch
                /\ forall t s, sch t s = true.

(** Files, clock and installation are untouched; an open connection
    stays open on the same file with the same schema. *)
Definition same_store (w0 w : World) : Prop :=
  fs w = fs w0 /\ today w = today w0 /\ script_path w = script_path w0
  /\ match connection w0, connection w with
     | Some c0, Some c => conn_path c = conn_path c0
                          /\ schema (conn_db c) = schema (conn_db c0)
     | None, None => True
     | _, _ => False
     end.

Definition archive_path (p : string) (d : Date) : string :=
  p +:+ ".old-" +:+ strftime_Ymd d.

(** The files after [os.rename] moved a store found at [p] to [a]. *)
Definition rotated (p a : string) (m : gmap string File) : gmap string File :=
  match m !! p with
  | Some f => <[a := f]> (delete p m)
  | None => m
  end.

Definition schema_file (w : World) : string :=
  path_join (script_path w) "database.sql".

(** The environment when the loops start, in both programs: the old
    store is archived, the new one holds the schema and no row, and the
    connection is open on it. *)
Definition fresh (p : string) (sch : Schema) (w : World) : World :=
  let db := {| schema := Some sch; tables := empty_tables |} in
  set_connection (Some {| conn_path := p; conn_db := db |})
    (set_fs (<[p := FDb db]>
               (<[p := FEmpty]> (rotated p (archive_path p (today w)) (fs w)))) w).

(** The environment after [commit] and the release of the store. *)
Definition committed (w : World) : World :=
  match connection w with
  | Some c => set_connection None (set_fs (<[conn_path c := FDb (conn_db c)]> (fs w)) w)
  | None => w
  end.

Ltac unfold_monad :=
  unfold bind, self, lift, assign, modify, when, sys_exit, raise, ret, gets.

(** The files after [init_database]. *)
Definition initialised (p : string) (w : World) : gmap string File :=
  <[p := FEmpty]> (rotated p (archive_path p (today w)) (fs w)).

(** A computation that reads and writes the connection only. *)
Definition conn_only {A} (c : M World A) : Prop :=
  forall w, exists r k, forall w', connection w' = connection w ->
    c w' = (r, set_connection k w').

(** The index when the adlist loop starts, and the tables at commit,
    of an import into a new store. *)
Definition expected_index (gs : list GroupSpec) : gmap string Z :=
  index_groups {[ "Default" := 0 ]} 1 gs.

Definition expected_tables (gs : list GroupSpec) (als : list AdlistSpec) : Tables :=
  {| group := group_rows 1 gs;
     adlist := adlist_rows 1 als;
     adlist_by_group := membership_rows (expected_index gs) 1 als |}.

(** The environment a successful run leaves. *)
Definition finished (p : string) (sch : Schema) (gs : list GroupSpec)
    (als : list AdlistSpec) (w : World) : World :=
  {| fs := <[p := FDb {| schema := Some sch; tables := expected_tables gs als |}]>
             (initialised p w);
     today := today w;
     script_path := script_path w;
     stdout := stdout w ++ warning_lines (expected_index gs) als;
     connection := None |}.

(** The store at [p] holds one group row per entry of [gs] and one
    adlist row per entry of [als], in the order of the document, with
    the ids 1, 2, ... *)
Definition one_row_per_entry (p : string) (gs : list GroupSpec) (als : list AdlistSpec)
    (w : World) : Prop :=
  exists db,
    fs w !! p = Some (FDb db)
    /\ length (group (tables db)) = length gs
    /\ length (adlist (tables db)) = length als
    /\ (forall i : nat, group (tables db) !! i = group_row (1 + Z.of_nat i) <$> gs !! i)
    /\ (forall i : nat, adlist (tables db) !! i = adlist_row (1 + Z.of_nat i) <$> als !! i).

(** A small document and an environment to run the programs in. *)
Definition unconstrained : Schema := fun _ _ => true.

Definition sample_document : ConfigDocument :=
  {| doc_other := [];
     doc_groups :=
       Some [ {| gs_name := Some "Family"; gs_enabled := None; gs_description := None |} ];
     doc_adlists :=
       Some [ {| as_url := Some "http://a"; as_enabled := None; as_description := None;
                 as_groups := Some ["Family"; "Default"; "Ghost"] |} ] |}.

Definition sample_world (d : ConfigDocument) : World :=
  {| fs := {[ "gravity.yaml" := FYaml d; "/opt/database.sql" := FSchema unconstrained ]};
     today := {| year := 2023; month := 4; day := 7 |};
     script_path := "/opt";
     stdout := [];
     connection := None |}.

Definition empty_adlists_document : ConfigDocument :=
  {| doc_other := []; doc_groups := Some []; doc_adlists := Some [] |}.

Definition no_groups_document : ConfigDocument :=
  {| doc_other := [];
     doc_groups := None;
     doc_adlists :=
       Some [ {| as_url := Some "http://a"; as_enabled := None; as_description := None;
                 as_groups := Some [] |} ] |}.

Definition no_url_document : ConfigDocument :=
  {| doc_other := [];
     doc_groups :=
       Some [ {| gs_name := Some "Family"; gs_enabled := None; gs_description := None |} ];
     doc_adlists :=
       Some [ {| as_url := None; as_enabled := None; as_description := None;
                 as_groups := Some ["Family"] |} ] |}.

Definition absent_config : Args :=
  {| config := "absent.yaml"; database := "/etc/pihole/"; debug := false |}.

(** The tables of the store file at [p]; none for a file that is no
    database. *)
Definition stored (w : World) (p : string) : Tables :=
  match fs w !! p with
  | Some (FDb db) => tables db
  | _ => empty_tables
  end.

(** [t] has the join rows [base] and, after them, only rows whose
    group is not the Default group. *)
Definition extends_without_default (base : list MembershipRow) (t : Tables) : Prop :=
  exists added, adlist_by_group t = base ++ added
                /\ Forall (fun m => m_group_id m <> 0) added.

(** Both the store file at [p] and the working copy of a connection
    open on it extend [base] so. *)
Definition no_default_link (p : string) (base : list MembershipRow) (w : World) : Prop :=
  extends_without_default base (stored w p)
  /\ forall c, connection w = Some c ->
       conn_path c = p /\ extends_without_default base (tables (conn_db c)).

(** [w1] is [w2] with the line [l] printed once more. *)
Definition one_more_line (l : string) (w1 w2 : World) : Prop :=
  fs w1 = fs w2 /\ today w1 = today w2 /\ script_path w1 = script_path w2
  /\ connection w1 = connection w2
  /\ exists o1 o2, stdout w2 = o1 ++ o2 /\ stdout w1 = o1 ++ l :: o2.

(** Two runs end alike but for that line, or both failed before it was
    due. *)
Definition differ_by_line {A} (l : string) (x y : Result A * World) : Prop :=
  x.1 = y.1
  /\ ((x.2 = y.2 /\ exists e, x.1 = Raise e) \/ one_more_line l x.2 y.2).

(** A document in which the reference [g], if any, stands on the
    adlist with the url [url], between the references [r1] and [r2];
    that adlist stands between the adlists [pre] and [post]. *)
Definition with_reference (other : list string) (gs : option (list GroupSpec))
    (pre post : list AdlistSpec) (url : string) (en : option bool) (de : option string)
    (r1 : list string) (g : option string) (r2 : list string) : ConfigDocument :=
  {| doc_other := other; doc_groups := gs;
     doc_adlists :=
       Some (pre ++ {| as_url := Some url; as_enabled := en; as_description := de;
                       as_groups := Some (r1 ++ option_list g ++ r2) |} :: post) |}.

(** The two imports return alike and leave the same files and the same
    working copy; when they succeed, the first printed the warning
    once more than the second, and nothing else differs. *)
Definition only_warns {A} (g url : string) (x y : Result A * World) : Prop :=
  x.1 = y.1 /\ fs x.2 = fs y.2 /\ connection x.2 = connection y.2
  /\ (forall a, x.1 = Ok a ->
        exists o1 o2, stdout y.2 = o1 ++ o2 /\ stdout x.2 = o1 ++ warning g url :: o2).

(** The run [x] succeeded, moved the store [db1] it found at [p] to the
    archive of the day and built at [p] a store with the same tables,
    hence the same row counts. *)
Definition archived_and_rebuilt (p : string) (day : Date) (db1 : Store)
    (x : Result unit * World) : Prop :=
  x.1 = Ok tt
  /\ fs x.2 !! archive_path p day = Some (FDb db1)
  /\ exists db2,
       fs x.2 !! p = Some (FDb db2)
       /\ tables db2 = tables db1
       /\ length (group (tables db2)) = length (group (tables db1))
       /\ length (adlist (tables db2)) = length (adlist (tables db1))
       /\ length (adlist_by_group (tables db2)) = length (adlist_by_group (tables db1)).

(** The sample environment after one run, and after a second run on
    the same day, which left an archive. *)
Definition after_first_run : World :=
  (GravityYAML.run (GravityYAML.__init__ "gravity.yaml" "/etc/pihole/",
                    sample_world sample_document)).2.2.

Definition after_second_run : World :=
  (GravityYAML.run (GravityYAML.__init__ "gravity.yaml" "/etc/pihole/",
                    after_first_run)).2.2.

(** [j] is the last entry of [gs] with the name [key]. *)
Definition last_named (key : string) (gs : list GroupSpec) (j : nat) : Prop :=
  (exists g, gs !! j = Some g /\ gs_name g = Some key)
  /\ forall k g, (j < k)%nat -> gs !! k = Some g -> gs_name g <> Some key.

(** The store at [p] has a row for the entry [i] and a row for the
    entry [j] of [gs]; every adlist that refers to [name] is linked to
    the row of [j] and no adlist is linked to the row of [i]. *)
Definition later_group_wins (p : string) (gs : list GroupSpec) (als : list AdlistSpec)
    (name : string) (i j : nat) (w : World) : Prop :=
  exists db,
    fs w !! p = Some (FDb db)
    /\ group (tables db) !! i = group_row (1 + Z.of_nat i) <$> gs !! i
    /\ group (tables db) !! j = group_row (1 + Z.of_nat j) <$> gs !! j
    /\ (forall (k : nat) a refs,
          als !! k = Some a -> as_groups a = Some refs -> name ∈ refs ->
          {| m_adlist_id := 1 + Z.of_nat k; m_group_id := 1 + Z.of_nat j |}
            ∈ adlist_by_group (tables db))
    /\ (forall m, m ∈ adlist_by_group (tables db) -> m_group_id m <> 1 + Z.of_nat i).

Definition duplicate_document : ConfigDocument :=
  {| doc_other := [];
     doc_groups :=
       Some [ {| gs_name := Some "Family"; gs_enabled := None; gs_description := None |};
              {| gs_name := Some "Family"; gs_enabled := Some false;
                 gs_description := Some "again" |} ];
     doc_adlists :=
       Some [ {| as_url := Some "http://a"; as_enabled := None; as_description := None;
                 as_groups := Some ["Family"] |} ] |}.

(** The report of the specification. *)
Record ImportReport := {
  groups_created : nat;
  adlists_created : nat;
  memberships_created : nat;
  warnings_emitted : nat
}.

(** What a call can hand to its caller.  No method of either class
    has a [return] statement: a call that does not raise gives [None]. *)
Inductive Value :=
| VNone
| VReport (r : ImportReport).

Definition returned (r : Result unit) : option Value :=
  match r with
  | Ok tt => Some VNone
  | Raise _ => None
  end.

(** The group names an adlist may refer to, and the references that
    resolve to nothing. *)
Definition declared (gs : list GroupSpec) (r : string) : Prop :=
  Exists (fun g => gs_name g = Some r) gs.

Definition unresolved (gs : list GroupSpec) (r : string) : Prop :=
  ~ declared gs r /\ r <> "Default".

#[global] Instance declared_dec gs r : Decision (declared gs r).
Proof. unfold declared. apply _. Defined.

#[global] Instance unresolved_dec gs r : Decision (unresolved gs r).
Proof. unfold unresolved. apply _. Defined.

(** All references of the document, in order. *)
Definition references (als : list AdlistSpec) : list string :=
  concat ((fun a => default [] (as_groups a)) <$> als).

(** The counts of the report, read off the document. *)
Definition report_of (gs : list GroupSpec) (als : list AdlistSpec) : ImportReport :=
  {| groups_created := length gs;
     adlists_created := length als;
     memberships_created := length (filter (declared gs) (references als));
     warnings_emitted := length (filter (unresolved gs) (references als)) |}.

(** The same counts, read off the store and the lines printed. *)
Definition observed (t : Tables) (lines : list string) : ImportReport :=
  {| groups_created := length (group t);
     adlists_created := length (adlist t);
     memberships_created := length (adlist_by_group t);
     warnings_emitted := length lines |}.

(** The counts are those of the rows in the store at [p] and of the
    lines printed since [w]. *)
Definition counts_observable (p : string) (gs : list GroupSpec) (als : list AdlistSpec)
    (w w' : World) : Prop :=
  exists db lines,
    fs w' !! p = Some (FDb db)
    /\ stdout w' = stdout w ++ lines
    /\ observed (tables db) lines = report_of gs als.

(** The state in which the sample document is about to be imported. *)
Definition sample_loaded : GravityYAML.t * World :=
  ((GravityYAML.load_yaml ;;; GravityYAML.init_database)
     (GravityYAML.__init__ "gravity.yaml" "/etc/pihole/", sample_world sample_document)).2.

Definition default_only_document : ConfigDocument :=
  {| doc_other := [];
     doc_groups := Some [];
     doc_adlists :=
       Some [ {| as_url := Some "http://a"; as_enabled := None; as_description := None;
                 as_groups := Some ["Default"] |} ] |}.

Definition ghost_document : ConfigDocument :=
  {| doc_other := [];
     doc_groups := Some [];
     doc_adlists :=
       Some [ {| as_url := Some "http://a"; as_enabled := None; as_description := None;
                 as_groups := Some ["Ghost"] |} ] |}.

Definition family_document : ConfigDocument :=
  {| doc_other := [];
     doc_groups :=
       Some [ {| gs_name := Some "Family"; gs_enabled := None; gs_description := None |} ];
     doc_adlists :=
       Some [ {| as_url := Some "http://a"; as_enabled := None; as_description := None;
                 as_groups := Some ["Family"] |} ] |}.

(** A user group named "Default" takes a generated id: references to
    "Default" are then linked to it. *)
Definition redeclared_default_document : ConfigDocument :=
  {| doc_other := [];
     doc_groups :=
       Some [ {| gs_name := Some "Default"; gs_enabled := None; gs_description := None |} ];
     doc_adlists :=
       Some [ {| as_url := Some "http://a"; as_enabled := None; as_description := None;
                 as_groups := Some ["Default"] |} ] |}.

(** The tables of the store and the lines printed after [cli] ran on
    the document. *)
Definition outcome (d : ConfigDocument) : Z * Tables * list string :=
  let '(status, w) := cli default_args (sample_world d) in
  (status, stored w "/etc/pihole/gravity.db", stdout w).

(** A schema that refuses an address already in the [adlist] table. *)
Definition unique_addresses : Schema :=
  fun t s => match s with
             | InsertAdlist address _ _ =>
                 negb (bool_decide (address ∈ a_address <$> adlist t))
             | _ => true
             end.

Definition repeated_url_document : ConfigDocument :=
  {| doc_other := [];
     doc_groups :=
       Some [ {| gs_name := Some "Family"; gs_enabled := None; gs_description := None |} ];
     doc_adlists :=
       Some [ {| as_url := Some "http://a"; as_enabled := None; as_description := None;
                 as_groups := Some ["Family"] |};
              {| as_url := Some "http://a"; as_enabled := None; as_description := None;
                 as_groups := Some [] |} ] |}.

Definition constrained_world : World :=
  {| fs := {[ "gravity.yaml" := FYaml repeated_url_document;
              "/opt/database.sql" := FSchema unique_addresses ]};
     today := {| year := 2023; month := 4; day := 7 |};
     script_path := "/opt";
     stdout := [];
     connection := None |}.

(** ** Notions for the further properties *)

(** A computation that raises, if it raises, an exception that
    satisfies [P]. *)
Definition raises_only {S A} (P : Exn -> Prop) (c : M S A) : Prop :=
  forall s e, (c s).1 = Raise e -> P e.

(** What [sys.exit(1)] raises, or any exception other than
    [SystemExit]. *)
Definition exits_with_1 (e : Exn) : Prop :=
  forall code, e = SystemExit code -> code = 1.

(** The errors of the built-ins, of [yaml] and of [sqlite3]. *)
Definition library_error (e : Exn) : Prop :=
  match e with
  | KeyError _ | TypeError _ | FileNotFoundError _ | YAMLError | Sqlite3Error _ => True
  | _ => False
  end.

(** What the methods of [GravityYAML] raise besides their own
    [ConfigFileError]: the errors of the built-ins and of [yaml], and
    the failures of the store as [DatabaseError]. *)
Definition package_error (e : Exn) : Prop :=
  match e with
  | KeyError _ | TypeError _ | FileNotFoundError _ | YAMLError | DatabaseError _ => True
  | _ => False
  end.

(** An exception that [except Exception] catches. *)
Definition catchable (e : Exn) : Prop := is_Exception e = true.

(** A document without the key [adlists], and environments whose
    configuration file is empty or holds that document. *)
Definition no_adlists_document : ConfigDocument :=
  {| doc_other := [];
     doc_groups :=
       Some [ {| gs_name := Some "Family"; gs_enabled := None; gs_description := None |} ];
     doc_adlists := None |}.

Definition empty_config_world : World :=
  set_fs (<["gravity.yaml" := FEmpty]> (fs (sample_world sample_document)))
    (sample_world sample_document).

(** An environment with a store and an archive of the day but without
    the schema script. *)
Definition no_schema_world : World :=
  {| fs := {[ "gravity.yaml" := FYaml sample_document;
              "/etc/pihole/gravity.db" := FDb empty_store;
              "/etc/pihole/gravity.db.old-2023-04-07" := FOther ]};
     today := {| year := 2023; month := 4; day := 7 |};
     script_path := "/opt";
     stdout := [];
     connection := None |}.

(** Two computations that behave alike in every environment. *)
Definition alike {A} (c1 c2 : M World A) : Prop := forall w, c1 w = c2 w.

(** A date as [datetime.today()] gives it: [%Y] then prints four
    digits. *)
Definition calendar_date (d : Date) : Prop :=
  1000 <= Z.of_nat (year d) < 10000 /\ (1 <= month d <= 12)%nat /\ (1 <= day d <= 31)%nat.

(** Since [w0], only the file at [p] may have changed, and an open
    connection writes to [p]. *)
Definition writes_only (p : string) (w0 w : World) : Prop :=
  (forall q, q <> p -> fs w !! q = fs w0 !! q)
  /\ (forall c, connection w = Some c -> conn_path c = p).

(** The warnings due for a document: adlist by adlist, one for each
    reference that resolves to nothing, in the order of the
    references. *)
Definition due_warnings (gs : list GroupSpec) (als : list AdlistSpec) : list string :=
  concat ((fun a => (fun r => warning r (default "" (as_url a)))
                      <$> filter (unresolved gs) (default [] (as_groups a))) <$> als).

(** A line that warns about a reference, and the lines by which
    [Application] reports a failure it found itself. *)
Definition is_warning (line : string) : Prop := exists g url, line = warning g url.

Definition is_report (line : string) : Prop :=
  line ∈ [ "ERROR - Could not find YAML file"; "ERROR - No ad lists specified";
           "ERROR - Could not find database schema" ].

(** Since [w0], only lines that satisfy [Q] have been printed. *)
Definition prints_only (Q : string -> Prop) (w0 w : World) : Prop :=
  exists lines, stdout w = stdout w0 ++ lines /\ Forall Q lines.

(** * Properties *)

(** ** Rowids *)

Lemma foldr_max_nonneg (ids : list Z) : 0 <= foldr Z.max 0 ids.
Proof. induction ids as [|x ids IH]; simpl; lia. Qed.

Lemma foldr_max_snoc (ids : list Z) (x : Z) :
  foldr Z.max 0 (ids ++ [x]) = Z.max (foldr Z.max 0 ids) x.
Proof.
  induction ids as [|y ids IH]; simpl; [lia|]. rewrite IH. lia.
Qed.

Lemma next_rowid_pos (ids : list Z) : 1 <= next_rowid ids.
Proof. unfold next_rowid. pose proof (foldr_max_nonneg ids). lia. Qed.

Lemma next_rowid_snoc (ids : list Z) :
  next_rowid (ids ++ [next_rowid ids]) = next_rowid ids + 1.
Proof.
  unfold next_rowid. rewrite foldr_max_snoc.
  pose proof (foldr_max_nonneg ids). lia.
Qed.

(** ** The working copy of the connection *)

Lemma execute_inserts : inserts sqlite3.execute.
Proof.
  intros s w. unfold exec_ok, sqlite3.execute, with_tables, cur_tables.
  destruct (connection w) as [c|]; [|eauto].
  destruct (schema (conn_db c)) as [sch|] eqn:Hs; [|eauto].
  destruct (sch (tables (conn_db c)) s); [|eauto].
  destruct (apply_stmt (tables (conn_db c)) s); reflexivity.
Qed.

Lemma Database_insert_inserts : inserts Database.insert.
Proof.
  intros s w. unfold Database.insert, Database.store_error.
  pose proof (execute_inserts s w) as H.
  destruct (exec_ok s w) as [[id w']|].
  - rewrite H. reflexivity.
  - destruct H as [e ->]. destruct e; eauto.
Qed.

Lemma with_tables_compose (f g : Tables -> Tables) (w : World) :
  with_tables f (with_tables g w) = with_tables (fun t => f (g t)) w.
Proof.
  unfold with_tables. destruct (connection w) as [c|] eqn:Hc; simpl; [done|].
  by rewrite Hc.
Qed.

Lemma with_tables_ext (f g : Tables -> Tables) (w : World) :
  (forall t, f t = g t) -> with_tables f w = with_tables g w.
Proof. intros H. unfold with_tables. destruct (connection w); [|done]. by rewrite H. Qed.

Lemma with_tables_stdout (f : Tables -> Tables) (out : list string) (w : World) :
  with_tables f (set_stdout out w) = set_stdout out (with_tables f w).
Proof. unfold with_tables. simpl. destruct (connection w); reflexivity. Qed.

Lemma cur_tables_with_tables (f : Tables -> Tables) (w : World) :
  is_Some (connection w) -> cur_tables (with_tables f w) = f (cur_tables w).
Proof. intros [c Hc]. unfold cur_tables, with_tables. rewrite Hc. reflexivity. Qed.

(** ** Three ways to reason about a computation *)

Lemma preserves_ret {S A} (I : S -> Prop) (a : A) : preserves I (ret a).
Proof. intros s H. exact H. Qed.

Lemma preserves_raise {S A} (I : S -> Prop) (e : Exn) : preserves I (@raise S A e).
Proof. intros s H. exact H. Qed.

Lemma preserves_bind {S A B} (I : S -> Prop) (c : M S A) (k : A -> M S B) :
  preserves I c -> (forall a, preserves I (k a)) -> preserves I (bind c k).
Proof.
  intros Hc Hk s H. unfold bind. specialize (Hc s H).
  destruct (c s) as [[a|e] s']; simpl in *; [by apply Hk | done].
Qed.

Lemma preserves_for_each {S A} (I : S -> Prop) (xs : list A) (body : A -> M S unit) :
  (forall x, preserves I (body x)) -> preserves I (for_each xs body).
Proof.
  intros Hb. induction xs as [|x xs IH]; simpl.
  - apply preserves_ret.
  - apply preserves_bind; [apply Hb | intros _; exact IH].
Qed.

Lemma preserves_subscript {S A} (I : S -> Prop) (field : option A) (key : string) :
  preserves I (@subscript S A field key).
Proof. destruct field; [apply preserves_ret | apply preserves_raise]. Qed.

Lemma preserves_try_finally {S A} (I : S -> Prop) (c : M S A) (h : M S unit) :
  preserves I c -> preserves I h -> preserves I (try_finally c h).
Proof.
  intros Hc Hh s H. unfold try_finally. specialize (Hc s H).
  destruct (c s) as [r s']. simpl in Hc. specialize (Hh s' Hc).
  destruct (h s') as [[[]|e] s'']; exact Hh.
Qed.

Lemma respects_ret {S A} (R : S -> S -> Prop) (a : A) : respects R (ret a).
Proof. intros s1 s2 H. split; [reflexivity | exact H]. Qed.

Lemma respects_raise {S A} (R : S -> S -> Prop) (e : Exn) : respects R (@raise S A e).
Proof. intros s1 s2 H. split; [reflexivity | exact H]. Qed.

Lemma respects_bind {S A B} (R : S -> S -> Prop) (c : M S A) (k : A -> M S B) :
  respects R c -> (forall a, respects R (k a)) -> respects R (bind c k).
Proof.
  intros Hc Hk s1 s2 H. unfold bind. destruct (Hc s1 s2 H) as [Hr HR].
  destruct (c s1) as [r1 t1], (c s2) as [r2 t2]. simpl in *. subst r2.
  destruct r1 as [a|e]; [by apply Hk | done].
Qed.

Lemma respects_for_each {S A} (R : S -> S -> Prop) (xs : list A) (body : A -> M S unit) :
  (forall x, respects R (body x)) -> respects R (for_each xs body).
Proof.
  intros Hb. induction xs as [|x xs IH]; simpl.
  - apply respects_ret.
  - apply respects_bind; [apply Hb | intros _; exact IH].
Qed.

Lemma respects_subscript {S A} (R : S -> S -> Prop) (field : option A) (key : string) :
  respects R (@subscript S A field key).
Proof. destruct field; [apply respects_ret | apply respects_raise]. Qed.

Lemma for_each_app {S A} (xs ys : list A) (body : A -> M S unit) (s : S) :
  for_each (xs ++ ys) body s = (for_each xs body ;;; for_each ys body) s.
Proof.
  revert s. induction xs as [|x xs IH]; intros s; simpl.
  - reflexivity.
  - unfold bind. destruct (body x s) as [[[]|e] s']; [|reflexivity].
    rewrite IH. reflexivity.
Qed.

(** ** What a successful import leaves *)

Lemma grow_grow g1 a1 m1 g2 a2 m2 w :
  grow g2 a2 m2 (grow g1 a1 m1 w) = grow (g1 ++ g2) (a1 ++ a2) (m1 ++ m2) w.
Proof.
  unfold grow. rewrite with_tables_compose. apply with_tables_ext.
  intros t. unfold add_rows. simpl. by rewrite !app_assoc.
Qed.

Lemma grow_nil w : grow [] [] [] w = w.
Proof.
  unfold grow, with_tables, add_rows.
  destruct w as [f d p o [[cp [sc [g a m]]]|]]; simpl; [|done].
  unfold set_connection. simpl. by rewrite !app_nil_r.
Qed.

Lemma emit_emit l1 l2 w : emit l2 (emit l1 w) = emit (l1 ++ l2) w.
Proof. unfold emit, set_stdout. simpl. by rewrite app_assoc. Qed.

Lemma emit_nil w : emit [] w = w.
Proof. unfold emit, set_stdout. destruct w. simpl. by rewrite app_nil_r. Qed.

Lemma grow_emit g a m l w : grow g a m (emit l w) = emit l (grow g a m w).
Proof.
  unfold grow, emit. rewrite with_tables_stdout. f_equal.
  unfold with_tables. by destruct (connection w).
Qed.

Lemma exec_ok_inv s w id w' :
  exec_ok s w = Some (id, w') ->
  is_Some (connection w) /\ id = (apply_stmt (cur_tables w) s).2
  /\ w' = with_tables (fun t => (apply_stmt t s).1) w.
Proof.
  unfold exec_ok. destruct (connection w) as [c|] eqn:Hc; [|done].
  destruct (schema (conn_db c)) as [sch|]; [|done].
  destruct (sch _ s); [|done]. intros [= <- <-]. eauto.
Qed.

Lemma exec_ok_ready s w :
  ready w ->
  exec_ok s w = Some ((apply_stmt (cur_tables w) s).2,
                      with_tables (fun t => (apply_stmt t s).1) w).
Proof.
  intros (c & sch & Hc & Hs & Hall). unfold exec_ok. by rewrite Hc, Hs, Hall.
Qed.

Lemma ready_with_tables f w : ready w -> ready (with_tables f w).
Proof.
  intros (c & sch & Hc & Hs & Hall). unfold with_tables. rewrite Hc.
  eexists _, sch. simpl. split; [reflexivity|]. split; assumption.
Qed.

Lemma ready_emit l w : ready w -> ready (emit l w).
Proof. intros (c & sch & H). exists c, sch. exact H. Qed.

Lemma with_group_row w en name descr :
  with_tables (fun t => (apply_stmt t (InsertGroup en name descr)).1) w
  = grow [ {| g_id := next_group w; g_enabled := en; g_name := name;
              g_description := descr |} ] [] [] w.
Proof.
  unfold grow, with_tables, next_group, cur_tables.
  destruct (connection w) as [c|]; [|done]. simpl. unfold add_rows.
  by rewrite !app_nil_r.
Qed.

Lemma with_adlist_row w url en comment :
  with_tables (fun t => (apply_stmt t (InsertAdlist url en comment)).1) w
  = grow [] [ {| a_id := next_adlist w; a_address := url; a_enabled := en;
                 a_comment := comment |} ] [] w.
Proof.
  unfold grow, with_tables, next_adlist, cur_tables.
  destruct (connection w) as [c|]; [|done]. simpl. unfold add_rows.
  by rewrite !app_nil_r.
Qed.

Lemma with_membership_row w list_id gid :
  with_tables (fun t => (apply_stmt t (InsertMembership list_id gid)).1) w
  = grow [] [] [ {| m_adlist_id := list_id; m_group_id := gid |} ] w.
Proof.
  unfold grow, with_tables.
  destruct (connection w) as [c|]; [|done]. simpl. unfold add_rows.
  by rewrite !app_nil_r.
Qed.

Lemma next_group_grow_one w r a m :
  is_Some (connection w) -> g_id r = next_group w ->
  next_group (grow [r] a m w) = next_group w + 1.
Proof.
  intros Hc Hr. unfold next_group, grow. rewrite cur_tables_with_tables by done.
  simpl. rewrite fmap_app. simpl. rewrite Hr. apply next_rowid_snoc.
Qed.

Lemma next_adlist_grow_one w g r m :
  is_Some (connection w) -> a_id r = next_adlist w ->
  next_adlist (grow g [r] m w) = next_adlist w + 1.
Proof.
  intros Hc Hr. unfold next_adlist, grow. rewrite cur_tables_with_tables by done.
  simpl. rewrite fmap_app. simpl. rewrite Hr. apply next_rowid_snoc.
Qed.

Lemma next_adlist_grow_none w g m :
  next_adlist (grow g [] m w) = next_adlist w.
Proof.
  unfold next_adlist, grow, cur_tables, with_tables.
  destruct (connection w) as [c|] eqn:Hc; simpl; [|by rewrite Hc].
  by rewrite app_nil_r.
Qed.

Lemma next_adlist_emit w l : next_adlist (emit l w) = next_adlist w.
Proof. reflexivity. Qed.

Section ImporterFacts.

Variable insert : Stmt -> M World Z.
Hypothesis insert_spec : inserts insert.

Lemma insert_step s w :
  (exists e, insert s w = (Raise e, w))
  \/ (exists id w', insert s w = (Ok id, w') /\ exec_ok s w = Some (id, w')).
Proof.
  pose proof (insert_spec s w) as H.
  destruct (exec_ok s w) as [[id w']|]; [right; eauto | left; exact H].
Qed.

Lemma insert_ready s w :
  ready w -> exists id w', insert s w = (Ok id, w') /\ ready w'.
Proof.
  intros Hr. pose proof (insert_spec s w) as H.
  rewrite (exec_ok_ready s w Hr) in H.
  eexists _, _. split; [exact H|]. by apply ready_with_tables.
Qed.

(** *** The group loop *)

Lemma insert_groups_ok gs : forall idx w idx' w',
  insert_groups insert gs idx w = (Ok idx', w') ->
  forallb valid_group gs = true
  /\ idx' = index_groups idx (next_group w) gs
  /\ w' = grow (group_rows (next_group w) gs) [] [] w.
Proof.
  induction gs as [|g gs IH]; intros idx w idx' w'; simpl.
  - intros [= <- <-]. by rewrite grow_nil.
  - unfold bind. destruct (gs_name g) as [name|] eqn:Hn; simpl; [|done].
    destruct (insert_step (InsertGroup (get (gs_enabled g) true) name (gs_description g)) w)
      as [[e ->]|(id & w1 & -> & Hx)]; [done|].
    apply exec_ok_inv in Hx as (Hc & Hid & Hw).
    rewrite with_group_row in Hw. subst id w1. simpl. intros H. apply IH in H as (Hv & -> & ->).
    rewrite next_group_grow_one by done.
    split; [|split].
    + unfold valid_group at 1. rewrite Hn, Hv. by rewrite bool_decide_true by eauto.
    + reflexivity.
    + rewrite grow_grow. unfold group_row. rewrite Hn. reflexivity.
Qed.

Lemma insert_groups_succeeds gs : forall idx w,
  ready w -> forallb valid_group gs = true ->
  exists idx' w', insert_groups insert gs idx w = (Ok idx', w') /\ ready w'.
Proof.
  induction gs as [|g gs IH]; intros idx w Hr Hv; simpl.
  - eexists _, _. split; [reflexivity | exact Hr].
  - simpl in Hv. apply andb_prop in Hv as [Hg Hv].
    unfold valid_group in Hg. apply bool_decide_eq_true in Hg as [name Hn].
    unfold bind. rewrite Hn. simpl.
    destruct (insert_ready (InsertGroup (get (gs_enabled g) true) name (gs_description g)) w Hr)
      as (id & w1 & -> & Hr1).
    by apply IH.
Qed.

(** *** The reference loop of one adlist *)

Lemma link_groups_ok idx list_id url refs : forall w w',
  for_each refs (link_group insert idx list_id url) w = (Ok tt, w') ->
  w' = emit (warnings idx url refs) (grow [] [] (links idx list_id refs) w).
Proof.
  induction refs as [|r refs IH]; intros w w'; simpl.
  - intros [= <-]. by rewrite grow_nil, emit_nil.
  - unfold bind, link_group at 1, links, warnings. simpl.
    fold (links idx list_id refs). fold (warnings idx url refs).
    destruct (idx !! r) as [gid|] eqn:Hr; simpl.
    + destruct (bool_decide (gid = 0)); simpl.
      * apply IH.
      * unfold bind.
        destruct (insert_step (InsertMembership list_id gid) w)
          as [[e ->]|(id & w1 & -> & Hx)]; [done|].
        apply exec_ok_inv in Hx as (Hc & Hid & Hw).
        rewrite with_membership_row in Hw. subst id w1. simpl. intros H. apply IH in H as ->.
        by rewrite grow_grow.
    + intros H. apply IH in H as ->.
      change (set_stdout (stdout w ++ [warning r url]) w)
        with (emit [warning r url] w).
      by rewrite grow_emit, emit_emit.
Qed.

Lemma link_groups_succeeds idx list_id url refs : forall w,
  ready w ->
  exists w', for_each refs (link_group insert idx list_id url) w = (Ok tt, w') /\ ready w'.
Proof.
  induction refs as [|r refs IH]; intros w Hr; simpl.
  - eexists. split; [reflexivity | exact Hr].
  - unfold bind, link_group at 1.
    destruct (idx !! r) as [gid|]; simpl.
    + destruct (bool_decide (gid = 0)); simpl; [by apply IH|].
      unfold bind.
      destruct (insert_ready (InsertMembership list_id gid) w Hr) as (id & w1 & -> & Hr1).
      simpl. by apply IH.
    + apply IH. by apply (ready_emit [warning r url]).
Qed.

(** *** The adlist loop *)

Lemma import_adlists_ok idx als : forall w w',
  for_each als (import_adlist insert idx) w = (Ok tt, w') ->
  forallb valid_adlist als = true
  /\ w' = emit (warning_lines idx als)
            (grow [] (adlist_rows (next_adlist w) als)
               (membership_rows idx (next_adlist w) als) w).
Proof.
  induction als as [|a als IH]; intros w w'; simpl.
  - intros [= <-]. by rewrite grow_nil, emit_nil.
  - unfold bind, import_adlist at 1, bind.
    destruct (as_url a) as [url|] eqn:Hu; simpl; [|done].
    destruct (insert_step (InsertAdlist url (get (as_enabled a) true) (as_description a)) w)
      as [[e ->]|(id & w1 & -> & Hx)]; [done|].
    apply exec_ok_inv in Hx as (Hc & Hid & Hw).
    rewrite with_adlist_row in Hw. subst id w1. simpl.
    destruct (as_groups a) as [refs|] eqn:Hg; simpl; [|done].
    destruct (for_each refs _ _) as [[[]|e] w2] eqn:Hl; [|done].
    apply link_groups_ok in Hl as ->.
    intros H. apply IH in H as (Hv & ->).
    rewrite next_adlist_emit, next_adlist_grow_none, next_adlist_grow_one by done.
    split.
    + unfold valid_adlist at 1. rewrite Hu, Hg, Hv.
      by rewrite !bool_decide_true by eauto.
    + rewrite !grow_emit, emit_emit, !grow_grow.
      unfold adlist_row. rewrite Hu. reflexivity.
Qed.

Lemma import_adlists_succeeds idx als : forall w,
  ready w -> forallb valid_adlist als = true ->
  exists w', for_each als (import_adlist insert idx) w = (Ok tt, w') /\ ready w'.
Proof.
  induction als as [|a als IH]; intros w Hr Hv; simpl.
  - eexists. split; [reflexivity | exact Hr].
  - simpl in Hv. apply andb_prop in Hv as [Ha Hv].
    unfold valid_adlist in Ha. apply andb_prop in Ha as [Hu Hg].
    apply bool_decide_eq_true in Hu as [url Hu].
    apply bool_decide_eq_true in Hg as [refs Hg].
    unfold bind, import_adlist at 1, bind. rewrite Hu. simpl.
    destruct (insert_ready (InsertAdlist url (get (as_enabled a) true) (as_description a)) w Hr)
      as (id & w1 & -> & Hr1).
    rewrite Hg. simpl.
    destruct (link_groups_succeeds idx id url refs w1 Hr1) as (w2 & -> & Hr2).
    by apply IH.
Qed.

(** *** The whole import *)

Lemma import_document_ok data w w' :
  import_document insert data w = (Ok tt, w') ->
  exists d gs als,
    data = Some d /\ doc_groups d = Some gs /\ doc_adlists d = Some als
    /\ valid_document d = true
    /\ w' = emit (warning_lines (index_groups {[ "Default" := 0 ]} (next_group w) gs) als)
              (grow (group_rows (next_group w) gs)
                 (adlist_rows (next_adlist w) als)
                 (membership_rows (index_groups {[ "Default" := 0 ]} (next_group w) gs)
                    (next_adlist w) als) w).
Proof.
  unfold import_document, bind, item.
  destruct data as [d|]; [|done].
  destruct (doc_groups d) as [gs|] eqn:Hgs; simpl; [|done].
  destruct (insert_groups insert gs _ w) as [[idx|e] w1] eqn:Hg; [|done].
  apply insert_groups_ok in Hg as (Hvg & -> & ->).
  destruct (doc_adlists d) as [als|] eqn:Has; simpl; [|done].
  intros H. apply import_adlists_ok in H as (Hva & ->).
  exists d, gs, als. repeat split; try done.
  - unfold valid_document. by rewrite Hgs, Has, Hvg, Hva.
  - rewrite next_adlist_grow_none, grow_grow. simpl. by rewrite app_nil_r.
Qed.

Lemma import_document_succeeds d w :
  ready w -> valid_document d = true ->
  exists w', import_document insert (Some d) w = (Ok tt, w') /\ ready w'.
Proof.
  intros Hr Hv. unfold valid_document in Hv.
  destruct (doc_groups d) as [gs|] eqn:Hgs; [|done].
  destruct (doc_adlists d) as [als|] eqn:Has; [|done].
  apply andb_prop in Hv as [Hvg Hva].
  unfold import_document, bind, item. rewrite Hgs. simpl.
  destruct (insert_groups_succeeds gs {[ "Default" := 0 ]} w Hr Hvg) as (idx & w1 & -> & Hr1).
  rewrite Has. simpl. by apply import_adlists_succeeds.
Qed.

End ImporterFacts.

(** ** What the loops leave alone *)

Lemma same_store_refl w : same_store w w.
Proof. unfold same_store. destruct (connection w); auto. Qed.

Lemma same_store_with_tables w0 w f :
  same_store w0 w -> same_store w0 (with_tables f w).
Proof.
  unfold same_store, with_tables. intros (Hf & Ht & Hp & Hc).
  destruct (connection w) as [c|] eqn:Hw; simpl; [|by rewrite Hw].
  destruct (connection w0); auto.
Qed.

Lemma same_store_emit w0 w l : same_store w0 w -> same_store w0 (emit l w).
Proof. intros H. exact H. Qed.

Section Frame.

Variable insert : Stmt -> M World Z.
Hypothesis insert_spec : inserts insert.

Lemma insert_same_store w0 s : preserves (same_store w0) (insert s).
Proof.
  intros w H. destruct (insert_step insert insert_spec s w)
    as [[e ->]|(id & w1 & -> & Hx)]; [exact H|].
  apply exec_ok_inv in Hx as (_ & _ & ->). by apply same_store_with_tables.
Qed.

Lemma print_same_store w0 line : preserves (same_store w0) (print line).
Proof. intros w H. exact H. Qed.

Lemma import_document_same_store w0 data :
  preserves (same_store w0) (import_document insert data).
Proof.
  unfold import_document.
  apply preserves_bind.
  { destruct data; [apply preserves_subscript | apply preserves_raise]. }
  intros gs. apply preserves_bind.
  { generalize ({[ "Default" := 0 ]} : gmap string Z).
    induction gs as [|g gs IH]; intros idx; simpl; [apply preserves_ret|].
    apply preserves_bind; [apply preserves_subscript|]. intros name.
    apply preserves_bind; [apply insert_same_store|]. intros id. apply IH. }
  intros idx. apply preserves_bind.
  { destruct data; [apply preserves_subscript | apply preserves_raise]. }
  intros als. apply preserves_for_each. intros a. unfold import_adlist.
  apply preserves_bind; [apply preserves_subscript|]. intros url.
  apply preserves_bind; [apply insert_same_store|]. intros list_id.
  apply preserves_bind; [apply preserves_subscript|]. intros refs.
  apply preserves_for_each. intros r. unfold link_group.
  destruct (idx !! r) as [gid|]; [|apply print_same_store].
  destruct (bool_decide (gid = 0)); [apply preserves_ret|].
  apply preserves_bind; [apply insert_same_store|]. intros _. apply preserves_ret.
Qed.

Lemma import_document_frame data w :
  same_store w (import_document insert data w).2.
Proof. apply import_document_same_store, same_store_refl. Qed.

End Frame.

(** ** Rotation of the store file *)

Lemma append_ne (s t : string) : t <> "" -> s +:+ t <> s.
Proof.
  intros Ht. induction s as [|c s IH]; simpl; [done|].
  intros [= H]. by apply IH.
Qed.

Lemma archive_path_ne p d : archive_path p d <> p.
Proof. apply append_ne. done. Qed.

Lemma rotated_lookup p a m : a <> p -> rotated p a m !! p = None.
Proof.
  intros Hne. unfold rotated. destruct (m !! p) eqn:Hp; [|done].
  rewrite lookup_insert_ne by done. apply lookup_delete_eq.
Qed.

Lemma rotated_lookup_ne p a m q : q <> p -> q <> a -> rotated p a m !! q = m !! q.
Proof.
  intros Hp Ha. unfold rotated. destruct (m !! p); [|done].
  rewrite lookup_insert_ne by done. by rewrite lookup_delete_ne.
Qed.

Lemma rotated_archive p a m f : m !! p = Some f -> rotated p a m !! a = Some f.
Proof. intros H. unfold rotated. rewrite H. apply lookup_insert_eq. Qed.

(** ** The primitives, as equations *)

Lemma isfile_Some p w f : fs w !! p = Some f -> isfile p w = (Ok true, w).
Proof. intros H. unfold isfile, gets. by rewrite H. Qed.

Lemma isfile_None p w : fs w !! p = None -> isfile p w = (Ok false, w).
Proof. intros H. unfold isfile, gets. by rewrite H. Qed.

Lemma rename_Some src dst w f :
  fs w !! src = Some f ->
  rename src dst w = (Ok tt, set_fs (<[dst := f]> (delete src (fs w))) w).
Proof. intros H. unfold rename. by rewrite H. Qed.

Lemma touch_None p w :
  fs w !! p = None -> touch p w = (Ok tt, set_fs (<[p := FEmpty]> (fs w)) w).
Proof. intros H. unfold touch. by rewrite H. Qed.

Lemma today_Ymd_eq w : today_Ymd w = (Ok (strftime_Ymd (today w)), w).
Proof. reflexivity. Qed.

Lemma script_path_eq w : gets script_path w = (Ok (script_path w), w).
Proof. reflexivity. Qed.

Lemma print_eq line w : print line w = (Ok tt, emit [line] w).
Proof. reflexivity. Qed.

Lemma safe_load_yaml p w d :
  fs w !! p = Some (FYaml d) -> safe_load p w = (Ok (Some d), w).
Proof. intros H. unfold safe_load. by rewrite H. Qed.

Lemma len_adlists_Some d als w :
  doc_adlists d = Some als -> len_adlists (Some d) w = (Ok (length als), w).
Proof. intros H. unfold len_adlists, item, bind. by rewrite H. Qed.

Lemma read_file_Some p w f : fs w !! p = Some f -> read_file p w = (Ok f, w).
Proof. intros H. unfold read_file. by rewrite H. Qed.

Lemma connect_empty p w :
  fs w !! p = Some FEmpty ->
  sqlite3.connect p w
  = (Ok p, set_connection (Some {| conn_path := p; conn_db := empty_store |}) w).
Proof. intros H. unfold sqlite3.connect. by rewrite H. Qed.

Lemma connect_new p w :
  fs w !! p = None ->
  sqlite3.connect p w
  = (Ok p, set_connection (Some {| conn_path := p; conn_db := empty_store |})
             (set_fs (<[p := FEmpty]> (fs w)) w)).
Proof. intros H. unfold sqlite3.connect. by rewrite H. Qed.

Lemma commit_open w c :
  connection w = Some c ->
  sqlite3.commit w = (Ok tt, set_fs (<[conn_path c := FDb (conn_db c)]> (fs w)) w).
Proof. intros H. unfold sqlite3.commit. by rewrite H. Qed.

Lemma close_open w c :
  connection w = Some c -> sqlite3.close w = (Ok tt, set_connection None w).
Proof. intros H. unfold sqlite3.close. by rewrite H. Qed.

(** ** The methods of [GravityYAML], as equations *)

Lemma GY_load_yaml_missing o w :
  fs w !! GravityYAML._yaml_path o = None ->
  GravityYAML.load_yaml (o, w)
  = (Raise (TypeError "FileNotFoundError() takes no keyword arguments"), (o, w)).
Proof.
  intros H. unfold GravityYAML.load_yaml, isfile. unfold_monad.
  repeat (cbn; rewrite ?H). by destruct o.
Qed.

Lemma GY_load_yaml_empty o w d :
  fs w !! GravityYAML._yaml_path o = Some (FYaml d) ->
  doc_adlists d = Some [] ->
  GravityYAML.load_yaml (o, w)
  = (Raise (ConfigFileError "No ad lists specified"),
     (GravityYAML.set_data (Some d) o, w)).
Proof.
  intros H Ha.
  unfold GravityYAML.load_yaml, isfile, safe_load, len_adlists, item. unfold_monad.
  by repeat (cbn; rewrite ?H, ?Ha).
Qed.

Lemma GY_load_yaml_loaded o w d als :
  fs w !! GravityYAML._yaml_path o = Some (FYaml d) ->
  doc_adlists d = Some als -> als <> [] ->
  GravityYAML.load_yaml (o, w) = (Ok tt, (GravityYAML.set_data (Some d) o, w)).
Proof.
  intros H Ha Hne.
  unfold GravityYAML.load_yaml, isfile, safe_load, len_adlists, item. unfold_monad.
  repeat (cbn; rewrite ?H, ?Ha). by destruct als.
Qed.

Lemma GY_load_yaml_inv o w s :
  GravityYAML.load_yaml (o, w) = (Ok tt, s) ->
  exists d als, fs w !! GravityYAML._yaml_path o = Some (FYaml d)
                /\ doc_adlists d = Some als /\ als <> []
                /\ s = (GravityYAML.set_data (Some d) o, w).
Proof.
  unfold GravityYAML.load_yaml, isfile, safe_load, len_adlists, item. unfold_monad.
  destruct (fs w !! GravityYAML._yaml_path o) as [[d| | | |]|] eqn:H;
    repeat (cbn; rewrite ?H); try done.
  destruct (doc_adlists d) as [als|] eqn:Ha; cbn; [|done].
  destruct als as [|a als]; cbn; [done|].
  intros [= <-]. eauto 10.
Qed.

Lemma GY_init_database_spec o w :
  GravityYAML.init_database (o, w)
  = (Ok tt, (o, set_fs (<[GravityYAML._db_path o := FEmpty]>
                          (rotated (GravityYAML._db_path o)
                             (archive_path (GravityYAML._db_path o) (today w)) (fs w))) w)).
Proof.
  unfold GravityYAML.init_database, isfile, today_Ymd, rename, touch, rotated. unfold_monad.
  destruct (fs w !! GravityYAML._db_path o) as [f|] eqn:Hp; repeat (cbn; rewrite ?Hp).
  - fold (archive_path (GravityYAML._db_path o) (today w)).
    rewrite lookup_insert_ne by (apply archive_path_ne).
    rewrite lookup_delete_eq. reflexivity.
  - reflexivity.
Qed.

(** [populate_database] on the file that [init_database] left. *)
Lemma GY_populate_database_spec o w sch :
  truthy (GravityYAML._data o) = true ->
  fs w !! schema_file w = Some (FSchema sch) ->
  fs w !! GravityYAML._db_path o = Some FEmpty ->
  let p := GravityYAML._db_path o in
  let db := {| schema := Some sch; tables := empty_tables |} in
  let w1 := set_connection (Some {| conn_path := p; conn_db := db |})
              (set_fs (<[p := FDb db]> (fs w)) w) in
  GravityYAML.populate_database (o, w)
  = match import_document Database.insert (GravityYAML._data o) w1 with
    | (Ok _, w') => (Ok tt, (o, committed w'))
    | (Raise e, w') => (Raise e, (o, set_connection None w'))
    end.
Proof.
  intros Ht Hs Hp p db w1. unfold schema_file in Hs.
  unfold GravityYAML.populate_database, isfile, with_Database, Database.__enter__,
    Database.loadFile, Database.store_error, try_finally, sqlite3.connect, read_file,
    sqlite3.executescript.
  unfold_monad.
  repeat (cbn; rewrite ?Ht, ?Hs, ?Hp).
  change (set_connection _ (set_fs _ (set_connection _ w))) with w1.
  pose proof (import_document_frame Database.insert Database_insert_inserts
                (GravityYAML._data o) w1) as Hfr.
  destruct (import_document Database.insert (GravityYAML._data o) w1) as [[[]|e] w'];
    destruct Hfr as (_ & _ & _ & Hc); simpl in Hc;
    unfold Database.commit, Database.__exit__, Database.store_error, sqlite3.commit,
      sqlite3.close, committed;
    destruct (connection w') as [c'|] eqn:Hc'; try done; cbn; by rewrite ?Hc'.
Qed.

Lemma GY_populate_database_inv o w s :
  fs w !! GravityYAML._db_path o = Some FEmpty ->
  GravityYAML.populate_database (o, w) = (Ok tt, s) ->
  exists sch, fs w !! schema_file w = Some (FSchema sch).
Proof.
  intros Hp. unfold schema_file.
  unfold GravityYAML.populate_database, isfile, with_Database, Database.__enter__,
    Database.loadFile, Database.store_error, try_finally, sqlite3.connect, read_file,
    sqlite3.executescript, Database.__exit__, sqlite3.close, FileNotFoundError_new.
  unfold_monad.
  destruct (truthy (GravityYAML._data o)) eqn:Ht;
  destruct (fs w !! path_join (script_path w) "database.sql") as [[d|sch| | |]|] eqn:Hs;
    repeat (cbn; rewrite ?Hs, ?Hp, ?Ht); try done.
  eauto.
Qed.

Lemma truthy_adlists d als : doc_adlists d = Some als -> truthy (Some d) = true.
Proof.
  intros H. unfold truthy. rewrite H.
  rewrite (bool_decide_true (is_Some (Some als))) by eauto. by rewrite orb_true_r.
Qed.

Lemma initialised_schema p w sch :
  fs w !! schema_file w = Some (FSchema sch) ->
  schema_file w <> p -> schema_file w <> archive_path p (today w) ->
  initialised p w !! schema_file w = Some (FSchema sch).
Proof.
  intros Hs Hp Ha. unfold initialised. rewrite lookup_insert_ne by done.
  by rewrite rotated_lookup_ne.
Qed.

Lemma GY_run_spec o w d als sch :
  fs w !! GravityYAML._yaml_path o = Some (FYaml d) ->
  doc_adlists d = Some als -> als <> [] ->
  initialised (GravityYAML._db_path o) w !! schema_file w = Some (FSchema sch) ->
  GravityYAML.run (o, w)
  = match import_document Database.insert (Some d) (fresh (GravityYAML._db_path o) sch w) with
    | (Ok _, w') => (Ok tt, (GravityYAML.set_data (Some d) o, committed w'))
    | (Raise e, w') => (Raise e, (GravityYAML.set_data (Some d) o, set_connection None w'))
    end.
Proof.
  intros Hy Ha Hne Hs. unfold GravityYAML.run, bind.
  rewrite (GY_load_yaml_loaded o w d als Hy Ha Hne).
  rewrite GY_init_database_spec.
  cbn [GravityYAML.set_data GravityYAML._db_path].
  rewrite (GY_populate_database_spec _ _ sch).
  - reflexivity.
  - by apply (truthy_adlists d als).
  - exact Hs.
  - apply lookup_insert_eq.
Qed.

Lemma GY_run_inv o w s :
  GravityYAML.run (o, w) = (Ok tt, s) ->
  exists d als sch,
    fs w !! GravityYAML._yaml_path o = Some (FYaml d)
    /\ doc_adlists d = Some als /\ als <> []
    /\ initialised (GravityYAML._db_path o) w !! schema_file w = Some (FSchema sch).
Proof.
  unfold GravityYAML.run, bind.
  destruct (GravityYAML.load_yaml (o, w)) as [[[]|e] [o1 w1]] eqn:Hl; [|done].
  apply GY_load_yaml_inv in Hl as (d & als & Hy & Ha & Hne & [= -> ->]).
  rewrite GY_init_database_spec. intros H.
  apply GY_populate_database_inv in H as [sch Hs]; [|apply lookup_insert_eq].
  eauto 10.
Qed.

(** ** The methods of [Application], as equations *)

Lemma App_load_yaml_missing o w :
  fs w !! Application._yaml_path o = None ->
  Application._load_yaml (o, w)
  = (Raise (SystemExit 1), (o, emit ["ERROR - Could not find YAML file"] w)).
Proof.
  intros H. unfold Application._load_yaml, isfile, print. unfold_monad.
  repeat (cbn; rewrite ?H). by destruct o.
Qed.

Lemma App_load_yaml_empty o w d :
  fs w !! Application._yaml_path o = Some (FYaml d) ->
  doc_adlists d = Some [] ->
  Application._load_yaml (o, w)
  = (Raise (SystemExit 1),
     (Application.set_data (Some d) o, emit ["ERROR - No ad lists specified"] w)).
Proof.
  intros H Ha.
  unfold Application._load_yaml, isfile, safe_load, len_adlists, item, print. unfold_monad.
  by repeat (cbn; rewrite ?H, ?Ha).
Qed.

Lemma App_load_yaml_loaded o w d als :
  fs w !! Application._yaml_path o = Some (FYaml d) ->
  doc_adlists d = Some als -> als <> [] ->
  Application._load_yaml (o, w) = (Ok tt, (Application.set_data (Some d) o, w)).
Proof.
  intros H Ha Hne.
  unfold Application._load_yaml, isfile, safe_load, len_adlists, item. unfold_monad.
  repeat (cbn; rewrite ?H, ?Ha). by destruct als.
Qed.

Lemma App_load_yaml_inv o w s :
  Application._load_yaml (o, w) = (Ok tt, s) ->
  exists d als, fs w !! Application._yaml_path o = Some (FYaml d)
                /\ doc_adlists d = Some als /\ als <> []
                /\ s = (Application.set_data (Some d) o, w).
Proof.
  unfold Application._load_yaml, isfile, safe_load, len_adlists, item, print. unfold_monad.
  destruct (fs w !! Application._yaml_path o) as [[d| | | |]|] eqn:H;
    repeat (cbn; rewrite ?H); try done.
  destruct (doc_adlists d) as [als|] eqn:Ha; cbn; [|done].
  destruct als as [|a als]; cbn; [done|].
  intros [= <-]. eauto 10.
Qed.

Lemma App_init_database_spec o w sch :
  initialised (Application._db_path o) w !! schema_file w = Some (FSchema sch) ->
  Application._init_database (o, w)
  = (Ok tt, (Application.set_connection (Some (Application._db_path o)) o,
             fresh (Application._db_path o) sch w)).
Proof.
  unfold initialised, schema_file. intros Hs.
  pose proof (rotated_lookup (Application._db_path o)
                (archive_path (Application._db_path o) (today w)) (fs w)
                (archive_path_ne _ _)) as Hn.
  assert (path_join (script_path w) "database.sql" <> Application._db_path o) as Hne.
  { intros E. rewrite E, lookup_insert_eq in Hs. done. }
  rewrite lookup_insert_ne in Hs by done.
  unfold Application._init_database, isfile, today_Ymd, rename, read_file, sqlite3.connect,
    sqlite3.executescript, fresh.
  unfold_monad. unfold rotated, archive_path in *.
  destruct (fs w !! Application._db_path o) as [f|] eqn:Hp;
    repeat (cbn; rewrite ?Hp, ?Hs, ?Hn); reflexivity.
Qed.

Lemma App_init_database_inv o w s :
  Application._init_database (o, w) = (Ok tt, s) ->
  exists sch, initialised (Application._db_path o) w !! schema_file w = Some (FSchema sch).
Proof.
  unfold initialised, schema_file.
  pose proof (rotated_lookup (Application._db_path o)
                (archive_path (Application._db_path o) (today w)) (fs w)
                (archive_path_ne _ _)) as Hn.
  unfold Application._init_database, isfile, today_Ymd, rename, read_file, sqlite3.connect,
    sqlite3.executescript, print.
  unfold_monad. unfold rotated, archive_path in *.
  destruct (decide (path_join (script_path w) "database.sql" = Application._db_path o))
    as [E|Hne].
  - destruct (fs w !! Application._db_path o) as [f|] eqn:Hp;
      repeat (cbn; rewrite ?E, ?Hp, ?Hn); done.
  - rewrite lookup_insert_ne by done.
    destruct (fs w !! Application._db_path o) as [f|] eqn:Hp; cbn; rewrite ?Hp; cbn.
    + destruct (_ !! path_join (script_path w) "database.sql") as [[d|sch| | |]|] eqn:Hs;
        repeat (cbn; rewrite ?Hp, ?Hs, ?Hn); try done. eauto.
    + destruct (_ !! path_join (script_path w) "database.sql") as [[d|sch| | |]|] eqn:Hs;
        repeat (cbn; rewrite ?Hp, ?Hs, ?Hn); try done. eauto.
Qed.

Lemma App_populate_database_spec o w h c :
  truthy (Application._data o) = true ->
  Application._connection o = Some h ->
  connection w = Some c ->
  Application._populate_database (o, w)
  = match import_document sqlite3.execute (Application._data o) w with
    | (Ok _, w') => (Ok tt, (Application.set_cursor (Some h) o,
                             set_fs (<[conn_path c := FDb (default (conn_db c)
                                                            (conn_db <$> connection w'))]>
                                       (fs w')) w'))
    | (Raise e, w') => (Raise e, (Application.set_cursor (Some h) o, w'))
    end.
Proof.
  intros Ht Hh Hc.
  unfold Application._populate_database, sqlite3.commit. unfold_monad.
  repeat (cbn; rewrite ?Ht, ?Hh).
  pose proof (import_document_frame sqlite3.execute execute_inserts
                (Application._data o) w) as Hfr.
  destruct (import_document sqlite3.execute (Application._data o) w) as [[[]|e] w'];
    [|reflexivity].
  destruct Hfr as (_ & _ & _ & Hfr). simpl in Hfr. rewrite Hc in Hfr.
  destruct (connection w') as [c'|] eqn:Hc'; [|done]. destruct Hfr as [Hp _].
  repeat (cbn; rewrite ?Hc', ?Hp). reflexivity.
Qed.

Lemma App_run_spec o w d als sch :
  fs w !! Application._yaml_path o = Some (FYaml d) ->
  doc_adlists d = Some als -> als <> [] ->
  initialised (Application._db_path o) w !! schema_file w = Some (FSchema sch) ->
  exists o',
    Application.run (o, w)
    = match import_document sqlite3.execute (Some d) (fresh (Application._db_path o) sch w) with
      | (Ok _, w') => (Ok tt, (o', committed w'))
      | (Raise e, w') => (Raise e, (o', set_connection None w'))
      end.
Proof.
  intros Hy Ha Hne Hs. unfold Application.run, bind.
  rewrite (App_load_yaml_loaded o w d als Hy Ha Hne).
  rewrite (App_init_database_spec _ _ sch) by exact Hs.
  unfold try_finally.
  erewrite App_populate_database_spec;
    [|by apply (truthy_adlists d als)|reflexivity|reflexivity].
  cbn [Application.set_data Application._data Application.set_connection
       Application._db_path].
  pose proof (import_document_frame sqlite3.execute execute_inserts (Some d)
                (fresh (Application._db_path o) sch w)) as Hfr.
  destruct (import_document sqlite3.execute (Some d) _) as [[[]|e] w'];
    destruct Hfr as (_ & _ & _ & Hfr); simpl in Hfr;
    destruct (connection w') as [c'|] eqn:Hc'; try done; destruct Hfr as [Hp _];
    unfold sqlite3.close, committed; unfold_monad; repeat (cbn; rewrite ?Hc', ?Hp);
    eexists; reflexivity.
Qed.

Lemma App_run_inv o w s :
  Application.run (o, w) = (Ok tt, s) ->
  exists d als sch,
    fs w !! Application._yaml_path o = Some (FYaml d)
    /\ doc_adlists d = Some als /\ als <> []
    /\ initialised (Application._db_path o) w !! schema_file w = Some (FSchema sch).
Proof.
  unfold Application.run, bind.
  destruct (Application._load_yaml (o, w)) as [[[]|e] [o1 w1]] eqn:Hl; [|done].
  apply App_load_yaml_inv in Hl as (d & als & Hy & Ha & Hne & [= -> ->]).
  destruct (Application._init_database _) as [[[]|e] s1] eqn:Hi; [|done].
  apply App_init_database_inv in Hi as [sch Hs]. eauto 10.
Qed.

(** ** Runs that differ outside the connection *)

Lemma execute_conn_only s : conn_only (sqlite3.execute s).
Proof.
  intros w. unfold sqlite3.execute.
  destruct (connection w) as [c|] eqn:Hc.
  - destruct (schema (conn_db c)) as [sch|] eqn:Hs.
    + destruct (sch (tables (conn_db c)) s) eqn:Ha.
      * destruct (apply_stmt (tables (conn_db c)) s) as [t id] eqn:Hap.
        eexists _, _. intros w' ->. rewrite Hs, Ha, Hap. reflexivity.
      * eexists _, (Some c). intros w' Hw. rewrite Hw, Hs, Ha.
        f_equal. destruct w'. simpl in *. by subst.
    + eexists _, (Some c). intros w' Hw. rewrite Hw, Hs.
      f_equal. destruct w'. simpl in *. by subst.
  - eexists _, None. intros w' Hw. rewrite Hw.
    f_equal. destruct w'. simpl in *. by subst.
Qed.

Lemma Database_insert_conn_only s : conn_only (Database.insert s).
Proof.
  intros w. destruct (execute_conn_only s w) as (r & k & H).
  unfold Database.insert, Database.store_error.
  destruct r as [id|e].
  - exists (Ok id), k. intros w' Hw. by rewrite (H w' Hw).
  - destruct e; eexists _, k; intros w' Hw; rewrite (H w' Hw); reflexivity.
Qed.

Section Simulation.

Variable insert : Stmt -> M World Z.
Hypothesis insert_conn : forall s, conn_only (insert s).

Variable R : World -> World -> Prop.
Hypothesis R_connection : forall w1 w2, R w1 w2 -> connection w1 = connection w2.
Hypothesis R_set_connection :
  forall w1 w2 k, R w1 w2 -> R (set_connection k w1) (set_connection k w2).
Hypothesis R_emit : forall w1 w2 l, R w1 w2 -> R (emit l w1) (emit l w2).

Lemma insert_respects s : respects R (insert s).
Proof.
  intros w1 w2 H. destruct (insert_conn s w1) as (r & k & Hk).
  rewrite (Hk w1 eq_refl), (Hk w2) by (symmetry; by apply R_connection).
  simpl. split; [reflexivity | by apply R_set_connection].
Qed.

Lemma print_respects line : respects R (print line).
Proof. intros w1 w2 H. split; [reflexivity | by apply (R_emit _ _ [line])]. Qed.

Lemma link_group_respects idx list_id url r :
  respects R (link_group insert idx list_id url r).
Proof.
  unfold link_group. destruct (idx !! r) as [gid|]; [|apply print_respects].
  destruct (bool_decide (gid = 0)); [apply respects_ret|].
  apply respects_bind; [apply insert_respects | intros _; apply respects_ret].
Qed.

Lemma import_adlist_respects idx a : respects R (import_adlist insert idx a).
Proof.
  unfold import_adlist.
  apply respects_bind; [apply respects_subscript|]. intros url.
  apply respects_bind; [apply insert_respects|]. intros list_id.
  apply respects_bind; [apply respects_subscript|]. intros refs.
  apply respects_for_each. intros r. apply link_group_respects.
Qed.

Lemma insert_groups_respects gs : forall idx, respects R (insert_groups insert gs idx).
Proof.
  induction gs as [|g gs IH]; intros idx; simpl; [apply respects_ret|].
  apply respects_bind; [apply respects_subscript|]. intros name.
  apply respects_bind; [apply insert_respects|]. intros id. apply IH.
Qed.

Lemma item_respects {A} data (field : ConfigDocument -> option A) key :
  respects R (item data field key).
Proof. destruct data; [apply respects_subscript | apply respects_raise]. Qed.

Lemma import_document_respects data : respects R (import_document insert data).
Proof.
  unfold import_document.
  apply respects_bind; [apply item_respects|]. intros gs.
  apply respects_bind; [apply insert_groups_respects|]. intros idx.
  apply respects_bind; [apply item_respects|]. intros als.
  apply respects_for_each. intros a. apply import_adlist_respects.
Qed.

End Simulation.

(** The result of the loops and the connection they leave depend on
    the connection only. *)
Lemma import_document_deterministic insert data w1 w2 :
  (forall s, conn_only (insert s)) ->
  connection w1 = connection w2 ->
  (import_document insert data w1).1 = (import_document insert data w2).1
  /\ connection (import_document insert data w1).2
     = connection (import_document insert data w2).2.
Proof.
  intros Hi Hc.
  apply (import_document_respects insert Hi
           (fun w1 w2 => connection w1 = connection w2)); done.
Qed.

(** ** The outcome of a successful run *)

Lemma import_fresh_ok insert d p sch w w' :
  inserts insert ->
  import_document insert (Some d) (fresh p sch w) = (Ok tt, w') ->
  exists gs als,
    doc_groups d = Some gs /\ doc_adlists d = Some als /\ valid_document d = true
    /\ committed w' = finished p sch gs als w.
Proof.
  intros Hins H.
  apply (import_document_ok insert Hins) in H
    as (d' & gs & als & [= <-] & Hgs & Hals & Hv & ->).
  exists gs, als. repeat split; try done.
  unfold committed, finished, emit, grow, with_tables, fresh, initialised, expected_tables,
    expected_index, set_stdout, set_connection, set_fs, add_rows.
  cbn. f_equal. apply insert_insert_eq.
Qed.

Lemma ready_fresh p sch w : (forall t s, sch t s = true) -> ready (fresh p sch w).
Proof. intros H. eexists _, sch. simpl. split; [reflexivity|]. split; [reflexivity | exact H]. Qed.

Lemma import_fresh_succeeds insert d p sch w :
  inserts insert ->
  valid_document d = true -> (forall t s, sch t s = true) ->
  exists w', import_document insert (Some d) (fresh p sch w) = (Ok tt, w').
Proof.
  intros Hins Hv Hall.
  destruct (import_document_succeeds insert Hins d (fresh p sch w)) as (w' & H & _);
    [by apply ready_fresh | done | eauto].
Qed.

Lemma GY_run_ok o w s :
  GravityYAML.run (o, w) = (Ok tt, s) ->
  exists d gs als sch,
    fs w !! GravityYAML._yaml_path o = Some (FYaml d)
    /\ doc_groups d = Some gs /\ doc_adlists d = Some als /\ als <> []
    /\ valid_document d = true
    /\ initialised (GravityYAML._db_path o) w !! schema_file w = Some (FSchema sch)
    /\ s.2 = finished (GravityYAML._db_path o) sch gs als w.
Proof.
  intros H. destruct (GY_run_inv o w s H) as (d & als & sch & Hy & Ha & Hne & Hs).
  rewrite (GY_run_spec o w d als sch Hy Ha Hne Hs) in H.
  destruct (import_document _ _ _) as [[[]|e] w'] eqn:Hi; [|done].
  apply (import_fresh_ok _ _ _ _ _ _ Database_insert_inserts) in Hi
    as (gs & als' & Hgs & Hals & Hv & Hc).
  rewrite Ha in Hals. injection Hals as <-.
  injection H as <-. exists d, gs, als, sch. by rewrite <- Hc.
Qed.

Lemma App_run_ok o w s :
  Application.run (o, w) = (Ok tt, s) ->
  exists d gs als sch,
    fs w !! Application._yaml_path o = Some (FYaml d)
    /\ doc_groups d = Some gs /\ doc_adlists d = Some als /\ als <> []
    /\ valid_document d = true
    /\ initialised (Application._db_path o) w !! schema_file w = Some (FSchema sch)
    /\ s.2 = finished (Application._db_path o) sch gs als w.
Proof.
  intros H. destruct (App_run_inv o w s H) as (d & als & sch & Hy & Ha & Hne & Hs).
  destruct (App_run_spec o w d als sch Hy Ha Hne Hs) as [o' Hr]. rewrite Hr in H.
  destruct (import_document _ _ _) as [[[]|e] w'] eqn:Hi; [|done].
  apply (import_fresh_ok _ _ _ _ _ _ execute_inserts) in Hi
    as (gs & als' & Hgs & Hals & Hv & Hc).
  rewrite Ha in Hals. injection Hals as <-.
  injection H as <-. exists d, gs, als, sch. by rewrite <- Hc.
Qed.

Lemma GY_run_succeeds o w d gs als sch :
  fs w !! GravityYAML._yaml_path o = Some (FYaml d) ->
  doc_groups d = Some gs -> doc_adlists d = Some als -> als <> [] ->
  valid_document d = true ->
  initialised (GravityYAML._db_path o) w !! schema_file w = Some (FSchema sch) ->
  (forall t s, sch t s = true) ->
  GravityYAML.run (o, w)
  = (Ok tt, (GravityYAML.set_data (Some d) o,
             finished (GravityYAML._db_path o) sch gs als w)).
Proof.
  intros Hy Hgs Ha Hne Hv Hs Hall.
  rewrite (GY_run_spec o w d als sch Hy Ha Hne Hs).
  destruct (import_fresh_succeeds Database.insert d (GravityYAML._db_path o) sch w
              Database_insert_inserts Hv Hall) as [w' Hi].
  rewrite Hi.
  apply (import_fresh_ok _ _ _ _ _ _ Database_insert_inserts) in Hi
    as (gs' & als' & Hgs' & Hals' & _ & ->).
  congruence.
Qed.

Lemma App_run_succeeds o w d gs als sch :
  fs w !! Application._yaml_path o = Some (FYaml d) ->
  doc_groups d = Some gs -> doc_adlists d = Some als -> als <> [] ->
  valid_document d = true ->
  initialised (Application._db_path o) w !! schema_file w = Some (FSchema sch) ->
  (forall t s, sch t s = true) ->
  exists o', Application.run (o, w)
             = (Ok tt, (o', finished (Application._db_path o) sch gs als w)).
Proof.
  intros Hy Hgs Ha Hne Hv Hs Hall.
  destruct (App_run_spec o w d als sch Hy Ha Hne Hs) as [o' ->].
  destruct (import_fresh_succeeds sqlite3.execute d (Application._db_path o) sch w
              execute_inserts Hv Hall) as [w' Hi].
  rewrite Hi.
  apply (import_fresh_ok _ _ _ _ _ _ execute_inserts) in Hi
    as (gs' & als' & Hgs' & Hals' & _ & ->).
  exists o'. congruence.
Qed.

(** ** Rows and index, entry by entry *)

Lemma length_group_rows n gs : length (group_rows n gs) = length gs.
Proof. revert n. induction gs as [|g gs IH]; intros n; simpl; [done | by rewrite IH]. Qed.

Lemma length_adlist_rows n als : length (adlist_rows n als) = length als.
Proof. revert n. induction als as [|a als IH]; intros n; simpl; [done | by rewrite IH]. Qed.

Lemma group_rows_lookup n gs (i : nat) :
  group_rows n gs !! i = group_row (n + Z.of_nat i) <$> gs !! i.
Proof.
  revert n i. induction gs as [|g gs IH]; intros n [|i]; simpl; try done.
  - by rewrite Z.add_0_r.
  - rewrite IH. do 2 f_equal. lia.
Qed.

Lemma adlist_rows_lookup n als (i : nat) :
  adlist_rows n als !! i = adlist_row (n + Z.of_nat i) <$> als !! i.
Proof.
  revert n i. induction als as [|a als IH]; intros n [|i]; simpl; try done.
  - by rewrite Z.add_0_r.
  - rewrite IH. do 2 f_equal. lia.
Qed.

(** * The properties of the specification *)

Lemma finished_one_row_per_entry p sch gs als w :
  one_row_per_entry p gs als (finished p sch gs als w).
Proof.
  eexists. split; [apply lookup_insert_eq|]. simpl.
  split; [apply length_group_rows|]. split; [apply length_adlist_rows|].
  split; intros i; [apply group_rows_lookup | apply adlist_rows_lookup].
Qed.

(** C1. For every valid document with at least one adlist the import
    succeeds, in both programs, and the store then holds exactly one
    group row per entry of [groups] and one adlist row per entry of
    [adlists], in document order.  The schema is assumed to admit every
    insert and its file not to lie where the store or its archive go. *)
Theorem valid_document_imports (yaml_path db_dir : string) (w : World)
    (d : ConfigDocument) (gs : list GroupSpec) (als : list AdlistSpec) (sch : Schema) :
  let p := path_join db_dir "gravity.db" in
  fs w !! yaml_path = Some (FYaml d) ->
  valid_document d = true ->
  doc_groups d = Some gs -> doc_adlists d = Some als -> als <> [] ->
  fs w !! schema_file w = Some (FSchema sch) ->
  (forall t s, sch t s = true) ->
  schema_file w <> p -> schema_file w <> archive_path p (today w) ->
  (exists o' w', GravityYAML.run (GravityYAML.__init__ yaml_path db_dir, w) = (Ok tt, (o', w'))
                 /\ one_row_per_entry p gs als w')
  /\ (exists o' w', Application.run (Application.__init__ yaml_path db_dir, w) = (Ok tt, (o', w'))
                    /\ one_row_per_entry p gs als w').
Proof.
  intros p Hy Hv Hgs Ha Hne Hs Hall Hp Harch.
  pose proof (initialised_schema p w sch Hs Hp Harch) as Hi.
  split.
  - eexists _, _. split.
    + by apply (GY_run_succeeds _ w d gs als sch).
    + apply finished_one_row_per_entry.
  - destruct (App_run_succeeds (Application.__init__ yaml_path db_dir) w d gs als sch)
      as [o' Hr]; try done.
    eexists _, _. split; [exact Hr|]. apply finished_one_row_per_entry.
Qed.

Lemma valid_document_imports_witness :
  (exists o' w', GravityYAML.run (GravityYAML.__init__ "gravity.yaml" "/etc/pihole/",
                                  sample_world sample_document) = (Ok tt, (o', w'))
                 /\ one_row_per_entry "/etc/pihole/gravity.db" 
                      (default [] (doc_groups sample_document))
                      (default [] (doc_adlists sample_document)) w')
  /\ (exists o' w', Application.run (Application.__init__ "gravity.yaml" "/etc/pihole/",
                                     sample_world sample_document) = (Ok tt, (o', w'))
                    /\ one_row_per_entry "/etc/pihole/gravity.db"
                         (default [] (doc_groups sample_document))
                         (default [] (doc_adlists sample_document)) w').
Proof.
  apply (valid_document_imports "gravity.yaml" "/etc/pihole/" (sample_world sample_document)
           sample_document _ _ unconstrained);
    [reflexivity | reflexivity | reflexivity | reflexivity | discriminate
    | reflexivity | reflexivity | discriminate | discriminate].
Defined.

(** C4. When the document has an empty [adlists] sequence the run
    fails in [load_yaml], before [init_database]: [GravityYAML.run]
    raises [ConfigFileError] and leaves the environment as it found it;
    [Application.run] prints its error and exits with status 1, the
    files and the connection as it found them. *)
Theorem empty_adlists_fail_before_store (yaml_path db_dir : string) (w : World)
    (d : ConfigDocument) :
  fs w !! yaml_path = Some (FYaml d) ->
  doc_adlists d = Some [] ->
  (exists o', GravityYAML.run (GravityYAML.__init__ yaml_path db_dir, w)
              = (Raise (ConfigFileError "No ad lists specified"), (o', w)))
  /\ (exists o' w', Application.run (Application.__init__ yaml_path db_dir, w)
                    = (Raise (SystemExit 1), (o', w'))
                    /\ fs w' = fs w /\ connection w' = connection w
                    /\ stdout w' = stdout w ++ ["ERROR - No ad lists specified"]).
Proof.
  intros Hy Ha. split.
  - eexists. unfold GravityYAML.run, bind.
    by rewrite (GY_load_yaml_empty (GravityYAML.__init__ yaml_path db_dir) w d Hy Ha).
  - eexists _, _. unfold Application.run, bind.
    rewrite (App_load_yaml_empty (Application.__init__ yaml_path db_dir) w d Hy Ha). done.
Qed.

Lemma empty_adlists_fail_before_store_witness :
  (exists o', GravityYAML.run (GravityYAML.__init__ "gravity.yaml" "/etc/pihole/",
                               sample_world empty_adlists_document)
              = (Raise (ConfigFileError "No ad lists specified"),
                 (o', sample_world empty_adlists_document)))
  /\ (exists o' w', Application.run (Application.__init__ "gravity.yaml" "/etc/pihole/",
                                     sample_world empty_adlists_document)
                    = (Raise (SystemExit 1), (o', w'))
                    /\ fs w' = fs (sample_world empty_adlists_document)
                    /\ connection w' = connection (sample_world empty_adlists_document)
                    /\ stdout w' = stdout (sample_world empty_adlists_document)
                                   ++ ["ERROR - No ad lists specified"]).
Proof.
  apply (empty_adlists_fail_before_store "gravity.yaml" "/etc/pihole/"
           (sample_world empty_adlists_document) empty_adlists_document);
    reflexivity.
Defined.

Lemma import_document_no_groups insert d w :
  doc_groups d = None ->
  import_document insert (Some d) w = (Raise (KeyError "groups"), w).
Proof. intros H. unfold import_document, item, bind. by rewrite H. Qed.

(** C10. A loaded document without a [groups] key makes the import
    raise [KeyError('groups')] in both programs, although the same
    document with an empty [groups] sequence imports. *)
Theorem missing_groups_key_raises (yaml_path db_dir : string) (w : World)
    (d : ConfigDocument) (als : list AdlistSpec) (sch : Schema) :
  let p := path_join db_dir "gravity.db" in
  fs w !! yaml_path = Some (FYaml d) ->
  doc_adlists d = Some als -> als <> [] ->
  initialised p w !! schema_file w = Some (FSchema sch) ->
  (doc_groups d = None ->
     (GravityYAML.run (GravityYAML.__init__ yaml_path db_dir, w)).1 = Raise (KeyError "groups")
     /\ (Application.run (Application.__init__ yaml_path db_dir, w)).1
        = Raise (KeyError "groups"))
  /\ (doc_groups d = Some [] -> forallb valid_adlist als = true ->
      (forall t s, sch t s = true) ->
      (GravityYAML.run (GravityYAML.__init__ yaml_path db_dir, w)).1 = Ok tt
      /\ (Application.run (Application.__init__ yaml_path db_dir, w)).1 = Ok tt).
Proof.
  intros p Hy Ha Hne Hs. split.
  - intros Hg. split.
    + rewrite (GY_run_spec (GravityYAML.__init__ yaml_path db_dir) w d als sch Hy Ha Hne Hs).
      by rewrite import_document_no_groups.
    + destruct (App_run_spec (Application.__init__ yaml_path db_dir) w d als sch Hy Ha Hne Hs)
        as [o' ->].
      by rewrite import_document_no_groups.
  - intros Hg Hv Hall.
    assert (valid_document d = true) as Hvd.
    { unfold valid_document. by rewrite Hg, Ha. }
    split.
    + by rewrite (GY_run_succeeds (GravityYAML.__init__ yaml_path db_dir) w d [] als sch).
    + destruct (App_run_succeeds (Application.__init__ yaml_path db_dir) w d [] als sch)
        as [o' ->]; done.
Qed.

Lemma missing_groups_key_raises_witness :
  (GravityYAML.run (GravityYAML.__init__ "gravity.yaml" "/etc/pihole/",
                    sample_world no_groups_document)).1 = Raise (KeyError "groups")
  /\ (Application.run (Application.__init__ "gravity.yaml" "/etc/pihole/",
                       sample_world no_groups_document)).1 = Raise (KeyError "groups").
Proof.
  refine (proj1 (missing_groups_key_raises "gravity.yaml" "/etc/pihole/"
                   (sample_world no_groups_document) no_groups_document
                   (default [] (doc_adlists no_groups_document)) unconstrained _ _ _ _) _);
    [reflexivity | reflexivity | discriminate | reflexivity | reflexivity].
Defined.

(** C5. When [Application.run] fails inside [_populate_database], that
    is after [_load_yaml] and [_init_database] returned, the exception
    leaves [run] with the connection closed and no row of this run in
    the store: the file holds the schema and empty tables. *)
Theorem failed_import_rolls_back (o : Application.t) (w : World)
    (s1 s2 : Application.t * World) (e : Exn) :
  (Application._load_yaml ;;; Application._init_database) (o, w) = (Ok tt, s1) ->
  Application._populate_database s1 = (Raise e, s2) ->
  exists o' w' db,
    Application.run (o, w) = (Raise e, (o', w'))
    /\ connection w' = None
    /\ fs w' !! Application._db_path o = Some (FDb db)
    /\ tables db = empty_tables.
Proof.
  unfold bind. intros H1 H2.
  destruct (Application._load_yaml (o, w)) as [[[]|e0] [o1 w1]] eqn:Hl; [|done].
  pose proof Hl as Hl'.
  apply App_load_yaml_inv in Hl' as (d & als & Hy & Ha & Hne & [= -> ->]).
  pose proof H1 as H1'. apply App_init_database_inv in H1' as [sch Hs].
  rewrite (App_init_database_spec (Application.set_data (Some d) o) w sch Hs) in H1.
  injection H1 as <-. simpl in Hs.
  erewrite App_populate_database_spec in H2;
    [|by apply (truthy_adlists d als)|reflexivity|reflexivity].
  simpl in H2.
  destruct (App_run_spec o w d als sch Hy Ha Hne Hs) as [o' Hr].
  pose proof (import_document_frame sqlite3.execute execute_inserts (Some d)
                (fresh (Application._db_path o) sch w)) as (Hfs & _).
  destruct (import_document sqlite3.execute (Some d) _) as [[[]|e'] w'] eqn:Hi; [done|].
  injection H2 as -> _.
  exists o', (set_connection None w'), {| schema := Some sch; tables := empty_tables |}.
  split; [exact Hr|]. split; [reflexivity|]. split; [|reflexivity].
  simpl in *. rewrite Hfs. apply lookup_insert_eq.
Qed.

Lemma failed_import_rolls_back_witness :
  exists o' w' db,
    Application.run (Application.__init__ "gravity.yaml" "/etc/pihole/",
                     sample_world no_url_document) = (Raise (KeyError "url"), (o', w'))
    /\ connection w' = None
    /\ fs w' !! "/etc/pihole/gravity.db" = Some (FDb db)
    /\ tables db = empty_tables.
Proof.
  eapply (failed_import_rolls_back (Application.__init__ "gravity.yaml" "/etc/pihole/")
            (sample_world no_url_document)); reflexivity.
Defined.

Lemma GY_populate_database_raises o w e s :
  truthy (GravityYAML._data o) = true ->
  fs w !! GravityYAML._db_path o = Some FEmpty ->
  GravityYAML.populate_database (o, w) = (Raise e, s) ->
  stored s.2 (GravityYAML._db_path o) = empty_tables.
Proof.
  intros Ht Hp.
  destruct (fs w !! schema_file w) as [[d0|sch| | |]|] eqn:Hs.
  2: { rewrite (GY_populate_database_spec o w sch Ht Hs Hp).
       match goal with |- context [import_document ?i ?dd ?ww] =>
         pose proof (import_document_frame i Database_insert_inserts dd ww) as (Hfs & _);
         destruct (import_document i dd ww) as [[[]|e'] w'] end; [done|].
       intros H2. apply (f_equal snd) in H2. simpl in H2. subst s.
       unfold stored. simpl in *. rewrite Hfs. by rewrite lookup_insert_eq. }
  all: unfold schema_file in Hs;
    unfold GravityYAML.populate_database, isfile, with_Database, Database.__enter__,
      Database.loadFile, Database.store_error, try_finally, sqlite3.connect, read_file,
      sqlite3.executescript, Database.__exit__, sqlite3.close, FileNotFoundError_new;
    unfold_monad;
    repeat (cbn -[truthy]; rewrite ?Hs, ?Hp, ?Ht);
    intros H2; apply (f_equal snd) in H2; simpl in H2; subst s;
    unfold stored; cbn; by rewrite Hp.
Qed.

(** The same for [GravityYAML.run], with the release of the store as
    the [Database] class is modelled: whenever [populate_database]
    raises, no row is in the store file. *)
Lemma pkg_failed_import_rolls_back (o : GravityYAML.t) (w : World)
    (s1 s2 : GravityYAML.t * World) (e : Exn) :
  (GravityYAML.load_yaml ;;; GravityYAML.init_database) (o, w) = (Ok tt, s1) ->
  GravityYAML.populate_database s1 = (Raise e, s2) ->
  GravityYAML.run (o, w) = (Raise e, s2)
  /\ stored s2.2 (GravityYAML._db_path o) = empty_tables.
Proof.
  unfold GravityYAML.run, bind. intros H1 H2.
  destruct (GravityYAML.load_yaml (o, w)) as [[[]|e0] [o1 w1]] eqn:Hl; [|done].
  apply GY_load_yaml_inv in Hl as (d & als & Hy & Ha & Hne & [= -> ->]).
  rewrite GY_init_database_spec in H1 |- *. injection H1 as <-.
  split; [exact H2|].
  apply GY_populate_database_raises in H2;
    [exact H2 | by apply (truthy_adlists d als) | apply lookup_insert_eq].
Qed.

(** C8. With a configuration path that names no file, [load_yaml]
    does not raise the file-not-found error it builds: the constructor
    call raises [TypeError], and [cli] ends with status 1, in debug
    mode or not, although [EXIT_CODES] reserves 4 for file errors. *)
Theorem missing_config_exit_status (args : Args) (w : World) :
  fs w !! config args = None ->
  (GravityYAML.load_yaml (GravityYAML.__init__ (config args) (database args), w)).1
  = Raise (TypeError "FileNotFoundError() takes no keyword arguments")
  /\ (cli args w).1 = 1
  /\ EXIT_CODES "FILE_ERROR" = Some 4.
Proof.
  intros H.
  pose proof (GY_load_yaml_missing (GravityYAML.__init__ (config args) (database args)) w H)
    as Hl.
  split; [by rewrite Hl|]. split; [|reflexivity].
  unfold cli, guarded, GravityYAML.run, bind. destruct (debug args); by rewrite Hl.
Qed.

Lemma missing_config_exit_status_witness :
  fs (sample_world sample_document) !! config absent_config = None
  /\ (cli absent_config (sample_world sample_document)).1 = 1.
Proof.
  split; [reflexivity|].
  apply (missing_config_exit_status absent_config (sample_world sample_document)).
  reflexivity.
Defined.

(** A document with an empty [adlists] sequence ends [cli] with
    status 1 as well, although [EXIT_CODES] reserves 3 for errors of
    the configuration file. *)
Lemma empty_adlists_exit_status (args : Args) (w : World) (d : ConfigDocument) :
  fs w !! config args = Some (FYaml d) ->
  doc_adlists d = Some [] ->
  (cli args w).1 = 1 /\ EXIT_CODES "CONFIG_FILE_ERROR" = Some 3.
Proof.
  intros Hy Ha. split; [|reflexivity].
  pose proof (GY_load_yaml_empty (GravityYAML.__init__ (config args) (database args)) w d
                Hy Ha) as Hl.
  unfold cli, guarded, GravityYAML.run, bind. destruct (debug args); by rewrite Hl.
Qed.

(** A run that succeeds ends [cli] with status 0. *)
Lemma success_exit_status (args : Args) (w : World) s :
  GravityYAML.run (GravityYAML.__init__ (config args) (database args), w) = (Ok tt, s) ->
  (cli args w).1 = 0.
Proof.
  intros H. unfold cli, guarded. destruct (debug args); rewrite H; by destruct s.
Qed.

(** A store error ends [cli] with status 2 unless in debug mode. *)
Lemma store_error_exit_status (args : Args) (w : World) msg s :
  debug args = false ->
  GravityYAML.run (GravityYAML.__init__ (config args) (database args), w)
  = (Raise (DatabaseError msg), s) ->
  (cli args w).1 = 2.
Proof.
  intros Hd H. unfold cli, guarded. rewrite Hd, H. by destruct s.
Qed.

(** ** Join rows and the Default group *)

Lemma no_default_link_with_tables p base f w :
  (forall t, extends_without_default base t -> extends_without_default base (f t)) ->
  no_default_link p base w -> no_default_link p base (with_tables f w).
Proof.
  intros Hf H. unfold with_tables.
  destruct (connection w) as [c|] eqn:Hw; [|exact H].
  destruct H as [Hs Hc]. split; [exact Hs|]. intros c' [= <-]. simpl.
  destruct (Hc c Hw) as [Hp He]. split; [exact Hp | by apply Hf].
Qed.

Lemma extends_apply_stmt base t s :
  match s with InsertMembership _ gid => gid <> 0 | _ => True end ->
  extends_without_default base t ->
  extends_without_default base (apply_stmt t s).1.
Proof.
  intros Hs (added & Ha & Hf). destruct s as [en name descr|url en c|lid gid]; simpl.
  - by exists added.
  - by exists added.
  - exists (added ++ [ {| m_adlist_id := lid; m_group_id := gid |} ]).
    rewrite Ha, app_assoc. split; [done|].
    apply Forall_app. split; [done|]. by constructor.
Qed.

Section NoDefaultLink.

Variable insert : Stmt -> M World Z.
Hypothesis insert_spec : inserts insert.
Variables (p : string) (base : list MembershipRow).

Lemma insert_no_default_link s :
  match s with InsertMembership _ gid => gid <> 0 | _ => True end ->
  preserves (no_default_link p base) (insert s).
Proof.
  intros Hs w H. destruct (insert_step insert insert_spec s w)
    as [[e ->]|(id & w1 & -> & Hx)]; [exact H|].
  apply exec_ok_inv in Hx as (_ & _ & ->). simpl.
  apply no_default_link_with_tables; [|exact H].
  intros t. by apply extends_apply_stmt.
Qed.

Lemma link_group_no_default_link idx list_id url r :
  preserves (no_default_link p base) (link_group insert idx list_id url r).
Proof.
  unfold link_group. destruct (idx !! r) as [gid|].
  - destruct (bool_decide (gid = 0)) eqn:Hg; [apply preserves_ret|].
    apply bool_decide_eq_false in Hg.
    apply preserves_bind; [by apply insert_no_default_link|].
    intros _. apply preserves_ret.
  - intros w H. exact H.
Qed.

Lemma import_document_no_default_link data :
  preserves (no_default_link p base) (import_document insert data).
Proof.
  unfold import_document.
  apply preserves_bind.
  { destruct data; [apply preserves_subscript | apply preserves_raise]. }
  intros gs. apply preserves_bind.
  { generalize ({[ "Default" := 0 ]} : gmap string Z).
    induction gs as [|g gs IH]; intros idx; simpl; [apply preserves_ret|].
    apply preserves_bind; [apply preserves_subscript|]. intros name.
    apply preserves_bind; [by apply insert_no_default_link|]. intros id. apply IH. }
  intros idx. apply preserves_bind.
  { destruct data; [apply preserves_subscript | apply preserves_raise]. }
  intros als. apply preserves_for_each. intros a. unfold import_adlist.
  apply preserves_bind; [apply preserves_subscript|]. intros url.
  apply preserves_bind; [by apply insert_no_default_link|]. intros list_id.
  apply preserves_bind; [apply preserves_subscript|]. intros refs.
  apply preserves_for_each. intros r. apply link_group_no_default_link.
Qed.

End NoDefaultLink.

Lemma store_error_preserves {A} (I : World -> Prop) (c : M World A) :
  preserves I c -> preserves I (Database.store_error c).
Proof.
  intros Hc w H. specialize (Hc w H). unfold Database.store_error.
  destruct (c w) as [[a|e] w']; [exact Hc|]. by destruct e.
Qed.

Lemma loadFile_no_default_link p base path :
  preserves (no_default_link p base) (Database.loadFile path).
Proof.
  unfold Database.loadFile. apply preserves_bind.
  { intros w H. unfold read_file. by destruct (fs w !! path). }
  intros sql. apply store_error_preserves. intros w H.
  unfold sqlite3.executescript.
  destruct (connection w) as [c|] eqn:Hw; [|by destruct sql].
  destruct sql; try exact H.
  destruct (schema (conn_db c)); [exact H|].
  destruct H as [Hs Hc]. destruct (Hc c Hw) as [Hp He]. simpl. split.
  - unfold stored. simpl. by rewrite Hp, lookup_insert_eq.
  - intros c' [= <-]. by split.
Qed.

Lemma sqlite3_commit_no_default_link p base :
  preserves (no_default_link p base) sqlite3.commit.
Proof.
  intros w H. unfold sqlite3.commit.
  destruct (connection w) as [c|] eqn:Hw; [|exact H].
  destruct H as [Hs Hc]. destruct (Hc c Hw) as [Hp He]. simpl. split.
  - unfold stored. simpl. by rewrite Hp, lookup_insert_eq.
  - intros c'. simpl. rewrite Hw. intros [= <-]. by split.
Qed.

Lemma commit_no_default_link p base :
  preserves (no_default_link p base) Database.commit.
Proof. apply store_error_preserves, sqlite3_commit_no_default_link. Qed.

Lemma exit_no_default_link p base :
  preserves (no_default_link p base) Database.__exit__.
Proof.
  apply store_error_preserves. intros w H. unfold sqlite3.close.
  destruct (connection w) as [c|] eqn:Hw; [|exact H].
  destruct H as [Hs Hc]. simpl. split; [exact Hs | done].
Qed.

Lemma extends_refl t : extends_without_default (adlist_by_group t) t.
Proof. exists []. by rewrite app_nil_r. Qed.

Lemma with_Database_no_default_link p path data w :
  extends_without_default (adlist_by_group (stored w p))
    (stored (with_Database p
               (Database.loadFile path ;;;
                import_document Database.insert data ;;;
                Database.commit) w).2 p).
Proof.
  set (base := adlist_by_group (stored w p)).
  assert (forall w1, no_default_link p base w1 ->
            no_default_link p base
              (try_finally (Database.loadFile path ;;;
                            import_document Database.insert data ;;;
                            Database.commit) Database.__exit__ w1).2) as Hbody.
  { apply preserves_try_finally; [|apply exit_no_default_link].
    apply preserves_bind; [apply loadFile_no_default_link|]. intros _.
    apply preserves_bind;
      [apply import_document_no_default_link, Database_insert_inserts|].
    intros _. apply commit_no_default_link. }
  unfold with_Database, bind, Database.__enter__, Database.store_error, sqlite3.connect.
  unfold stored in base.
  destruct (fs w !! p) as [[d|sch|db| |]|] eqn:Hp; simpl;
    try (unfold stored; rewrite Hp; apply extends_refl).
  - apply Hbody. split.
    + unfold stored. simpl. rewrite Hp. apply extends_refl.
    + intros c [= <-]. split; [done | apply (extends_refl (tables db))].
  - apply Hbody. split.
    + unfold stored. simpl. rewrite Hp. apply (extends_refl empty_tables).
    + intros c [= <-]. split; [done | apply (extends_refl empty_tables)].
  - apply Hbody. split.
    + unfold stored. simpl. rewrite lookup_insert_eq. apply (extends_refl empty_tables).
    + intros c [= <-]. split; [done | apply (extends_refl empty_tables)].
Qed.

(** C2. Whatever the document and whatever the store at the target
    path, every [adlist_by_group] row that [populate_database] adds to
    the store has a group id other than 0, the id of the Default
    group; this holds on every exit, normal or not. *)
Theorem default_membership_never_written (o : GravityYAML.t) (w : World) :
  let p := GravityYAML._db_path o in
  let w' := (GravityYAML.populate_database (o, w)).2.2 in
  exists added,
    adlist_by_group (stored w' p) = adlist_by_group (stored w p) ++ added
    /\ Forall (fun m => m_group_id m <> 0) added.
Proof.
  intros p w'. subst w'. unfold GravityYAML.populate_database, isfile, FileNotFoundError_new.
  unfold_monad. cbn.
  destruct (truthy (GravityYAML._data o)); cbn; [|apply extends_refl].
  destruct (bool_decide (is_Some (fs w !! path_join (script_path w) "database.sql")));
    cbn; [|apply extends_refl].
  pose proof (with_Database_no_default_link p (path_join (script_path w) "database.sql")
                (GravityYAML._data o) w) as H.
  destruct (with_Database _ _ w) as [r w1]. exact H.
Qed.

(** The same guard in [Application._populate_database]: on a
    connection open on the store at [p], it adds no join row to the
    Default group either, to the working copy or to the file. *)
Lemma App_default_membership_never_written (o : Application.t) (w : World)
    (p : string) (base : list MembershipRow) :
  no_default_link p base w ->
  no_default_link p base (Application._populate_database (o, w)).2.2.
Proof.
  intros H. unfold Application._populate_database. unfold_monad. cbn.
  destruct (truthy (Application._data o)); cbn; [|exact H].
  destruct (bool_decide (is_Some (Application._connection o))); cbn; [|exact H].
  pose proof (import_document_no_default_link sqlite3.execute execute_inserts p base
                (Application._data o) w H) as Hi.
  destruct (import_document sqlite3.execute (Application._data o) w) as [[[]|e] w1];
    cbn in *; [|exact Hi].
  pose proof (sqlite3_commit_no_default_link p base w1 Hi) as Hc.
  by destruct (sqlite3.commit w1) as [r w2].
Qed.

(** ** References that do not resolve *)

Lemma one_more_line_connection l w1 w2 :
  one_more_line l w1 w2 -> connection w1 = connection w2.
Proof. by intros (_ & _ & _ & H & _). Qed.

Lemma one_more_line_set_connection l w1 w2 k :
  one_more_line l w1 w2 -> one_more_line l (set_connection k w1) (set_connection k w2).
Proof. intros (H1 & H2 & H3 & H4 & H5). by repeat split. Qed.

Lemma one_more_line_emit l w1 w2 ls :
  one_more_line l w1 w2 -> one_more_line l (emit ls w1) (emit ls w2).
Proof.
  intros (H1 & H2 & H3 & H4 & o1 & o2 & H5 & H6). repeat split; try done.
  exists o1, (o2 ++ ls). simpl. rewrite H5, H6. split; [by rewrite app_assoc|].
  by rewrite <- app_assoc.
Qed.

Lemma one_more_line_print l w : one_more_line l (emit [l] w) w.
Proof.
  repeat split. exists (stdout w), []. simpl. by rewrite app_nil_r.
Qed.

Lemma differ_bind_common {A B} l (c : M World A) (k1 k2 : A -> M World B) w :
  (forall a w', c w = (Ok a, w') -> differ_by_line l (k1 a w') (k2 a w')) ->
  differ_by_line l (bind c k1 w) (bind c k2 w).
Proof.
  intros H. unfold bind. destruct (c w) as [[a|e] w'] eqn:Hc; [by apply H|].
  split; [done|]. left. eauto.
Qed.

Lemma differ_bind_respects {A B} l (c1 c2 : M World A) (k : A -> M World B) w :
  differ_by_line l (c1 w) (c2 w) ->
  (forall a, respects (one_more_line l) (k a)) ->
  differ_by_line l (bind c1 k w) (bind c2 k w).
Proof.
  intros [Hr H] Hk. unfold bind.
  destruct (c1 w) as [r1 w1], (c2 w) as [r2 w2]. simpl in *. subst r2.
  destruct H as [[-> [e ->]]|HR].
  - split; [done|]. left. eauto.
  - destruct r1 as [a|e].
    + destruct (Hk a w1 w2 HR) as [Hres HR']. split; [done | by right].
    + split; [done | by right].
Qed.

Lemma bind_ret_l {S A B} (a : A) (k : A -> M S B) (s : S) : bind (ret a) k s = k a s.
Proof. reflexivity. Qed.

Lemma insert_groups_lookup_other insert g gs : forall idx w idx' w',
  insert_groups insert gs idx w = (Ok idx', w') ->
  Forall (fun x => gs_name x <> Some g) gs ->
  idx' !! g = idx !! g.
Proof.
  induction gs as [|x gs IH]; intros idx w idx' w'; simpl.
  - by intros [= <- <-].
  - unfold bind. intros H Hf. apply Forall_cons in Hf as [Hx Hf].
    destruct (gs_name x) as [name|]; simpl in H; [|done].
    destruct (insert _ w) as [[id|e] w1]; [|done].
    rewrite (IH _ _ _ _ H Hf). apply lookup_insert_ne. congruence.
Qed.

Section UnresolvedReference.

Variable insert : Stmt -> M World Z.
Hypothesis insert_conn : forall s, conn_only (insert s).

Variables (g url : string).

Let R := one_more_line (warning g url).

Lemma link_groups_respects_line idx list_id u refs :
  respects R (for_each refs (link_group insert idx list_id u)).
Proof.
  apply respects_for_each. intros r.
  apply (link_group_respects insert insert_conn R).
  - apply one_more_line_connection.
  - apply one_more_line_set_connection.
  - intros w1 w2 ls. apply one_more_line_emit.
Qed.

Lemma import_adlists_respects_line idx als :
  respects R (for_each als (import_adlist insert idx)).
Proof.
  apply respects_for_each. intros a.
  apply (import_adlist_respects insert insert_conn R).
  - apply one_more_line_connection.
  - apply one_more_line_set_connection.
  - intros w1 w2 ls. apply one_more_line_emit.
Qed.

Lemma unresolved_reference_in_adlist idx en de r1 r2 w :
  idx !! g = None ->
  differ_by_line (warning g url)
    (import_adlist insert idx
       {| as_url := Some url; as_enabled := en; as_description := de;
          as_groups := Some (r1 ++ g :: r2) |} w)
    (import_adlist insert idx
       {| as_url := Some url; as_enabled := en; as_description := de;
          as_groups := Some (r1 ++ r2) |} w).
Proof.
  intros Hg. unfold import_adlist. cbn [as_url as_enabled as_description as_groups subscript].
  rewrite !bind_ret_l.
  apply differ_bind_common. intros list_id w1 _.
  rewrite !bind_ret_l.
  rewrite (for_each_app r1 (g :: r2)), (for_each_app r1 r2).
  apply differ_bind_common. intros [] w2 _.
  simpl. unfold bind at 1. unfold link_group at 1. rewrite Hg. rewrite print_eq.
  destruct (link_groups_respects_line idx list_id url r2 (emit [warning g url] w2) w2
              (one_more_line_print _ _)) as [Hres HR].
  split; [exact Hres | by right].
Qed.

Lemma unresolved_reference_in_adlists idx en de r1 r2 pre post w :
  idx !! g = None ->
  differ_by_line (warning g url)
    (for_each (pre ++ {| as_url := Some url; as_enabled := en; as_description := de;
                         as_groups := Some (r1 ++ g :: r2) |} :: post)
       (import_adlist insert idx) w)
    (for_each (pre ++ {| as_url := Some url; as_enabled := en; as_description := de;
                         as_groups := Some (r1 ++ r2) |} :: post)
       (import_adlist insert idx) w).
Proof.
  intros Hg. rewrite !for_each_app.
  apply differ_bind_common. intros [] w1 _.
  simpl. apply differ_bind_respects.
  - by apply unresolved_reference_in_adlist.
  - intros _. apply import_adlists_respects_line.
Qed.

Lemma unresolved_reference_in_document other gs en de r1 r2 pre post w :
  g <> "Default" ->
  Forall (fun x => gs_name x <> Some g) (default [] gs) ->
  differ_by_line (warning g url)
    (import_document insert
       (Some {| doc_other := other; doc_groups := gs;
                doc_adlists :=
                  Some (pre ++ {| as_url := Some url; as_enabled := en;
                                  as_description := de;
                                  as_groups := Some (r1 ++ g :: r2) |} :: post) |}) w)
    (import_document insert
       (Some {| doc_other := other; doc_groups := gs;
                doc_adlists :=
                  Some (pre ++ {| as_url := Some url; as_enabled := en;
                                  as_description := de;
                                  as_groups := Some (r1 ++ r2) |} :: post) |}) w).
Proof.
  intros Hd Hf. unfold import_document, item. cbn [doc_groups doc_adlists].
  apply differ_bind_common. intros groups w1 Hgs.
  apply differ_bind_common. intros idx w2 Hidx.
  cbn [subscript]. rewrite !bind_ret_l.
  apply unresolved_reference_in_adlists.
  rewrite (insert_groups_lookup_other insert g groups _ _ _ _ Hidx).
  - by apply lookup_singleton_ne.
  - destruct gs as [l|]; simpl in *; [|done]. by injection Hgs as <-.
Qed.

End UnresolvedReference.

Lemma differ_by_line_only_warns {A} g url (x y : Result A * World) :
  differ_by_line (warning g url) x y -> only_warns g url x y.
Proof.
  intros [Hr [[Hw [e He]]|(Hf & _ & _ & Hc & Ho)]]; repeat split; try done.
  - by rewrite Hw.
  - by rewrite Hw.
  - intros a Ha. congruence.
Qed.

(** C3. A reference to a name that is neither "Default" nor the name
    of a declared group, hence absent from [group_index] when it is
    looked up, makes the loops of either program print exactly one
    warning with the name and the adlist's url, and changes nothing
    else: compared with the import of the document without that
    reference, the result, the files and every row of the working copy
    are the same. *)
Theorem unresolved_reference_warns (other : list string) (gs : option (list GroupSpec))
    (pre post : list AdlistSpec) (url : string) (en : option bool) (de : option string)
    (r1 r2 : list string) (g : string) (w : World) :
  g <> "Default" ->
  Forall (fun x => gs_name x <> Some g) (default [] gs) ->
  let d := with_reference other gs pre post url en de r1 (Some g) r2 in
  let d' := with_reference other gs pre post url en de r1 None r2 in
  warning g url = "WARNING - Group " +:+ g +:+ " referenced by adlist " +:+ url
                  +:+ " does not exist"
  /\ only_warns g url (import_document Database.insert (Some d) w)
       (import_document Database.insert (Some d') w)
  /\ only_warns g url (import_document sqlite3.execute (Some d) w)
       (import_document sqlite3.execute (Some d') w).
Proof.
  intros Hd Hf d d'. split; [reflexivity|].
  split; apply differ_by_line_only_warns.
  - by apply (unresolved_reference_in_document Database.insert Database_insert_conn_only).
  - by apply (unresolved_reference_in_document sqlite3.execute execute_conn_only).
Qed.

Lemma unresolved_reference_warns_witness :
  only_warns "Ghost" "http://a"
    (import_document Database.insert
       (Some (with_reference [] (doc_groups sample_document) [] [] "http://a" None None
                ["Family"] (Some "Ghost") []))
       (fresh "/etc/pihole/gravity.db" unconstrained (sample_world sample_document)))
    (import_document Database.insert
       (Some (with_reference [] (doc_groups sample_document) [] [] "http://a" None None
                ["Family"] None []))
       (fresh "/etc/pihole/gravity.db" unconstrained (sample_world sample_document))).
Proof.
  apply (unresolved_reference_warns [] (doc_groups sample_document) [] [] "http://a" None None
           ["Family"] [] "Ghost"
           (fresh "/etc/pihole/gravity.db" unconstrained (sample_world sample_document)));
    [discriminate | repeat constructor; discriminate].
Defined.

(** ** Running twice *)

Lemma finished_rerun insert p sch d gs als w1 w2 w1' :
  inserts insert -> (forall s, conn_only (insert s)) ->
  doc_groups d = Some gs -> doc_adlists d = Some als ->
  import_document insert (Some d) (fresh p sch w1) = (Ok tt, w1') ->
  fs w2 !! p = fs (finished p sch gs als w1) !! p ->
  exists w2' db1,
    import_document insert (Some d) (fresh p sch w2) = (Ok tt, w2')
    /\ fs (finished p sch gs als w1) !! p = Some (FDb db1)
    /\ archived_and_rebuilt p (today w2) db1 (Ok tt, committed w2').
Proof.
  intros Hins Hconn Hgs Hals H1 Hp.
  destruct (import_document_deterministic insert (Some d) (fresh p sch w1) (fresh p sch w2)
              Hconn eq_refl) as [Hr _].
  rewrite H1 in Hr. simpl in Hr.
  destruct (import_document insert (Some d) (fresh p sch w2)) as [r2 w2'] eqn:H2.
  simpl in Hr. subst r2.
  apply (import_fresh_ok _ _ _ _ _ _ Hins) in H2 as (gs' & als' & Hgs' & Hals' & _ & Hc).
  assert (gs' = gs) as -> by congruence. assert (als' = als) as -> by congruence.
  simpl in Hp. rewrite lookup_insert_eq in Hp.
  exists w2'. eexists. rewrite Hc.
  split; [reflexivity|]. split; [apply lookup_insert_eq|].
  split; [reflexivity|]. split.
  - simpl. unfold initialised.
    rewrite !lookup_insert_ne by (apply not_eq_sym, archive_path_ne).
    by apply rotated_archive.
  - eexists. split; [apply lookup_insert_eq|]. done.
Qed.

(** C6. When a run succeeded and the importer runs again on the same
    configuration file, with the store the first run produced at the
    target path and the same schema file in place once the store is
    moved, the second run succeeds too: it first moves the store to
    [<path>.old-<YYYY-MM-DD>], whatever was there, and then builds a
    store with the same rows, hence the same row counts in every
    table.  This holds for both programs. *)
Theorem rerun_archives_and_rebuilds (yaml_path db_dir : string) (w1 w2 : World) :
  let p := path_join db_dir "gravity.db" in
  fs w2 !! yaml_path = fs w1 !! yaml_path ->
  initialised p w2 !! schema_file w2 = initialised p w1 !! schema_file w1 ->
  (forall s1,
     GravityYAML.run (GravityYAML.__init__ yaml_path db_dir, w1) = (Ok tt, s1) ->
     fs w2 !! p = fs s1.2 !! p ->
     exists db1 s2,
       fs s1.2 !! p = Some (FDb db1)
       /\ GravityYAML.run (GravityYAML.__init__ yaml_path db_dir, w2) = (Ok tt, s2)
       /\ archived_and_rebuilt p (today w2) db1 (Ok tt, s2.2))
  /\ (forall s1,
        Application.run (Application.__init__ yaml_path db_dir, w1) = (Ok tt, s1) ->
        fs w2 !! p = fs s1.2 !! p ->
        exists db1 s2,
          fs s1.2 !! p = Some (FDb db1)
          /\ Application.run (Application.__init__ yaml_path db_dir, w2) = (Ok tt, s2)
          /\ archived_and_rebuilt p (today w2) db1 (Ok tt, s2.2)).
Proof.
  intros p Hy Hs. split.
  - intros s1 H1 Hp.
    destruct (GY_run_ok _ _ _ H1) as (d & gs & als & sch & Hy1 & Hgs & Hals & Hne & Hv & Hs1 & Hw).
    cbn [GravityYAML.__init__ GravityYAML._yaml_path GravityYAML._db_path] in *. fold p in Hs1, Hw.
    rewrite (GY_run_spec (GravityYAML.__init__ yaml_path db_dir) w1 d als sch Hy1 Hals Hne Hs1)
      in H1.
    cbn [GravityYAML.__init__ GravityYAML._db_path] in H1. fold p in H1.
    destruct (import_document Database.insert (Some d) (fresh p sch w1)) as [[[]|e] w1'] eqn:Hi;
      [|done].
    rewrite Hw in Hp.
    destruct (finished_rerun Database.insert p sch d gs als w1 w2 w1'
                Database_insert_inserts Database_insert_conn_only Hgs Hals Hi Hp)
      as (w2' & db1 & H2 & Hdb1 & Hres).
    rewrite Hw. exists db1. eexists. split; [exact Hdb1|].
    rewrite (GY_run_spec (GravityYAML.__init__ yaml_path db_dir) w2 d als sch); try done.
    + cbn [GravityYAML.__init__ GravityYAML._db_path]. fold p. rewrite H2.
      split; [reflexivity | exact Hres].
    + cbn [GravityYAML.__init__ GravityYAML._yaml_path]. by rewrite Hy.
    + cbn [GravityYAML.__init__ GravityYAML._db_path]. fold p. by rewrite Hs.
  - intros s1 H1 Hp.
    destruct (App_run_ok _ _ _ H1) as (d & gs & als & sch & Hy1 & Hgs & Hals & Hne & Hv & Hs1 & Hw).
    cbn [Application.__init__ Application._yaml_path Application._db_path] in *. fold p in Hs1, Hw.
    destruct (App_run_spec (Application.__init__ yaml_path db_dir) w1 d als sch Hy1 Hals Hne Hs1)
      as [o1 Hr1].
    rewrite Hr1 in H1.
    cbn [Application.__init__ Application._db_path] in H1. fold p in H1.
    destruct (import_document sqlite3.execute (Some d) (fresh p sch w1)) as [[[]|e] w1'] eqn:Hi;
      [|done].
    rewrite Hw in Hp.
    destruct (finished_rerun sqlite3.execute p sch d gs als w1 w2 w1'
                execute_inserts execute_conn_only Hgs Hals Hi Hp)
      as (w2' & db1 & H2 & Hdb1 & Hres).
    rewrite Hw. exists db1.
    destruct (App_run_spec (Application.__init__ yaml_path db_dir) w2 d als sch)
      as [o2 Hr2]; try done.
    + cbn [Application.__init__ Application._yaml_path]. by rewrite Hy.
    + cbn [Application.__init__ Application._db_path]. fold p. by rewrite Hs.
    + cbn [Application.__init__ Application._db_path] in Hr2. fold p in Hr2.
      rewrite H2 in Hr2. eexists. split; [exact Hdb1|]. split; [exact Hr2 | exact Hres].
Qed.

Lemma rerun_archives_and_rebuilds_witness :
  is_Some (fs after_second_run
             !! archive_path "/etc/pihole/gravity.db" (today after_second_run))
  /\ exists db1 s2,
       fs after_second_run !! "/etc/pihole/gravity.db" = Some (FDb db1)
       /\ GravityYAML.run (GravityYAML.__init__ "gravity.yaml" "/etc/pihole/",
                           after_second_run) = (Ok tt, s2)
       /\ archived_and_rebuilt "/etc/pihole/gravity.db" (today after_second_run) db1
            (Ok tt, s2.2).
Proof.
  split; [vm_compute; eexists; reflexivity|].
  refine (proj1 (rerun_archives_and_rebuilds "gravity.yaml" "/etc/pihole/"
                   after_first_run after_second_run _ _)
            (GravityYAML.run (GravityYAML.__init__ "gravity.yaml" "/etc/pihole/",
                              after_first_run)).2 _ _).
  - vm_compute. reflexivity.
  - vm_compute. reflexivity.
  - vm_compute. reflexivity.
  - vm_compute. reflexivity.
Defined.

(** ** The index of groups *)

Lemma index_groups_lookup_other key gs : forall idx n,
  Forall (fun g => gs_name g <> Some key) gs ->
  forallb valid_group gs = true ->
  index_groups idx n gs !! key = idx !! key.
Proof.
  induction gs as [|g gs IH]; intros idx n Hf Hv; simpl; [done|].
  apply Forall_cons in Hf as [Hg Hf]. simpl in Hv. apply andb_prop in Hv as [Hvg Hv].
  apply bool_decide_eq_true in Hvg as [name Hn].
  rewrite IH by done. rewrite Hn. simpl. apply lookup_insert_ne. congruence.
Qed.

Lemma last_named_unique key gs j k :
  last_named key gs j -> last_named key gs k -> j = k.
Proof.
  intros [(g & Hg & Hn) Hj] [(g' & Hg' & Hn') Hk].
  destruct (Nat.lt_trichotomy j k) as [H|[H|H]]; [|done|].
  - by destruct (Hj k g' H Hg').
  - by destruct (Hk j g H Hg).
Qed.

Lemma index_groups_in key gs : forall idx n,
  forallb valid_group gs = true ->
  Exists (fun g => gs_name g = Some key) gs ->
  exists j, last_named key gs j /\ index_groups idx n gs !! key = Some (n + Z.of_nat j).
Proof.
  induction gs as [|g gs IH]; intros idx n Hv He; [by apply Exists_nil in He|].
  simpl in Hv. apply andb_prop in Hv as [Hvg Hv].
  destruct (decide (Exists (fun g => gs_name g = Some key) gs)) as [Hin|Hout].
  - destruct (IH (<[default "" (gs_name g) := n]> idx) (n + 1) Hv Hin) as (j & [Hj Hlast] & Hl).
    exists (S j). split; [split|].
    + exact Hj.
    + intros k g' Hk. destruct k as [|k]; [lia|]. simpl. apply Hlast. lia.
    + simpl. rewrite Hl. f_equal. lia.
  - apply Exists_cons in He as [Hg|]; [|done].
    apply not_Exists_Forall in Hout; [|intros x; apply _].
    exists 0%nat. split; [split|].
    + by exists g.
    + intros k g' Hk Hg'. destruct k as [|k]; [lia|]. simpl in Hg'.
      apply (proj1 (Forall_lookup _ _) Hout k g' Hg').
    + simpl. rewrite index_groups_lookup_other; [|exact Hout|exact Hv].
      rewrite Hg. simpl. rewrite lookup_insert_eq. f_equal. lia.
Qed.

Lemma index_groups_last key gs j idx n :
  forallb valid_group gs = true -> last_named key gs j ->
  index_groups idx n gs !! key = Some (n + Z.of_nat j).
Proof.
  intros Hv Hj. destruct (index_groups_in key gs idx n Hv) as (k & Hk & Hl).
  - destruct Hj as [(g & Hg & Hn) _]. apply Exists_exists. exists g.
    split; [by eapply list_elem_of_lookup_2 | done].
  - by rewrite (last_named_unique key gs j k Hj Hk).
Qed.

(** A look-up in the index gives 0 for "Default" when no group has
    that name, the id of the last group of that name, or nothing. *)
Lemma expected_index_lookup gs key :
  forallb valid_group gs = true ->
  expected_index gs !! key
  = if decide (Exists (fun g => gs_name g = Some key) gs)
    then expected_index gs !! key
    else if decide (key = "Default") then Some 0 else None.
Proof.
  intros Hv. destruct (decide (Exists _ gs)) as [Hin|Hout]; [done|].
  apply not_Exists_Forall in Hout; [|intros x; apply _].
  unfold expected_index. rewrite index_groups_lookup_other; [|exact Hout|exact Hv].
  destruct (decide (key = "Default")) as [->|Hne]; [done|].
  by apply lookup_singleton_ne.
Qed.

Lemma expected_index_declared gs key :
  forallb valid_group gs = true ->
  Exists (fun g => gs_name g = Some key) gs ->
  exists j, last_named key gs j /\ expected_index gs !! key = Some (1 + Z.of_nat j).
Proof. intros Hv He. by apply index_groups_in. Qed.

(** Every id in the index other than 0 is that of the last group of
    the name looked up. *)
Lemma expected_index_inv gs key gid :
  forallb valid_group gs = true ->
  expected_index gs !! key = Some gid -> gid <> 0 ->
  exists j, last_named key gs j /\ gid = 1 + Z.of_nat j.
Proof.
  intros Hv Hl Hz. destruct (decide (Exists (fun g => gs_name g = Some key) gs)) as [Hin|Hout].
  - destruct (expected_index_declared gs key Hv Hin) as (j & Hj & Hl').
    exists j. split; [done | congruence].
  - rewrite expected_index_lookup in Hl by done.
    rewrite decide_False in Hl by done.
    destruct (decide (key = "Default")); congruence.
Qed.

(** ** Join rows, reference by reference *)

Lemma elem_of_links idx lid refs m :
  m ∈ links idx lid refs
  <-> exists r, r ∈ refs /\ idx !! r = Some (m_group_id m) /\ m_group_id m <> 0
                /\ m_adlist_id m = lid.
Proof.
  unfold links. rewrite list_elem_of_omap. split.
  - intros (r & Hr & H). exists r. split; [done|].
    destruct (idx !! r) as [gid|]; [|done].
    destruct (bool_decide (gid = 0)) eqn:Hg; [done|].
    apply bool_decide_eq_false in Hg. by injection H as <-.
  - intros (r & Hr & Hl & Hz & Hi). exists r. split; [done|]. rewrite Hl.
    rewrite bool_decide_false by done. destruct m. simpl in *. by subst.
Qed.

Lemma elem_of_membership_rows idx als m : forall n,
  m ∈ membership_rows idx n als
  <-> exists (k : nat) a, als !! k = Some a
                          /\ m ∈ links idx (n + Z.of_nat k) (default [] (as_groups a)).
Proof.
  induction als as [|a als IH]; intros n; simpl.
  - split; [by intros ?%elem_of_nil | by intros (k & a & ? & _)].
  - rewrite elem_of_app, IH. split.
    + intros [H|(k & a' & Hk & H)].
      * exists 0%nat, a. split; [done|]. by rewrite Z.add_0_r.
      * exists (S k), a'. split; [done|].
        by replace (n + Z.of_nat (S k)) with (n + 1 + Z.of_nat k) by lia.
    + intros (k & a' & Hk & H). destruct k as [|k].
      * left. injection Hk as <-. by rewrite Z.add_0_r in H.
      * right. exists k, a'. split; [done|].
        by replace (n + 1 + Z.of_nat k) with (n + Z.of_nat (S k)) by lia.
Qed.

(** ** Groups declared twice *)

Lemma finished_later_group_wins p sch gs als name i j gi w :
  forallb valid_group gs = true ->
  (i < j)%nat -> gs !! i = Some gi -> gs_name gi = Some name -> last_named name gs j ->
  later_group_wins p gs als name i j (finished p sch gs als w).
Proof.
  intros Hv Hij Hi Hni Hj. eexists. split; [apply lookup_insert_eq|]. simpl.
  split; [apply group_rows_lookup|]. split; [apply group_rows_lookup|]. split.
  - intros k a refs Hk Hr Hin. apply elem_of_membership_rows.
    exists k, a. split; [done|]. rewrite Hr. simpl. apply elem_of_links.
    exists name. simpl. split; [done|]. split; [|split; [lia | done]].
    by apply index_groups_last.
  - intros m Hm Hgid. apply elem_of_membership_rows in Hm as (k & a & Hk & Hm).
    apply elem_of_links in Hm as (r & Hr & Hl & Hz & _).
    apply expected_index_inv in Hl as (j' & Hj' & Hgid'); [|done..].
    assert (j' = i) as -> by lia.
    destruct Hj' as [(g & Hg & Hn) Hlast].
    assert (g = gi) as -> by congruence. assert (r = name) as -> by congruence.
    destruct Hj as [(gj & Hgj & Hnj) _]. by destruct (Hlast j gj Hij Hgj).
Qed.

Lemma insert_groups_fresh_index insert p sch gs name j w :
  inserts insert -> (forall t s, sch t s = true) ->
  forallb valid_group gs = true -> last_named name gs j ->
  exists idx w1,
    insert_groups insert gs {[ "Default" := 0 ]} (fresh p sch w) = (Ok idx, w1)
    /\ idx !! name = Some (1 + Z.of_nat j).
Proof.
  intros Hins Hall Hv Hj.
  destruct (insert_groups_succeeds insert Hins gs {[ "Default" := 0 ]} (fresh p sch w))
    as (idx & w1 & H & _); [by apply ready_fresh | done |].
  exists idx, w1. split; [exact H|].
  apply (insert_groups_ok insert Hins) in H as (_ & -> & _).
  by apply index_groups_last.
Qed.

(** C7. When two entries of [groups] bear the same name, the later
    being the last of that name, the import adds a row for each; the
    index built by the group loop maps the name to the id of the later
    row, every adlist that refers to the name is linked to that id,
    and none to the id of the earlier row.  (Valid document, schema
    admitting every insert, as for C1.) *)
Theorem duplicate_group_name_last_wins (yaml_path db_dir : string) (w : World)
    (d : ConfigDocument) (gs : list GroupSpec) (als : list AdlistSpec) (sch : Schema)
    (name : string) (i j : nat) (gi : GroupSpec) :
  let p := path_join db_dir "gravity.db" in
  fs w !! yaml_path = Some (FYaml d) ->
  valid_document d = true ->
  doc_groups d = Some gs -> doc_adlists d = Some als -> als <> [] ->
  fs w !! schema_file w = Some (FSchema sch) ->
  (forall t s, sch t s = true) ->
  schema_file w <> p -> schema_file w <> archive_path p (today w) ->
  (i < j)%nat -> gs !! i = Some gi -> gs_name gi = Some name -> last_named name gs j ->
  (exists idx w1,
     insert_groups Database.insert gs {[ "Default" := 0 ]} (fresh p sch w) = (Ok idx, w1)
     /\ idx !! name = Some (1 + Z.of_nat j))
  /\ (exists idx w1,
        insert_groups sqlite3.execute gs {[ "Default" := 0 ]} (fresh p sch w) = (Ok idx, w1)
        /\ idx !! name = Some (1 + Z.of_nat j))
  /\ (exists o' w', GravityYAML.run (GravityYAML.__init__ yaml_path db_dir, w) = (Ok tt, (o', w'))
                    /\ later_group_wins p gs als name i j w')
  /\ (exists o' w', Application.run (Application.__init__ yaml_path db_dir, w) = (Ok tt, (o', w'))
                    /\ later_group_wins p gs als name i j w').
Proof.
  intros p Hy Hv Hgs Ha Hne Hs Hall Hp Harch Hij Hi Hni Hj.
  pose proof (initialised_schema p w sch Hs Hp Harch) as Hin.
  assert (forallb valid_group gs = true) as Hvg.
  { unfold valid_document in Hv. rewrite Hgs, Ha in Hv. by apply andb_prop in Hv as [? _]. }
  split; [by apply insert_groups_fresh_index, Hj; try apply Database_insert_inserts|].
  split; [by apply insert_groups_fresh_index, Hj; try apply execute_inserts|].
  split.
  - eexists _, _. split.
    + by apply (GY_run_succeeds (GravityYAML.__init__ yaml_path db_dir) w d gs als sch).
    + by apply (finished_later_group_wins _ _ _ _ _ _ _ gi).
  - destruct (App_run_succeeds (Application.__init__ yaml_path db_dir) w d gs als sch)
      as [o' Hr]; try done.
    eexists _, _. split; [exact Hr|]. by apply (finished_later_group_wins _ _ _ _ _ _ _ gi).
Qed.

Lemma last_named_duplicate :
  last_named "Family" (default [] (doc_groups duplicate_document)) 1.
Proof.
  split; [eexists; split; reflexivity|].
  intros [|[|k]] g Hk Hg; [lia | lia | done].
Qed.

Lemma duplicate_group_name_last_wins_witness :
  exists o' w',
    GravityYAML.run (GravityYAML.__init__ "gravity.yaml" "/etc/pihole/",
                     sample_world duplicate_document) = (Ok tt, (o', w'))
    /\ later_group_wins "/etc/pihole/gravity.db"
         (default [] (doc_groups duplicate_document))
         (default [] (doc_adlists duplicate_document)) "Family" 0 1 w'.
Proof.
  refine (proj1 (proj2 (proj2
            (duplicate_group_name_last_wins "gravity.yaml" "/etc/pihole/"
               (sample_world duplicate_document) duplicate_document _ _ unconstrained
               "Family" 0 1 _ _ _ _ _ _ _ _ _ _ _ _ _ last_named_duplicate))));
    [reflexivity | reflexivity | reflexivity | reflexivity | discriminate | reflexivity
    | reflexivity | discriminate | discriminate | lia | reflexivity | reflexivity].
Defined.

(** ** What the import returns *)

Lemma links_cons idx lid r refs :
  links idx lid (r :: refs)
  = match idx !! r with
    | Some gid => if bool_decide (gid = 0) then links idx lid refs
                  else {| m_adlist_id := lid; m_group_id := gid |} :: links idx lid refs
    | None => links idx lid refs
    end.
Proof.
  unfold links. simpl. destruct (idx !! r) as [gid|]; [|done].
  by destruct (bool_decide (gid = 0)).
Qed.

Lemma warnings_cons idx url r refs :
  warnings idx url (r :: refs)
  = match idx !! r with
    | Some _ => warnings idx url refs
    | None => warning r url :: warnings idx url refs
    end.
Proof. unfold warnings. simpl. by destruct (idx !! r). Qed.

Lemma length_links gs lid refs :
  forallb valid_group gs = true ->
  length (links (expected_index gs) lid refs) = length (filter (declared gs) refs).
Proof.
  intros Hv. induction refs as [|r refs IH]; [done|].
  rewrite links_cons.
  destruct (decide (declared gs r)) as [Hd|Hd].
  - rewrite filter_cons_True by done.
    destruct (expected_index_declared gs r Hv Hd) as (j & _ & ->).
    rewrite bool_decide_false by lia. simpl. by rewrite IH.
  - rewrite filter_cons_False by done.
    rewrite expected_index_lookup by done. rewrite decide_False by done.
    destruct (decide (r = "Default")); simpl; by rewrite IH.
Qed.

Lemma length_warnings gs url refs :
  forallb valid_group gs = true ->
  length (warnings (expected_index gs) url refs) = length (filter (unresolved gs) refs).
Proof.
  intros Hv. induction refs as [|r refs IH]; [done|].
  rewrite warnings_cons.
  destruct (decide (declared gs r)) as [Hd|Hd].
  - rewrite filter_cons_False by (by intros [? _]).
    destruct (expected_index_declared gs r Hv Hd) as (j & _ & ->). by rewrite IH.
  - rewrite expected_index_lookup by done. rewrite decide_False by done.
    destruct (decide (r = "Default")) as [->|Hne].
    + rewrite filter_cons_False by (by intros [_ ?]). by rewrite IH.
    + rewrite filter_cons_True by done. simpl. by rewrite IH.
Qed.

Lemma length_membership_rows gs als : forall n,
  forallb valid_group gs = true ->
  length (membership_rows (expected_index gs) n als)
  = length (filter (declared gs) (references als)).
Proof.
  intros n Hv. revert n. induction als as [|a als IH]; intros n; [done|].
  simpl. unfold references. simpl. rewrite filter_app, !length_app.
  rewrite length_links by done. f_equal. apply IH.
Qed.

Lemma length_warning_lines gs als :
  forallb valid_group gs = true ->
  length (warning_lines (expected_index gs) als)
  = length (filter (unresolved gs) (references als)).
Proof.
  intros Hv. induction als as [|a als IH]; [done|].
  simpl. unfold references. simpl. rewrite filter_app, !length_app.
  rewrite length_warnings by done. f_equal. apply IH.
Qed.

Lemma finished_counts_observable p sch gs als w :
  forallb valid_group gs = true ->
  counts_observable p gs als w (finished p sch gs als w).
Proof.
  intros Hv. eexists _, _. split; [apply lookup_insert_eq|]. split; [reflexivity|].
  unfold observed, report_of. simpl.
  by rewrite length_group_rows, length_adlist_rows, length_membership_rows,
    length_warning_lines.
Qed.

(** C9, as stated, fails: the import of the sample document succeeds
    and returns [None], not a report. *)
Lemma import_returns_no_report :
  (GravityYAML.populate_database sample_loaded).1 = Ok tt
  /\ ~ exists rep, returned (GravityYAML.populate_database sample_loaded).1
                   = Some (VReport rep).
Proof. split; [by vm_compute|]. intros [rep H]. vm_compute in H. discriminate H. Qed.

(** C9, amended.  In every successful run the import returns [None],
    in both programs; the counts of groups, adlists and memberships
    created and of warnings emitted are those of the rows of the three
    tables of the store and of the lines printed during the run. *)
Theorem import_returns_nothing (yaml_path db_dir : string) (w : World) :
  let p := path_join db_dir "gravity.db" in
  (forall s,
     GravityYAML.run (GravityYAML.__init__ yaml_path db_dir, w) = (Ok tt, s) ->
     (exists s0,
        (GravityYAML.load_yaml ;;; GravityYAML.init_database)
          (GravityYAML.__init__ yaml_path db_dir, w) = (Ok tt, s0)
        /\ GravityYAML.populate_database s0 = (Ok tt, s)
        /\ returned (GravityYAML.populate_database s0).1 = Some VNone)
     /\ exists d gs als,
          fs w !! yaml_path = Some (FYaml d)
          /\ doc_groups d = Some gs /\ doc_adlists d = Some als
          /\ counts_observable p gs als w s.2)
  /\ (forall s,
        Application.run (Application.__init__ yaml_path db_dir, w) = (Ok tt, s) ->
        (exists s0 s1,
           (Application._load_yaml ;;; Application._init_database)
             (Application.__init__ yaml_path db_dir, w) = (Ok tt, s0)
           /\ Application._populate_database s0 = (Ok tt, s1)
           /\ returned (Application._populate_database s0).1 = Some VNone)
        /\ exists d gs als,
             fs w !! yaml_path = Some (FYaml d)
             /\ doc_groups d = Some gs /\ doc_adlists d = Some als
             /\ counts_observable p gs als w s.2).
Proof.
  intros p. split; intros s H.
  - split.
    + unfold GravityYAML.run, bind in *.
      destruct (GravityYAML.load_yaml _) as [[[]|e] s'] eqn:Hl; [|done].
      destruct (GravityYAML.init_database s') as [[[]|e] s0] eqn:Hi; [|done].
      exists s0. by rewrite H.
    + destruct (GY_run_ok _ _ _ H) as (d & gs & als & sch & Hy & Hgs & Hals & _ & Hv & _ & ->).
      exists d, gs, als. repeat split; try done.
      apply finished_counts_observable.
      unfold valid_document in Hv. rewrite Hgs, Hals in Hv. by apply andb_prop in Hv as [? _].
  - split.
    + unfold Application.run, bind, try_finally in *.
      destruct (Application._load_yaml _) as [[[]|e] s'] eqn:Hl; [|done].
      destruct (Application._init_database s') as [[[]|e] s0] eqn:Hi; [|done].
      destruct (Application._populate_database s0) as [[[]|e] s1] eqn:Hp.
      * exists s0, s1. rewrite Hp. by repeat split.
      * match type of H with
        | (let (_, _) := ?c in _) = _ => destruct c as [[[]|?] ?]
        end; done.
    + destruct (App_run_ok _ _ _ H) as (d & gs & als & sch & Hy & Hgs & Hals & _ & Hv & _ & ->).
      exists d, gs, als. repeat split; try done.
      apply finished_counts_observable.
      unfold valid_document in Hv. rewrite Hgs, Hals in Hv. by apply andb_prop in Hv as [? _].
Qed.

Lemma import_returns_nothing_witness :
  exists d gs als,
    fs (sample_world sample_document) !! "gravity.yaml" = Some (FYaml d)
    /\ doc_groups d = Some gs /\ doc_adlists d = Some als
    /\ counts_observable "/etc/pihole/gravity.db" gs als (sample_world sample_document)
         after_first_run.
Proof.
  refine (proj2 (proj1 (import_returns_nothing "gravity.yaml" "/etc/pihole/"
                          (sample_world sample_document))
                   (GravityYAML.run (GravityYAML.__init__ "gravity.yaml" "/etc/pihole/",
                                     sample_world sample_document)).2 _)).
  by vm_compute.
Defined.

(** ** The examples of the specification *)

Example family_example :
  outcome family_document
  = (0,
     {| group := [ {| g_id := 1; g_enabled := true; g_name := "Family";
                      g_description := None |} ];
        adlist := [ {| a_id := 1; a_address := "http://a"; a_enabled := true;
                       a_comment := None |} ];
        adlist_by_group := [ {| m_adlist_id := 1; m_group_id := 1 |} ] |},
     []).
Proof. by vm_compute. Qed.

Example default_only_example :
  outcome default_only_document
  = (0,
     {| group := [];
        adlist := [ {| a_id := 1; a_address := "http://a"; a_enabled := true;
                       a_comment := None |} ];
        adlist_by_group := [] |},
     []).
Proof. by vm_compute. Qed.

Example ghost_example :
  outcome ghost_document
  = (0,
     {| group := [];
        adlist := [ {| a_id := 1; a_address := "http://a"; a_enabled := true;
                       a_comment := None |} ];
        adlist_by_group := [] |},
     [ "WARNING - Group Ghost referenced by adlist http://a does not exist" ]).
Proof. by vm_compute. Qed.

Example redeclared_default_example :
  outcome redeclared_default_document
  = (0,
     {| group := [ {| g_id := 1; g_enabled := true; g_name := "Default";
                      g_description := None |} ];
        adlist := [ {| a_id := 1; a_address := "http://a"; a_enabled := true;
                       a_comment := None |} ];
        adlist_by_group := [ {| m_adlist_id := 1; m_group_id := 1 |} ] |},
     []).
Proof. by vm_compute. Qed.

Example strftime_example :
  archive_path "/etc/pihole/gravity.db" {| year := 2023; month := 4; day := 7 |}
  = "/etc/pihole/gravity.db.old-2023-04-07".
Proof. reflexivity. Qed.

(** A constraint violation on the second adlist: both programs end
    with an error and a store without rows. *)
Example constraint_violation_example :
  (let '(status, w) := Application.main "gravity.yaml" "/etc/pihole/" constrained_world in
   (status, stored w "/etc/pihole/gravity.db", connection w))
  = (1, empty_tables, None)
  /\ (let '(status, w) := cli default_args constrained_world in
      (status, stored w "/etc/pihole/gravity.db", connection w))
     = (2, empty_tables, None).
Proof. split; by vm_compute. Qed.

Lemma strftime_Ymd_length (d : Date) : String.length (strftime_Ymd d) = 10%nat.
Proof. reflexivity. Qed.

(** * Further properties of the two programs *)

(** ** The exceptions a computation can raise *)

Lemma raises_only_ret {S A} (P : Exn -> Prop) (a : A) : raises_only P (@ret S A a).
Proof. intros s e H. discriminate H. Qed.

Lemma raises_only_raise {S A} (P : Exn -> Prop) (e : Exn) :
  P e -> raises_only P (@raise S A e).
Proof. intros H s e' [= <-]. exact H. Qed.

Lemma raises_only_bind {S A B} (P : Exn -> Prop) (c : M S A) (k : A -> M S B) :
  raises_only P c -> (forall a, raises_only P (k a)) -> raises_only P (bind c k).
Proof.
  intros Hc Hk s e. unfold bind. specialize (Hc s).
  destruct (c s) as [[a|e'] s']; simpl in *; [apply Hk|].
  intros [= <-]. by apply Hc.
Qed.

Lemma raises_only_for_each {S A} (P : Exn -> Prop) (xs : list A) (body : A -> M S unit) :
  (forall x, raises_only P (body x)) -> raises_only P (for_each xs body).
Proof.
  intros Hb. induction xs as [|x xs IH]; simpl; [apply raises_only_ret|].
  apply raises_only_bind; [apply Hb | intros _; exact IH].
Qed.

Lemma raises_only_subscript {S A} (P : Exn -> Prop) (field : option A) (key : string) :
  P (KeyError key) -> raises_only P (@subscript S A field key).
Proof. intros H. destruct field; [apply raises_only_ret | by apply raises_only_raise]. Qed.

Lemma raises_only_when {S} (P : Exn -> Prop) (cond : bool) (body : M S unit) :
  raises_only P body -> raises_only P (when cond body).
Proof. intros H. destruct cond; [exact H | apply raises_only_ret]. Qed.

Lemma raises_only_lift {X A} (P : Exn -> Prop) (c : M World A) :
  raises_only P c -> raises_only P (@lift X A c).
Proof.
  intros H [x w] e. unfold lift. simpl. specialize (H w e).
  destruct (c w) as [r w']. exact H.
Qed.

Lemma raises_only_try_finally {S A} (P : Exn -> Prop) (c : M S A) (h : M S unit) :
  raises_only P c -> raises_only P h -> raises_only P (try_finally c h).
Proof.
  intros Hc Hh s e. unfold try_finally. specialize (Hc s e).
  destruct (c s) as [r s']. specialize (Hh s').
  destruct (h s') as [[[]|e'] s'']; simpl in *; [exact Hc|].
  intros [= <-]. by apply Hh.
Qed.

Lemma raises_only_total {S A} (P : Exn -> Prop) (c : M S A) :
  (forall s, exists a s', c s = (Ok a, s')) -> raises_only P c.
Proof. intros H s e He. destruct (H s) as (a & s' & Hc). by rewrite Hc in He. Qed.

Lemma raises_only_self {X} (P : Exn -> Prop) : raises_only P (@self X).
Proof. apply raises_only_total. intros s. by eexists _, _. Qed.

Lemma raises_only_assign {X} (P : Exn -> Prop) (f : X -> X) : raises_only P (assign f).
Proof. apply raises_only_total. intros s. by eexists _, _. Qed.

Lemma raises_only_gets {S A} (P : Exn -> Prop) (f : S -> A) : raises_only P (gets f).
Proof. apply raises_only_total. intros s. by eexists _, _. Qed.

Lemma raises_only_print (P : Exn -> Prop) line : raises_only P (print line).
Proof. apply raises_only_total. intros s. by eexists _, _. Qed.

Lemma raises_only_item {A} (P : Exn -> Prop) data (field : ConfigDocument -> option A) key :
  P (KeyError key) -> (forall msg, P (TypeError msg)) -> raises_only P (item data field key).
Proof.
  intros Hk Ht. destruct data; [by apply raises_only_subscript | apply raises_only_raise, Ht].
Qed.

Section RaisesImport.

Variable insert : Stmt -> M World Z.
Variable P : Exn -> Prop.
Hypothesis insert_raises : forall s, raises_only P (insert s).
Hypothesis P_KeyError : forall key, P (KeyError key).
Hypothesis P_TypeError : forall msg, P (TypeError msg).

Lemma import_document_raises_only data : raises_only P (import_document insert data).
Proof.
  unfold import_document.
  apply raises_only_bind; [by apply raises_only_item|]. intros gs.
  apply raises_only_bind.
  { generalize ({[ "Default" := 0 ]} : gmap string Z).
    induction gs as [|g gs IH]; intros idx; simpl; [apply raises_only_ret|].
    apply raises_only_bind; [by apply raises_only_subscript|]. intros name.
    apply raises_only_bind; [apply insert_raises|]. intros id. apply IH. }
  intros idx. apply raises_only_bind; [by apply raises_only_item|]. intros als.
  apply raises_only_for_each. intros a. unfold import_adlist.
  apply raises_only_bind; [by apply raises_only_subscript|]. intros url.
  apply raises_only_bind; [apply insert_raises|]. intros list_id.
  apply raises_only_bind; [by apply raises_only_subscript|]. intros refs.
  apply raises_only_for_each. intros r. unfold link_group.
  destruct (idx !! r) as [gid|]; [|apply raises_only_print].
  destruct (bool_decide (gid = 0)); [apply raises_only_ret|].
  apply raises_only_bind; [apply insert_raises | intros _; apply raises_only_ret].
Qed.

End RaisesImport.

Lemma rename_raises src dst : raises_only library_error (rename src dst).
Proof. intros w e. unfold rename. destruct (fs w !! src); [done|]. by intros [= <-]. Qed.

Lemma read_file_raises p : raises_only library_error (read_file p).
Proof. intros w e. unfold read_file. destruct (fs w !! p); [done|]. by intros [= <-]. Qed.

Lemma safe_load_raises p : raises_only library_error (safe_load p).
Proof.
  intros w e. unfold safe_load.
  destruct (fs w !! p) as [[]|]; simpl; try done; by intros [= <-].
Qed.

Lemma connect_raises p : raises_only library_error (sqlite3.connect p).
Proof.
  intros w e. unfold sqlite3.connect.
  destruct (fs w !! p) as [[]|]; simpl; try done; by intros [= <-].
Qed.

Lemma executescript_raises sql : raises_only library_error (sqlite3.executescript sql).
Proof.
  intros w e. unfold sqlite3.executescript.
  destruct (connection w) as [c|]; [|by destruct sql; intros [= <-]].
  destruct sql; try by intros [= <-].
  destruct (schema (conn_db c)); [by intros [= <-] | done].
Qed.

Lemma execute_raises s : raises_only library_error (sqlite3.execute s).
Proof.
  intros w e. unfold sqlite3.execute.
  destruct (connection w) as [c|]; [|by intros [= <-]].
  destruct (schema (conn_db c)) as [sch|]; [|by intros [= <-]].
  destruct (sch _ s); [|by intros [= <-]].
  by destruct (apply_stmt _ s).
Qed.

Lemma commit_raises : raises_only library_error sqlite3.commit.
Proof.
  intros w e. unfold sqlite3.commit. destruct (connection w); [done | by intros [= <-]].
Qed.

Lemma close_raises : raises_only library_error sqlite3.close.
Proof.
  intros w e. unfold sqlite3.close. destruct (connection w); [done | by intros [= <-]].
Qed.

Lemma raises_only_weaken {S A} (P Q : Exn -> Prop) (c : M S A) :
  (forall e, P e -> Q e) -> raises_only P c -> raises_only Q c.
Proof. intros H Hc s e He. by apply H, (Hc s). Qed.

Lemma library_error_exits_with_1 e : library_error e -> exits_with_1 e.
Proof. intros H code ->. done. Qed.

Lemma exits_with_1_sys_exit {S A} : raises_only exits_with_1 (@sys_exit S A 1).
Proof. apply raises_only_raise. by intros code [= <-]. Qed.

Lemma raises_only_library {X A} (P : Exn -> Prop) (c : M World A) :
  (forall e, library_error e -> P e) -> raises_only library_error c ->
  raises_only P (@lift X A c).
Proof. intros H Hc. apply raises_only_lift. by apply (raises_only_weaken library_error). Qed.

(** ** The exit status of [src/gravityyaml.py] *)

Lemma print_exit_raises line :
  raises_only exits_with_1
    (lift (X := Application.t) (print line) ;;; sys_exit (A := unit) 1).
Proof.
  apply raises_only_bind; [apply raises_only_lift, raises_only_print|].
  intros _. apply exits_with_1_sys_exit.
Qed.

Lemma App_load_yaml_raises : raises_only exits_with_1 Application._load_yaml.
Proof.
  pose proof library_error_exits_with_1 as Hlib.
  unfold Application._load_yaml.
  apply raises_only_bind; [apply raises_only_self|]. intros o.
  apply raises_only_bind; [apply raises_only_lift, raises_only_gets|]. intros found.
  apply raises_only_bind; [apply raises_only_when, print_exit_raises|]. intros _.
  apply raises_only_bind; [by apply raises_only_library, safe_load_raises|]. intros data.
  apply raises_only_bind; [apply raises_only_assign|]. intros _.
  apply raises_only_bind; [|intros n; apply raises_only_when, print_exit_raises].
  apply raises_only_library; [done|]. unfold len_adlists.
  apply raises_only_bind; [by apply raises_only_item | intros als; apply raises_only_ret].
Qed.

Lemma App_init_database_raises : raises_only exits_with_1 Application._init_database.
Proof.
  pose proof library_error_exits_with_1 as Hlib.
  unfold Application._init_database.
  apply raises_only_bind; [apply raises_only_self|]. intros o.
  apply raises_only_bind; [apply raises_only_lift, raises_only_gets|]. intros present.
  apply raises_only_bind.
  { apply raises_only_when. apply raises_only_bind;
      [apply raises_only_lift, raises_only_gets|].
    intros now. by apply raises_only_library, rename_raises. }
  intros _. apply raises_only_bind; [apply raises_only_lift, raises_only_gets|].
  intros sp. apply raises_only_bind; [apply raises_only_lift, raises_only_gets|].
  intros found. apply raises_only_bind; [apply raises_only_when, print_exit_raises|].
  intros _. apply raises_only_bind; [by apply raises_only_library, read_file_raises|].
  intros sql. apply raises_only_bind; [by apply raises_only_library, connect_raises|].
  intros c. apply raises_only_bind; [apply raises_only_assign|]. intros _.
  by apply raises_only_library, executescript_raises.
Qed.

Lemma App_populate_database_raises :
  raises_only exits_with_1 Application._populate_database.
Proof.
  pose proof library_error_exits_with_1 as Hlib.
  unfold Application._populate_database.
  apply raises_only_bind; [apply raises_only_self|]. intros o.
  apply raises_only_bind; [apply raises_only_when, print_exit_raises|]. intros _.
  apply raises_only_bind; [apply raises_only_when, print_exit_raises|]. intros _.
  apply raises_only_bind; [apply raises_only_assign|]. intros _.
  apply raises_only_bind; [|intros _; by apply raises_only_library, commit_raises].
  apply raises_only_library; [done|].
  by apply import_document_raises_only; [apply execute_raises|..].
Qed.

Lemma App_run_raises : raises_only exits_with_1 Application.run.
Proof.
  unfold Application.run.
  apply raises_only_bind; [apply App_load_yaml_raises|]. intros _.
  apply raises_only_bind; [apply App_init_database_raises|]. intros _.
  apply raises_only_try_finally; [apply App_populate_database_raises|].
  apply raises_only_bind; [apply raises_only_self|]. intros o.
  apply raises_only_bind; [apply raises_only_when, raises_only_assign|]. intros _.
  apply raises_only_bind; [|intros _; apply raises_only_assign].
  apply raises_only_library; [apply library_error_exits_with_1 | apply close_raises].
Qed.

(** X1. [main] ends with status 0 when [run] returns and with status 1
    on every failure: each [sys.exit] of the file has the argument 1,
    and an exception that reaches the interpreter gives status 1. *)
Theorem main_exit_status (config database : string) (w : World) :
  (Application.main config database w).1
  = match (Application.run (Application.__init__ config database, w)).1 with
    | Ok _ => 0
    | Raise _ => 1
    end.
Proof.
  unfold Application.main.
  pose proof (App_run_raises (Application.__init__ config database, w)) as H.
  destruct (Application.run _) as [[[]|e] [o' w']]; simpl in *; [done|].
  destruct e; try done. by apply (H _ eq_refl).
Qed.

(** ** The exit status of [cli] *)

Lemma package_error_catchable e : package_error e -> catchable e.
Proof. by destruct e. Qed.

Lemma store_error_raises {A} (c : M World A) :
  raises_only library_error c -> raises_only package_error (Database.store_error c).
Proof.
  intros H w e. unfold Database.store_error. specialize (H w).
  destruct (c w) as [[a|e'] w']; simpl in *; [done|].
  specialize (H e' eq_refl). destruct e'; simpl in *; try done; by intros [= <-].
Qed.

Lemma read_file_raises_package p : raises_only package_error (read_file p).
Proof. intros w e. unfold read_file. destruct (fs w !! p); [done|]. by intros [= <-]. Qed.

Lemma safe_load_raises_package p : raises_only package_error (safe_load p).
Proof.
  intros w e. unfold safe_load.
  destruct (fs w !! p) as [[]|]; simpl; try done; by intros [= <-].
Qed.

Lemma len_adlists_raises_package data : raises_only package_error (len_adlists data).
Proof.
  unfold len_adlists.
  apply raises_only_bind; [by apply raises_only_item | intros als; apply raises_only_ret].
Qed.

(** [raise FileNotFoundError(...)]: the exception built, or the
    [TypeError] of the call that builds it. *)
Lemma raise_FileNotFoundError_raises {S} args kwargs :
  raises_only package_error
    (let! e := @FileNotFoundError_new S args kwargs in raise (A := unit) e).
Proof. intros s e. destruct kwargs; by intros [= <-]. Qed.

Lemma with_Database_raises p sp data :
  raises_only package_error
    (with_Database p
       (Database.loadFile sp ;;; import_document Database.insert data ;;; Database.commit)).
Proof.
  unfold with_Database.
  apply raises_only_bind; [apply store_error_raises, connect_raises|]. intros conn.
  apply raises_only_try_finally; [|apply store_error_raises, close_raises].
  apply raises_only_bind.
  { unfold Database.loadFile. apply raises_only_bind; [apply read_file_raises_package|].
    intros sql. apply store_error_raises, executescript_raises. }
  intros _. apply raises_only_bind; [|intros _; apply store_error_raises, commit_raises].
  apply import_document_raises_only; [|done..].
  intros s. apply store_error_raises, execute_raises.
Qed.

Section PackageRaises.

Variable P : Exn -> Prop.
Hypothesis P_package : forall e, package_error e -> P e.

Lemma raises_only_package {X A} (c : M World A) :
  raises_only package_error c -> raises_only P (@lift X A c).
Proof. intros Hc. apply raises_only_lift. by apply (raises_only_weaken package_error). Qed.

Lemma GY_load_yaml_raises_only :
  P (ConfigFileError "No ad lists specified") -> raises_only P GravityYAML.load_yaml.
Proof.
  intros Hempty. unfold GravityYAML.load_yaml.
  apply raises_only_bind; [apply raises_only_self|]. intros o.
  apply raises_only_bind; [apply raises_only_lift, raises_only_gets|]. intros found.
  apply raises_only_bind.
  { apply raises_only_when.
    apply (raises_only_weaken package_error), raise_FileNotFoundError_raises. done. }
  intros _. apply raises_only_bind; [apply raises_only_package, safe_load_raises_package|].
  intros data. apply raises_only_bind; [apply raises_only_assign|]. intros _.
  apply raises_only_bind; [apply raises_only_package, len_adlists_raises_package|].
  intros n. by apply raises_only_when, raises_only_raise.
Qed.

Lemma GY_populate_database_raises_only :
  P (ConfigFileError "Config file not loaded. Did you forget to call load_yaml?") ->
  raises_only P GravityYAML.populate_database.
Proof.
  intros Hload. unfold GravityYAML.populate_database.
  apply raises_only_bind; [apply raises_only_self|]. intros o.
  apply raises_only_bind; [by apply raises_only_when, raises_only_raise|]. intros _.
  apply raises_only_bind; [apply raises_only_lift, raises_only_gets|]. intros sp.
  apply raises_only_bind; [apply raises_only_lift, raises_only_gets|]. intros found.
  apply raises_only_bind.
  { apply raises_only_when.
    apply (raises_only_weaken package_error), raise_FileNotFoundError_raises. done. }
  intros _. apply raises_only_package, with_Database_raises.
Qed.

End PackageRaises.

Lemma GY_init_database_raises P : raises_only P GravityYAML.init_database.
Proof. intros s e. destruct s as [o w]. by rewrite GY_init_database_spec. Qed.

Lemma GY_run_raises : raises_only catchable GravityYAML.run.
Proof.
  unfold GravityYAML.run.
  apply raises_only_bind;
    [by apply GY_load_yaml_raises_only; [apply package_error_catchable|]|].
  intros _. apply raises_only_bind; [apply GY_init_database_raises|]. intros _.
  by apply GY_populate_database_raises_only; [apply package_error_catchable|].
Qed.

(** Once a document with the key [adlists] is loaded, the guard of
    [populate_database] is passed. *)
Lemma GY_populate_database_loaded_raises o w e :
  truthy (GravityYAML._data o) = true ->
  (GravityYAML.populate_database (o, w)).1 = Raise e -> package_error e.
Proof.
  intros Ht. unfold GravityYAML.populate_database, isfile, FileNotFoundError_new.
  unfold_monad. cbn -[truthy]. rewrite Ht. cbn.
  destruct (bool_decide (is_Some (fs w !! path_join (script_path w) "database.sql")));
    cbn; [|by intros [= <-]].
  match goal with |- context [with_Database ?p ?body w] =>
    assert ((with_Database p body w).1 = Raise e -> package_error e) as H
      by apply (with_Database_raises p (path_join (script_path w) "database.sql")
                  (GravityYAML._data o) w e);
    destruct (with_Database p body w) as [r w'] end.
  exact H.
Qed.

Lemma EXIT_CODES_DATABASE_ERROR : EXIT_CODES "DATABASE_ERROR" = Some 2.
Proof. reflexivity. Qed.

Lemma EXIT_CODES_DEFAULT : EXIT_CODES "DEFAULT" = Some 1.
Proof. reflexivity. Qed.

(** What [guarded] makes of a run that raised an [Exception]. *)
Lemma guarded_raise c s e s' :
  c s = (Raise e, s') -> catchable e ->
  guarded c s
  = (Raise (SystemExit (if errors.is_DatabaseError e then 2 else 1)),
     (s'.1, emit ["FATAL - " +:+ str e] s'.2)).
Proof.
  intros H He. unfold guarded. rewrite H, He.
  rewrite EXIT_CODES_DATABASE_ERROR, EXIT_CODES_DEFAULT.
  destruct s' as [o w]. by destruct (errors.is_DatabaseError e).
Qed.

(** X2. The exit status of [cli]: 0 when [run] returns, 2 when [run]
    raises [errors.DatabaseError] and [--debug] is not given, 1 for
    every other failure.  The codes 3 and 4 of [EXIT_CODES] are never
    used. *)
Theorem cli_exit_status (args : Args) (w : World) :
  (cli args w).1
  = match (GravityYAML.run (GravityYAML.__init__ (config args) (database args), w)).1 with
    | Ok _ => 0
    | Raise e => if negb (debug args) && errors.is_DatabaseError e then 2 else 1
    end
  /\ 0 <= (cli args w).1 <= 2.
Proof.
  unfold cli.
  pose proof (GY_run_raises (GravityYAML.__init__ (config args) (database args), w)) as He.
  destruct (GravityYAML.run _) as [[[]|e] [o' w']] eqn:Hr.
  - destruct (debug args); unfold guarded; by rewrite Hr.
  - specialize (He e eq_refl). destruct (debug args); simpl.
    + rewrite Hr. by destruct e.
    + rewrite (guarded_raise _ _ e (o', w') Hr He). simpl.
      by destruct (errors.is_DatabaseError e).
Qed.


(** X4. [--debug] changes neither the files nor the connection that
    [cli] leaves: the two modes differ in the line printed and in the
    exit status only. *)
Theorem debug_leaves_the_same_store (config database : string) (w : World) :
  let quiet := {| config := config; database := database; debug := true |} in
  let loud := {| config := config; database := database; debug := false |} in
  fs (cli quiet w).2 = fs (cli loud w).2
  /\ connection (cli quiet w).2 = connection (cli loud w).2.
Proof.
  intros quiet loud. unfold cli. simpl.
  pose proof (GY_run_raises (GravityYAML.__init__ config database, w)) as He.
  destruct (GravityYAML.run _) as [[[]|e] [o' w']] eqn:Hr.
  - unfold guarded. by rewrite Hr.
  - specialize (He e eq_refl). by rewrite (guarded_raise _ _ e (o', w') Hr He).
Qed.

(** ** Loading the configuration *)

Lemma GY_load_yaml_world o w : (GravityYAML.load_yaml (o, w)).2.2 = w.
Proof.
  unfold GravityYAML.load_yaml, isfile, safe_load, len_adlists, item. unfold_monad.
  destruct (fs w !! GravityYAML._yaml_path o) as [[d| | | |]|] eqn:H;
    repeat (cbn; rewrite ?H); try done.
  by destruct (doc_adlists d) as [[|a als]|].
Qed.

Lemma GY_run_load_failure o w e :
  (GravityYAML.load_yaml (o, w)).1 = Raise e ->
  GravityYAML.run (o, w) = GravityYAML.load_yaml (o, w).
Proof.
  intros H. unfold GravityYAML.run, bind.
  by destruct (GravityYAML.load_yaml (o, w)) as [[[]|e'] s].
Qed.

Lemma App_run_load_failure o w e :
  (Application._load_yaml (o, w)).1 = Raise e ->
  Application.run (o, w) = Application._load_yaml (o, w).
Proof.
  intros H. unfold Application.run, bind.
  by destruct (Application._load_yaml (o, w)) as [[[]|e'] s].
Qed.

Lemma App_load_yaml_world o w :
  let w' := (Application._load_yaml (o, w)).2.2 in
  fs w' = fs w /\ connection w' = connection w
  /\ (stdout w' = stdout w
      \/ stdout w' = stdout w ++ ["ERROR - Could not find YAML file"]
      \/ stdout w' = stdout w ++ ["ERROR - No ad lists specified"]).
Proof.
  unfold Application._load_yaml, isfile, safe_load, len_adlists, item, print. unfold_monad.
  destruct (fs w !! Application._yaml_path o) as [[d| | | |]|] eqn:H;
    repeat (cbn; rewrite ?H); eauto.
  destruct (doc_adlists d) as [[|a als]|]; cbn; eauto.
Qed.

(** X5. When the configuration cannot be loaded, whatever the reason,
    [run] ends with the exception of [load_yaml] and leaves the
    environment as it found it: no file is moved or created, nothing is
    printed and no store is opened. *)
Theorem config_failure_leaves_environment (o : GravityYAML.t) (w : World) (e : Exn) :
  (GravityYAML.load_yaml (o, w)).1 = Raise e ->
  (GravityYAML.run (o, w)).1 = Raise e /\ (GravityYAML.run (o, w)).2.2 = w.
Proof.
  intros H. rewrite (GY_run_load_failure o w e H). split; [done | apply GY_load_yaml_world].
Qed.

Lemma config_failure_leaves_environment_witness :
  (GravityYAML.run (GravityYAML.__init__ "gravity.yaml" "/etc/pihole/",
                    sample_world no_adlists_document)).2.2
  = sample_world no_adlists_document.
Proof.
  apply (config_failure_leaves_environment
           (GravityYAML.__init__ "gravity.yaml" "/etc/pihole/")
           (sample_world no_adlists_document) (KeyError "adlists")).
  vm_compute. reflexivity.
Defined.

(** X6. The same for [Application.run]: when [_load_yaml] raises or
    exits, the files and the connection are untouched, and at most the
    one line of [_load_yaml] has been printed. *)
Theorem App_config_failure_leaves_store (o : Application.t) (w : World) (e : Exn) :
  (Application._load_yaml (o, w)).1 = Raise e ->
  let w' := (Application.run (o, w)).2.2 in
  (Application.run (o, w)).1 = Raise e
  /\ fs w' = fs w /\ connection w' = connection w
  /\ (stdout w' = stdout w
      \/ stdout w' = stdout w ++ ["ERROR - Could not find YAML file"]
      \/ stdout w' = stdout w ++ ["ERROR - No ad lists specified"]).
Proof.
  intros H. rewrite (App_run_load_failure o w e H). split; [done | apply App_load_yaml_world].
Qed.

Lemma App_config_failure_leaves_store_witness :
  fs (Application.run (Application.__init__ "absent.yaml" "/etc/pihole/",
                       sample_world sample_document)).2.2
  = fs (sample_world sample_document).
Proof.
  apply (App_config_failure_leaves_store
           (Application.__init__ "absent.yaml" "/etc/pihole/")
           (sample_world sample_document) (SystemExit 1)).
  vm_compute. reflexivity.
Defined.

Lemma GY_load_yaml_no_adlists o w d :
  fs w !! GravityYAML._yaml_path o = Some (FYaml d) ->
  doc_adlists d = None ->
  GravityYAML.load_yaml (o, w)
  = (Raise (KeyError "adlists"), (GravityYAML.set_data (Some d) o, w)).
Proof.
  intros H Ha.
  unfold GravityYAML.load_yaml, isfile, safe_load, len_adlists, item. unfold_monad.
  by repeat (cbn; rewrite ?H, ?Ha).
Qed.

Lemma App_load_yaml_no_adlists o w d :
  fs w !! Application._yaml_path o = Some (FYaml d) ->
  doc_adlists d = None ->
  Application._load_yaml (o, w)
  = (Raise (KeyError "adlists"), (Application.set_data (Some d) o, w)).
Proof.
  intros H Ha.
  unfold Application._load_yaml, isfile, safe_load, len_adlists, item. unfold_monad.
  by repeat (cbn; rewrite ?H, ?Ha).
Qed.

Lemma GY_load_yaml_empty_file o w :
  fs w !! GravityYAML._yaml_path o = Some FEmpty ->
  GravityYAML.load_yaml (o, w)
  = (Raise (TypeError "'NoneType' object is not subscriptable"),
     (GravityYAML.set_data None o, w)).
Proof.
  intros H.
  unfold GravityYAML.load_yaml, isfile, safe_load, len_adlists, item. unfold_monad.
  by repeat (cbn; rewrite ?H).
Qed.

Lemma App_load_yaml_empty_file o w :
  fs w !! Application._yaml_path o = Some FEmpty ->
  Application._load_yaml (o, w)
  = (Raise (TypeError "'NoneType' object is not subscriptable"),
     (Application.set_data None o, w)).
Proof.
  intros H.
  unfold Application._load_yaml, isfile, safe_load, len_adlists, item. unfold_monad.
  by repeat (cbn; rewrite ?H).
Qed.

Lemma cli_load_failure args w e o' :
  GravityYAML.load_yaml (GravityYAML.__init__ (config args) (database args), w)
  = (Raise e, (o', w)) ->
  catchable e -> errors.is_DatabaseError e = false ->
  cli args w = (1, if debug args then w else emit ["FATAL - " +:+ str e] w).
Proof.
  intros Hl He Hd. unfold cli.
  assert (GravityYAML.run (GravityYAML.__init__ (config args) (database args), w)
          = (Raise e, (o', w))) as Hr.
  { by rewrite (GY_run_load_failure _ _ e), Hl; [|rewrite Hl]. }
  destruct (debug args).
  - rewrite Hr. by destruct e.
  - by rewrite (guarded_raise _ _ e (o', w) Hr He), Hd.
Qed.

Lemma main_load_failure c d w e o' :
  Application._load_yaml (Application.__init__ c d, w) = (Raise e, (o', w)) ->
  catchable e ->
  Application.main c d w = (1, w).
Proof.
  intros Hl He. unfold Application.main.
  rewrite (App_run_load_failure _ _ e), Hl; [|by rewrite Hl]. by destruct e.
Qed.

(** X7. A document without the key [adlists] is not reported as a
    configuration error: the subscript raises [KeyError], so [cli]
    prints the key in quotes and ends with status 1, and [main] ends
    with status 1; neither touches the store. *)
Theorem missing_adlists_key (args : Args) (w : World) (d : ConfigDocument) :
  fs w !! config args = Some (FYaml d) ->
  doc_adlists d = None ->
  cli args w = (1, if debug args then w else emit ["FATAL - 'adlists'"] w)
  /\ Application.main (config args) (database args) w = (1, w).
Proof.
  intros H Ha. split.
  - by apply (cli_load_failure args w (KeyError "adlists") _
                (GY_load_yaml_no_adlists
                   (GravityYAML.__init__ (config args) (database args)) w d H Ha)).
  - by apply (main_load_failure _ _ w (KeyError "adlists") _
                (App_load_yaml_no_adlists
                   (Application.__init__ (config args) (database args)) w d H Ha)).
Qed.

Lemma missing_adlists_key_witness :
  cli default_args (sample_world no_adlists_document)
  = (1, emit ["FATAL - 'adlists'"] (sample_world no_adlists_document)).
Proof.
  apply (missing_adlists_key default_args (sample_world no_adlists_document)
           no_adlists_document); reflexivity.
Defined.

(** X8. An empty configuration file loads as [None]: the subscript
    [self._data["adlists"]] raises [TypeError], [cli] prints its text
    and ends with status 1, and [main] ends with status 1; neither
    touches the store. *)
Theorem empty_config_file (args : Args) (w : World) :
  fs w !! config args = Some FEmpty ->
  cli args w
  = (1, if debug args then w
        else emit ["FATAL - 'NoneType' object is not subscriptable"] w)
  /\ Application.main (config args) (database args) w = (1, w).
Proof.
  intros H. split.
  - by apply (cli_load_failure args w _ _
                (GY_load_yaml_empty_file
                   (GravityYAML.__init__ (config args) (database args)) w H)).
  - by apply (main_load_failure _ _ w _ _
                (App_load_yaml_empty_file
                   (Application.__init__ (config args) (database args)) w H)).
Qed.

Lemma empty_config_file_witness :
  Application.main "gravity.yaml" "/etc/pihole/" empty_config_world
  = (1, empty_config_world).
Proof.
  apply (empty_config_file default_args empty_config_world). reflexivity.
Defined.

(** ** Rotating the store *)


(** X10. Two calls of [init_database] on the same day lose the store
    the first call found: the second call archives the empty file of
    the first under the same name. *)
Theorem init_database_twice_same_day (o : GravityYAML.t) (w : World) (f : File) :
  let p := GravityYAML._db_path o in
  let a := archive_path p (today w) in
  let r := (GravityYAML.init_database ;;; GravityYAML.init_database) (o, w) in
  fs w !! p = Some f ->
  r.1 = Ok tt /\ fs r.2.2 !! p = Some FEmpty /\ fs r.2.2 !! a = Some FEmpty.
Proof.
  intros p a r Hp. subst r. unfold bind. rewrite !GY_init_database_spec. fold p. simpl.
  fold a. assert (a <> p) as Hne by apply archive_path_ne.
  split; [done|]. split; [apply lookup_insert_eq|].
  rewrite lookup_insert_ne by done. apply rotated_archive, lookup_insert_eq.
Qed.

Lemma init_database_twice_same_day_witness :
  fs ((GravityYAML.init_database ;;; GravityYAML.init_database)
        (GravityYAML.__init__ "gravity.yaml" "/etc/pihole/", no_schema_world)).2.2
    !! "/etc/pihole/gravity.db.old-2023-04-07" = Some FEmpty.
Proof.
  apply (init_database_twice_same_day (GravityYAML.__init__ "gravity.yaml" "/etc/pihole/")
           no_schema_world (FDb empty_store)).
  vm_compute. reflexivity.
Defined.

(** ** A missing schema script *)

Lemma App_init_database_without_schema o w :
  fs w !! schema_file w = None ->
  schema_file w <> archive_path (Application._db_path o) (today w) ->
  Application._init_database (o, w)
  = (Raise (SystemExit 1),
     (o, emit ["ERROR - Could not find database schema"]
           (set_fs (rotated (Application._db_path o)
                      (archive_path (Application._db_path o) (today w)) (fs w)) w))).
Proof.
  unfold schema_file. intros Hs Ha.
  unfold Application._init_database, isfile, today_Ymd, rename, print. unfold_monad.
  unfold rotated, archive_path in *.
  destruct (fs w !! Application._db_path o) as [f|] eqn:Hp; repeat (cbn; rewrite ?Hp, ?Hs).
  - rewrite lookup_insert_ne by done.
    destruct (decide (path_join (script_path w) "database.sql" = Application._db_path o))
      as [E|Hne].
    + rewrite E, lookup_delete_eq. cbn. by destruct o.
    + rewrite lookup_delete_ne, Hs by done. cbn. by destruct o.
  - by destruct o, w.
Qed.

(** X11. When the schema script is missing, [Application.run] has
    already moved the store away before it notices: it prints the
    error and exits with status 1, leaving no file at the store path. *)
Theorem main_without_schema (config database : string) (w : World)
    (d : ConfigDocument) (als : list AdlistSpec) :
  let p := path_join database "gravity.db" in
  let a := archive_path p (today w) in
  let r := Application.main config database w in
  fs w !! config = Some (FYaml d) -> doc_adlists d = Some als -> als <> [] ->
  fs w !! schema_file w = None -> schema_file w <> a ->
  r.1 = 1
  /\ stdout r.2 = stdout w ++ ["ERROR - Could not find database schema"]
  /\ fs r.2 !! p = None
  /\ fs r.2 !! a = match fs w !! p with Some f => Some f | None => fs w !! a end
  /\ connection r.2 = connection w.
Proof.
  intros p a r Hy Ha Hne Hs Hsa. subst r.
  unfold Application.main, Application.run, bind.
  rewrite (App_load_yaml_loaded (Application.__init__ config database) w d als Hy Ha Hne).
  rewrite App_init_database_without_schema by done.
  cbn [Application.set_data Application._db_path Application.__init__]. fold p a. simpl.
  split; [done|]. split; [done|]. split; [by apply rotated_lookup, archive_path_ne|].
  split; [|done]. unfold rotated. destruct (fs w !! p); [apply lookup_insert_eq | done].
Qed.

Lemma main_without_schema_witness :
  fs (Application.main "gravity.yaml" "/etc/pihole/" no_schema_world).2
    !! "/etc/pihole/gravity.db" = None.
Proof.
  apply (main_without_schema "gravity.yaml" "/etc/pihole/" no_schema_world sample_document
           (default [] (doc_adlists sample_document)));
    try reflexivity; vm_compute; congruence.
Defined.

Lemma GY_populate_database_without_schema o w :
  truthy (GravityYAML._data o) = true ->
  fs w !! schema_file w = None ->
  GravityYAML.populate_database (o, w)
  = (Raise (FileNotFoundError "Could not find database schema"), (o, w)).
Proof.
  unfold schema_file. intros Ht Hs.
  unfold GravityYAML.populate_database, isfile, FileNotFoundError_new. unfold_monad.
  repeat (cbn -[truthy]; rewrite ?Ht, ?Hs). by destruct o.
Qed.

(** X12. When the schema script is missing, [GravityYAML.run] has
    already archived the store and put an empty file in its place
    before [populate_database] notices: [cli] reports the missing
    schema, ends with status 1 and leaves that empty file. *)
Theorem cli_without_schema (args : Args) (w : World)
    (d : ConfigDocument) (als : list AdlistSpec) :
  let p := path_join (database args) "gravity.db" in
  let a := archive_path p (today w) in
  let r := cli args w in
  fs w !! config args = Some (FYaml d) -> doc_adlists d = Some als -> als <> [] ->
  fs w !! schema_file w = None -> schema_file w <> p -> schema_file w <> a ->
  r.1 = 1
  /\ stdout r.2 = stdout w ++ (if debug args then []
                               else ["FATAL - Could not find database schema"])
  /\ fs r.2 !! p = Some FEmpty
  /\ fs r.2 !! a = match fs w !! p with Some f => Some f | None => fs w !! a end
  /\ connection r.2 = connection w.
Proof.
  intros p a r Hy Ha Hne Hs Hsp Hsa. subst r.
  assert (GravityYAML.run (GravityYAML.__init__ (config args) (database args), w)
          = (Raise (FileNotFoundError "Could not find database schema"),
             (GravityYAML.set_data (Some d)
                (GravityYAML.__init__ (config args) (database args)),
              set_fs (initialised p w) w))) as Hr.
  { unfold GravityYAML.run, bind.
    rewrite (GY_load_yaml_loaded (GravityYAML.__init__ (config args) (database args))
               w d als Hy Ha Hne).
    rewrite GY_init_database_spec.
    rewrite GY_populate_database_without_schema; [done | by apply (truthy_adlists d als)|].
    unfold schema_file in *. simpl. fold p a.
    rewrite lookup_insert_ne by done. by rewrite rotated_lookup_ne. }
  assert (a <> p) as Hap by apply archive_path_ne.
  assert (initialised p w !! p = Some FEmpty) as H1 by apply lookup_insert_eq.
  assert (initialised p w !! a
          = match fs w !! p with Some f => Some f | None => fs w !! a end) as H2.
  { unfold initialised. rewrite lookup_insert_ne by done. fold a. unfold rotated.
    destruct (fs w !! p); [apply lookup_insert_eq | done]. }
  unfold cli. destruct (debug args).
  - rewrite Hr. simpl. by rewrite app_nil_r.
  - by rewrite (guarded_raise _ _ _ _ Hr).
Qed.

Lemma cli_without_schema_witness :
  fs (cli default_args no_schema_world).2 !! "/etc/pihole/gravity.db" = Some FEmpty.
Proof.
  apply (cli_without_schema default_args no_schema_world sample_document
           (default [] (doc_adlists sample_document)));
    try reflexivity; vm_compute; congruence.
Defined.

(** ** The configuration errors of a run *)

(** X13. The only configuration error that [run] raises is the one
    for an empty [adlists] sequence: after [load_yaml] returned, the
    guard of [populate_database] for a configuration not loaded
    never fires, and a missing key or file is reported by another kind
    of exception. *)
Theorem run_config_error_is_empty_adlists (o : GravityYAML.t) (w : World) (msg : string) :
  (GravityYAML.run (o, w)).1 = Raise (ConfigFileError msg) ->
  msg = "No ad lists specified".
Proof.
  set (P := fun e => forall m, e = ConfigFileError m -> m = "No ad lists specified").
  assert (forall e, package_error e -> P e) as Hpkg by (by intros [] He m).
  unfold GravityYAML.run, bind.
  pose proof (GY_load_yaml_raises_only P Hpkg) as Hl. specialize (Hl ltac:(by intros m [= <-])).
  specialize (Hl (o, w)).
  destruct (GravityYAML.load_yaml (o, w)) as [[[]|e] [o1 w1]] eqn:Hload; simpl in *.
  - apply GY_load_yaml_inv in Hload as (d & als & Hy & Ha & Hne & [= -> ->]).
    rewrite GY_init_database_spec. intros H.
    by apply GY_populate_database_loaded_raises in H; [|apply (truthy_adlists d als)].
  - intros [= ->]. by apply (Hl _ eq_refl).
Qed.

Lemma run_config_error_is_empty_adlists_witness :
  (GravityYAML.run (GravityYAML.__init__ "gravity.yaml" "/etc/pihole/",
                    sample_world empty_adlists_document)).1
  = Raise (ConfigFileError "No ad lists specified")
  /\ "No ad lists specified" = "No ad lists specified".
Proof.
  split; [vm_compute; reflexivity|].
  apply (run_config_error_is_empty_adlists
           (GravityYAML.__init__ "gravity.yaml" "/etc/pihole/")
           (sample_world empty_adlists_document)).
  vm_compute. reflexivity.
Defined.

(** ** Releasing the connection *)

(** X14. Once [_init_database] has opened the store, [Application.run]
    releases it on every exit of [_populate_database], normal or not:
    the connection is closed, and the object holds neither connection
    nor cursor. *)
Theorem App_run_releases_connection (o : Application.t) (w : World)
    (s1 : Application.t * World) :
  let r := Application.run (o, w) in
  (Application._load_yaml ;;; Application._init_database) (o, w) = (Ok tt, s1) ->
  connection r.2.2 = None
  /\ Application._connection r.2.1 = None
  /\ Application._cursor r.2.1 = None.
Proof.
  intros r H. subst r. unfold Application.run, bind in *.
  destruct (Application._load_yaml (o, w)) as [[[]|e0] [o1 w1]] eqn:Hl; [|done].
  apply App_load_yaml_inv in Hl as (d & als & Hy & Ha & Hne & [= -> ->]).
  destruct (App_init_database_inv _ _ _ H) as [sch Hs].
  rewrite (App_init_database_spec _ _ sch) by exact Hs.
  unfold try_finally.
  erewrite App_populate_database_spec;
    [|by apply (truthy_adlists d als)|reflexivity|reflexivity].
  cbn [Application.set_data Application._data Application.set_connection
       Application._db_path].
  pose proof (import_document_frame sqlite3.execute execute_inserts (Some d)
                (fresh (Application._db_path o) sch w)) as Hfr.
  destruct (import_document sqlite3.execute (Some d) _) as [[[]|e] w'];
    destruct Hfr as (_ & _ & _ & Hfr); simpl in Hfr;
    destruct (connection w') as [c'|] eqn:Hc'; try done; destruct Hfr as [Hp _];
    unfold sqlite3.close; unfold_monad; by repeat (cbn; rewrite ?Hc', ?Hp).
Qed.

Lemma App_run_releases_connection_witness :
  connection (Application.run (Application.__init__ "gravity.yaml" "/etc/pihole/",
                               sample_world no_url_document)).2.2 = None.
Proof.
  eapply (App_run_releases_connection (Application.__init__ "gravity.yaml" "/etc/pihole/")
            (sample_world no_url_document)).
  vm_compute. reflexivity.
Defined.

(** ** Which documents a run accepts *)

Lemma valid_document_inv d :
  valid_document d = true ->
  exists gs als, doc_groups d = Some gs /\ doc_adlists d = Some als
                 /\ forallb valid_group gs = true /\ forallb valid_adlist als = true.
Proof.
  unfold valid_document. destruct (doc_groups d) as [gs|]; [|done].
  destruct (doc_adlists d) as [als|]; [|done].
  intros [Hg Ha]%andb_prop. eauto 10.
Qed.



(** ** The two programs *)



Lemma store_error_alike {A} (c1 c2 : M World A) :
  alike c1 c2 -> alike (Database.store_error c1) (Database.store_error c2).
Proof. intros H w. unfold Database.store_error. by rewrite H. Qed.











(** ** The rows a join row refers to *)

(** X17. In the store that a run leaves when it returns, every
    [adlist_by_group] row refers to an [adlist] row and to a [group]
    row of that store. *)
Theorem join_rows_reference_rows (o : GravityYAML.t) (w : World) (m : MembershipRow) :
  let t := stored (GravityYAML.run (o, w)).2.2 (GravityYAML._db_path o) in
  (GravityYAML.run (o, w)).1 = Ok tt ->
  m ∈ adlist_by_group t ->
  (exists a, a ∈ adlist t /\ a_id a = m_adlist_id m)
  /\ (exists g, g ∈ group t /\ g_id g = m_group_id m).
Proof.
  intros t. subst t.
  destruct (GravityYAML.run (o, w)) as [[[]|e] [o1 w1]] eqn:Hr; [|done]. intros _.
  apply GY_run_ok in Hr as (d & gs & als & sch & _ & Hg & Ha & _ & Hv & _ & Hf).
  simpl in Hf. subst w1. unfold stored, finished. simpl. rewrite lookup_insert_eq. simpl.
  destruct (valid_document_inv d Hv) as (gs' & als' & Hg' & Ha' & Hvg & _).
  assert (gs' = gs) as -> by congruence.
  intros (k & a & Hk & Hl)%elem_of_membership_rows.
  apply elem_of_links in Hl as (r & _ & Hidx & Hz & Hid). split.
  - exists (adlist_row (1 + Z.of_nat k) a). split; [|by rewrite Hid].
    apply (list_elem_of_lookup_2 _ k). by rewrite adlist_rows_lookup, Hk.
  - destruct (expected_index_inv gs r _ Hvg Hidx Hz) as (j & [(g & Hj & _) _] & ->).
    exists (group_row (1 + Z.of_nat j) g). split; [|done].
    apply (list_elem_of_lookup_2 _ j). by rewrite group_rows_lookup, Hj.
Qed.

Lemma join_rows_reference_rows_witness :
  exists g, g ∈ group (stored after_first_run "/etc/pihole/gravity.db") /\ g_id g = 1.
Proof.
  apply (join_rows_reference_rows (GravityYAML.__init__ "gravity.yaml" "/etc/pihole/")
           (sample_world sample_document) {| m_adlist_id := 1; m_group_id := 1 |}).
  - vm_compute. reflexivity.
  - vm_compute. apply list_elem_of_here.
Defined.

(** ** The name of the archive *)

Lemma append_inj_l (p s t : string) : p +:+ s = p +:+ t -> s = t.
Proof. induction p as [|c p IH]; simpl; [done|]. intros [= H]. by apply IH. Qed.

Lemma digit_inj (a b : nat) : digit a = digit b -> (a `mod` 10 = b `mod` 10)%nat.
Proof.
  unfold digit. intros H.
  assert (ascii_of_nat (48 + a `mod` 10) = ascii_of_nat (48 + b `mod` 10)) as E
    by congruence.
  pose proof (Nat.mod_upper_bound a 10). pose proof (Nat.mod_upper_bound b 10).
  apply (f_equal nat_of_ascii) in E. rewrite !nat_ascii_embedding in E by lia. lia.
Qed.

Lemma two_digits_value (a : nat) :
  (a < 100)%nat -> a = (a `mod` 10 + 10 * ((a `div` 10) `mod` 10))%nat.
Proof.
  intros H. pose proof (Nat.Div0.mod_mul_r a 10 10) as E.
  change (10 * 10)%nat with 100%nat in E. by rewrite Nat.mod_small in E.
Qed.

Lemma four_digits_value (a : nat) :
  (a < 100 * 100)%nat ->
  a = (a `mod` 10 + 10 * ((a `div` 10) `mod` 10)
       + 100 * ((a `div` 100) `mod` 10 + 10 * (((a `div` 100) `div` 10) `mod` 10)))%nat.
Proof.
  intros H. pose proof (Nat.Div0.mod_mul_r a 10 10) as E.
  change (10 * 10)%nat with 100%nat in E.
  pose proof (Nat.div_mod_eq a 100) as D.
  assert (a `div` 100 < 100)%nat as Hq by (apply Nat.Div0.div_lt_upper_bound; lia).
  pose proof (two_digits_value _ Hq). lia.
Qed.

Lemma String_inj c1 c2 s1 s2 : String c1 s1 = String c2 s2 -> c1 = c2 /\ s1 = s2.
Proof. by intros [= -> ->]. Qed.

Lemma two_digits_eq n :
  two_digits n
  = String (ascii_of_nat (48 + (n `div` 10) `mod` 10))
      (String (ascii_of_nat (48 + n `mod` 10)) "").
Proof. reflexivity. Qed.

Lemma four_digits_eq n :
  four_digits n
  = String (ascii_of_nat (48 + ((n `div` 100) `div` 10) `mod` 10))
      (String (ascii_of_nat (48 + (n `div` 100) `mod` 10))
         (String (ascii_of_nat (48 + (n `div` 10) `mod` 10))
            (String (ascii_of_nat (48 + n `mod` 10)) ""))).
Proof. reflexivity. Qed.

Lemma two_digits_inj (a b : nat) :
  (a < 100)%nat -> (b < 100)%nat -> two_digits a = two_digits b -> a = b.
Proof.
  intros Ha Hb. rewrite !two_digits_eq.
  intros (H1 & (H2 & _)%String_inj)%String_inj.
  assert (digit (a `div` 10) = digit (b `div` 10)) as E1 by (unfold digit; congruence).
  assert (digit a = digit b) as E2 by (unfold digit; congruence).
  apply digit_inj in E1, E2.
  rewrite (two_digits_value a Ha), (two_digits_value b Hb). lia.
Qed.

Lemma four_digits_inj (a b : nat) :
  (a < 100 * 100)%nat -> (b < 100 * 100)%nat -> four_digits a = four_digits b -> a = b.
Proof.
  intros Ha Hb. rewrite !four_digits_eq.
  intros (H1 & (H2 & (H3 & (H4 & _)%String_inj)%String_inj)%String_inj)%String_inj.
  assert (digit ((a `div` 100) `div` 10) = digit ((b `div` 100) `div` 10)) as E1
    by (unfold digit; congruence).
  assert (digit (a `div` 100) = digit (b `div` 100)) as E2 by (unfold digit; congruence).
  assert (digit (a `div` 10) = digit (b `div` 10)) as E3 by (unfold digit; congruence).
  assert (digit a = digit b) as E4 by (unfold digit; congruence).
  apply digit_inj in E1, E2, E3, E4.
  rewrite (four_digits_value a Ha), (four_digits_value b Hb). lia.
Qed.

Lemma strftime_Ymd_inj (d1 d2 : Date) :
  calendar_date d1 -> calendar_date d2 -> strftime_Ymd d1 = strftime_Ymd d2 -> d1 = d2.
Proof.
  intros (Hy1 & Hm1 & Hd1) (Hy2 & Hm2 & Hd2). unfold strftime_Ymd.
  rewrite !four_digits_eq, !two_digits_eq. cbn [String.append].
  intros (A1 & (A2 & (A3 & (A4 & (_ & H)%String_inj)%String_inj)%String_inj)%String_inj)
           %String_inj.
  apply String_inj in H as (M1 & (M2 & (_ & H)%String_inj)%String_inj).
  apply String_inj in H as (D1 & (D2 & _)%String_inj).
  assert (four_digits (year d1) = four_digits (year d2)) as E1
    by (rewrite !four_digits_eq; congruence).
  assert (two_digits (month d1) = two_digits (month d2)) as E2
    by (rewrite !two_digits_eq; congruence).
  assert (two_digits (day d1) = two_digits (day d2)) as E3
    by (rewrite !two_digits_eq; congruence).
  apply four_digits_inj in E1; [|lia..].
  apply two_digits_inj in E2; [|lia..].
  apply two_digits_inj in E3; [|lia..].
  destruct d1, d2. simpl in *. by subst.
Qed.

(** X18. Stores archived on different days get different names: the
    archive of one day never replaces that of another. *)
Theorem archives_of_different_days_differ (p : string) (d1 d2 : Date) :
  calendar_date d1 -> calendar_date d2 ->
  archive_path p d1 = archive_path p d2 -> d1 = d2.
Proof.
  intros H1 H2 H. unfold archive_path in H.
  apply append_inj_l in H. apply (append_inj_l ".old-") in H.
  by apply strftime_Ymd_inj.
Qed.

Lemma archives_of_different_days_differ_witness :
  {| year := 2023; month := 4; day := 7 |} = {| year := 2023; month := 4; day := 7 |}.
Proof.
  apply (archives_of_different_days_differ "/etc/pihole/gravity.db");
    [unfold calendar_date; simpl; lia..|reflexivity].
Defined.

(** ** The directory of the store *)

Lemma endswith_sep_slash d : endswith_sep (d +:+ "/") = true.
Proof.
  induction d as [|c d IH]; [done|]. simpl.
  destruct (d +:+ "/") eqn:E; [by destruct d | exact IH].
Qed.

Lemma append_assoc (a b c : string) : (a +:+ b) +:+ c = a +:+ b +:+ c.
Proof.
  induction a as [|x a IH]; [done|].
  change (String x ((a +:+ b) +:+ c) = String x (a +:+ b +:+ c)). by rewrite IH.
Qed.

Lemma path_join_trailing_slash d b :
  d <> "" -> endswith_sep d = false -> path_join (d +:+ "/") b = path_join d b.
Proof.
  intros Hd He. unfold path_join. destruct (startswith_sep b); [done|].
  rewrite endswith_sep_slash, He, orb_true_r.
  rewrite (bool_decide_false (d = "")) by done. simpl. apply append_assoc.
Qed.

(** X19. The directory of the store may be given with or without a
    trailing slash: [cli] and [main] do the same in both cases. *)
Theorem database_trailing_slash (config dir : string) (dbg : bool) (w : World) :
  dir <> "" -> endswith_sep dir = false ->
  cli {| config := config; database := dir +:+ "/"; debug := dbg |} w
  = cli {| config := config; database := dir; debug := dbg |} w
  /\ Application.main config (dir +:+ "/") w = Application.main config dir w.
Proof.
  intros Hd He. unfold cli, Application.main, GravityYAML.__init__, Application.__init__.
  simpl. by rewrite path_join_trailing_slash.
Qed.

Lemma database_trailing_slash_witness :
  Application.main "gravity.yaml" "/etc/pihole/" (sample_world sample_document)
  = Application.main "gravity.yaml" "/etc/pihole" (sample_world sample_document).
Proof.
  apply (database_trailing_slash "gravity.yaml" "/etc/pihole" false
           (sample_world sample_document)); [done | reflexivity].
Defined.

(** ** The files a run writes *)

Section WritesOnly.

Variables (p : string) (w0 : World).

Lemma read_file_writes_only path : preserves (writes_only p w0) (read_file path).
Proof. intros w H. unfold read_file. by destruct (fs w !! path). Qed.

Lemma executescript_writes_only sql : preserves (writes_only p w0) (sqlite3.executescript sql).
Proof.
  intros w H. unfold sqlite3.executescript.
  destruct (connection w) as [c|] eqn:Hw; [|by destruct sql].
  destruct sql; try exact H.
  destruct (schema (conn_db c)); [exact H|].
  destruct H as [Hf Hc]. pose proof (Hc c Hw) as Hp. simpl. split.
  - intros q Hq. simpl. rewrite lookup_insert_ne by congruence. by apply Hf.
  - by intros c' [= <-].
Qed.

Lemma commit_writes_only : preserves (writes_only p w0) sqlite3.commit.
Proof.
  intros w H. unfold sqlite3.commit.
  destruct (connection w) as [c|] eqn:Hw; [|exact H].
  destruct H as [Hf Hc]. pose proof (Hc c Hw) as Hp. simpl. split.
  - intros q Hq. simpl. rewrite lookup_insert_ne by congruence. by apply Hf.
  - intros c'. simpl. rewrite Hw. by intros [= <-].
Qed.

Lemma close_writes_only : preserves (writes_only p w0) sqlite3.close.
Proof.
  intros w H. unfold sqlite3.close.
  destruct (connection w) as [c|] eqn:Hw; [|exact H].
  destruct H as [Hf Hc]. simpl. by split.
Qed.

Lemma import_document_writes_only insert data :
  inserts insert -> preserves (writes_only p w0) (import_document insert data).
Proof.
  intros Hi w [Hf Hc].
  destruct (import_document_frame insert Hi data w) as (Hfs & _ & _ & Hconn).
  split.
  - intros q Hq. rewrite Hfs. by apply Hf.
  - intros c' Hc'. rewrite Hc' in Hconn.
    destruct (connection w) as [c|] eqn:Hw; [|done].
    destruct Hconn as [-> _]. by apply Hc.
Qed.

End WritesOnly.

Lemma connect_writes_only p w :
  match sqlite3.connect p w with
  | (Ok _, w1) => writes_only p w w1
  | (Raise _, w1) => w1 = w
  end.
Proof.
  unfold sqlite3.connect.
  destruct (fs w !! p) as [[d|sch|db| |]|] eqn:Hp; try done;
    (split; [|by intros c [= <-]]); [done..|].
  intros q Hq. simpl. by rewrite lookup_insert_ne.
Qed.

Lemma with_Database_writes_only p path data w :
  forall q, q <> p ->
  fs (with_Database p
        (Database.loadFile path ;;; import_document Database.insert data ;;;
         Database.commit) w).2 !! q = fs w !! q.
Proof.
  assert (preserves (writes_only p w)
            (try_finally (Database.loadFile path ;;;
                          import_document Database.insert data ;;;
                          Database.commit) Database.__exit__)) as Hbody.
  { apply preserves_try_finally;
      [|apply store_error_preserves, close_writes_only].
    apply preserves_bind.
    { unfold Database.loadFile. apply preserves_bind; [apply read_file_writes_only|].
      intros sql. apply store_error_preserves, executescript_writes_only. }
    intros _. apply preserves_bind;
      [apply import_document_writes_only, Database_insert_inserts|].
    intros _. apply store_error_preserves, commit_writes_only. }
  pose proof (connect_writes_only p w) as Hc.
  unfold with_Database, bind, Database.__enter__, Database.store_error.
  destruct (sqlite3.connect p w) as [[conn|e] w1].
  - apply (Hbody w1 Hc).
  - subst w1. by destruct e.
Qed.

Lemma GY_populate_database_writes_only o w q :
  q <> GravityYAML._db_path o ->
  fs (GravityYAML.populate_database (o, w)).2.2 !! q = fs w !! q.
Proof.
  intros Hq. unfold GravityYAML.populate_database, isfile, FileNotFoundError_new.
  unfold_monad. cbn -[truthy].
  destruct (truthy (GravityYAML._data o)); cbn; [|done].
  destruct (bool_decide (is_Some (fs w !! path_join (script_path w) "database.sql")));
    cbn; [|done].
  match goal with |- context [with_Database ?p ?body w] =>
    assert (fs (with_Database p body w).2 !! q = fs w !! q) as H
      by apply (with_Database_writes_only p (path_join (script_path w) "database.sql")
                  (GravityYAML._data o) w q Hq);
    destruct (with_Database p body w) as [r w'] end.
  exact H.
Qed.

Lemma GY_load_yaml_db_path o w :
  GravityYAML._db_path (GravityYAML.load_yaml (o, w)).2.1 = GravityYAML._db_path o.
Proof.
  unfold GravityYAML.load_yaml, isfile, safe_load, len_adlists, item. unfold_monad.
  destruct (fs w !! GravityYAML._yaml_path o) as [[d| | | |]|] eqn:H;
    repeat (cbn; rewrite ?H); try done.
  by destruct (doc_adlists d) as [[|a als]|].
Qed.

(** X20. Whatever the outcome, [GravityYAML.run] changes no file but
    the store and its archive of the day: the configuration, the schema
    script and the archives of other days are as it found them. *)
Theorem run_writes_store_and_archive_only (o : GravityYAML.t) (w : World) (q : string) :
  q <> GravityYAML._db_path o ->
  q <> archive_path (GravityYAML._db_path o) (today w) ->
  fs (GravityYAML.run (o, w)).2.2 !! q = fs w !! q.
Proof.
  intros Hp Ha. unfold GravityYAML.run, bind.
  pose proof (GY_load_yaml_world o w) as Hw.
  pose proof (GY_load_yaml_db_path o w) as Hd.
  destruct (GravityYAML.load_yaml (o, w)) as [[[]|e] [o1 w1]]; simpl in Hw, Hd; subst w1;
    [|done].
  rewrite GY_init_database_spec.
  match goal with |- context [GravityYAML.populate_database (o1, ?w2)] =>
    pose proof (GY_populate_database_writes_only o1 w2 q) as H;
    destruct (GravityYAML.populate_database (o1, w2)) as [[[]|e] [o3 w3]] end;
    simpl in *; rewrite H by congruence; rewrite Hd;
    rewrite lookup_insert_ne by done; by apply rotated_lookup_ne.
Qed.

Lemma run_writes_store_and_archive_only_witness :
  fs (GravityYAML.run (GravityYAML.__init__ "gravity.yaml" "/etc/pihole/",
                       sample_world sample_document)).2.2 !! "gravity.yaml"
  = fs (sample_world sample_document) !! "gravity.yaml".
Proof.
  apply (run_writes_store_and_archive_only
           (GravityYAML.__init__ "gravity.yaml" "/etc/pihole/")
           (sample_world sample_document)); vm_compute; congruence.
Defined.

Lemma App_init_database_frame o w q :
  q <> Application._db_path o ->
  q <> archive_path (Application._db_path o) (today w) ->
  fs (Application._init_database (o, w)).2.2 !! q = fs w !! q.
Proof.
  intros Hp Ha. unfold archive_path in Ha.
  unfold Application._init_database, isfile, today_Ymd, rename, read_file, sqlite3.connect,
    sqlite3.executescript, print.
  unfold_monad.
  destruct (fs w !! Application._db_path o) as [f|] eqn:Hf; repeat (cbn; rewrite ?Hf).
  - destruct (<[_ := f]> (delete _ (fs w)) !! path_join (script_path w) "database.sql")
      as [sql|] eqn:Hs; repeat (cbn; rewrite ?Hs).
    + destruct (<[_ := f]> (delete _ (fs w)) !! Application._db_path o) as [[]|] eqn:Hd;
        repeat (cbn; rewrite ?Hd); destruct sql;
        repeat first [ progress cbn
                     | rewrite lookup_insert_ne by done
                     | rewrite lookup_delete_ne by done
                     | match goal with
                       | |- context [match schema ?d with _ => _ end] => destruct (schema d)
                       end ];
        done.
    + by rewrite lookup_insert_ne, lookup_delete_ne.
  - destruct (fs w !! path_join (script_path w) "database.sql") as [sql|] eqn:Hs;
      repeat (cbn; rewrite ?Hs, ?Hf); [|done].
    destruct sql; repeat (cbn; rewrite ?lookup_insert_ne by done); done.
Qed.

(** X21. The same for [Application.run]: whatever the outcome, no
    file but the store and its archive of the day is changed. *)
Theorem App_run_writes_store_and_archive_only (o : Application.t) (w : World) (q : string) :
  q <> Application._db_path o ->
  q <> archive_path (Application._db_path o) (today w) ->
  fs (Application.run (o, w)).2.2 !! q = fs w !! q.
Proof.
  intros Hp Ha.
  destruct (Application._load_yaml (o, w)) as [[[]|e] [o1 w1]] eqn:Hl.
  2: { rewrite (App_run_load_failure o w e) by (by rewrite Hl).
       by destruct (App_load_yaml_world o w) as [-> _]. }
  apply App_load_yaml_inv in Hl as Hinv. destruct Hinv as (d & als & Hy & Had & Hne & [= -> ->]).
  pose proof (App_init_database_frame (Application.set_data (Some d) o) w q Hp Ha) as Hfr.
  destruct (Application._init_database (Application.set_data (Some d) o, w))
    as [[[]|e] [o2 w2]] eqn:Hi.
  - apply App_init_database_inv in Hi as [sch Hs].
    destruct (App_run_spec o w d als sch Hy Had Hne Hs) as [o' ->].
    pose proof (import_document_frame sqlite3.execute execute_inserts (Some d)
                  (fresh (Application._db_path o) sch w)) as (Hfs & _ & _ & Hc).
    assert (fs (fresh (Application._db_path o) sch w) !! q = fs w !! q) as Hq.
    { unfold fresh. simpl. rewrite !lookup_insert_ne by done. by apply rotated_lookup_ne. }
    destruct (import_document sqlite3.execute (Some d) _) as [[[]|e] w']; simpl in *.
    + unfold committed. destruct (connection w') as [c|]; [|done].
      destruct Hc as [Hcp _]. simpl. rewrite Hcp, lookup_insert_ne by done. by rewrite Hfs.
    + by rewrite Hfs.
  - unfold Application.run, bind. by rewrite Hl, Hi.
Qed.

Lemma App_run_writes_store_and_archive_only_witness :
  fs (Application.run (Application.__init__ "gravity.yaml" "/etc/pihole/",
                       sample_world no_url_document)).2.2 !! "/opt/database.sql"
  = fs (sample_world no_url_document) !! "/opt/database.sql".
Proof.
  apply (App_run_writes_store_and_archive_only
           (Application.__init__ "gravity.yaml" "/etc/pihole/")
           (sample_world no_url_document)); vm_compute; congruence.
Defined.

(** ** The join rows and the warnings of a run that returns *)

(** X22. The join rows of the store that a run leaves when it returns
    are exactly the pairs of an adlist and the last group that bears a
    name the adlist refers to, "Default" included when a group of the
    document has that name. *)
Theorem join_rows_characterised (o : GravityYAML.t) (w : World) (d : ConfigDocument)
    (gs : list GroupSpec) (als : list AdlistSpec) (m : MembershipRow) :
  fs w !! GravityYAML._yaml_path o = Some (FYaml d) ->
  doc_groups d = Some gs -> doc_adlists d = Some als ->
  (GravityYAML.run (o, w)).1 = Ok tt ->
  m ∈ adlist_by_group (stored (GravityYAML.run (o, w)).2.2 (GravityYAML._db_path o))
  <-> exists (k j : nat) a refs r,
        als !! k = Some a /\ as_groups a = Some refs /\ r ∈ refs /\ last_named r gs j
        /\ m = {| m_adlist_id := 1 + Z.of_nat k; m_group_id := 1 + Z.of_nat j |}.
Proof.
  intros Hy Hg Ha.
  destruct (GravityYAML.run (o, w)) as [[[]|e] [o1 w1]] eqn:Hr; [|done]. intros _.
  apply GY_run_ok in Hr as (d' & gs' & als' & sch & Hy' & Hg' & Ha' & _ & Hv & _ & Hf).
  assert (d' = d) as -> by congruence.
  assert (gs' = gs) as -> by congruence. assert (als' = als) as -> by congruence.
  simpl in Hf. subst w1. unfold stored, finished. simpl. rewrite lookup_insert_eq. simpl.
  destruct (valid_document_inv d Hv) as (gs' & als' & Hg'' & Ha'' & Hvg & Hva).
  assert (gs' = gs) as -> by congruence. assert (als' = als) as -> by congruence.
  rewrite elem_of_membership_rows. split.
  - intros (k & a & Hk & Hl). apply elem_of_links in Hl as (r & Hr & Hidx & Hz & Hid).
    destruct (expected_index_inv gs r _ Hvg Hidx Hz) as (j & Hj & Hgid).
    destruct (as_groups a) as [refs|] eqn:Hrefs; [|by apply elem_of_nil in Hr].
    exists k, j, a, refs, r. repeat split; try done; try apply Hj.
    destruct m. simpl in *. by subst.
  - intros (k & j & a & refs & r & Hk & Hrefs & Hr & Hj & ->).
    exists k, a. split; [done|]. apply elem_of_links. exists r. rewrite Hrefs. simpl.
    repeat split; [done| |lia]. unfold expected_index. by apply index_groups_last.
Qed.

Lemma join_rows_characterised_witness :
  {| m_adlist_id := 1; m_group_id := 1 |}
    ∈ adlist_by_group (stored after_first_run "/etc/pihole/gravity.db")
  <-> exists (k j : nat) a refs r,
        default [] (doc_adlists sample_document) !! k = Some a
        /\ as_groups a = Some refs /\ r ∈ refs
        /\ last_named r (default [] (doc_groups sample_document)) j
        /\ {| m_adlist_id := 1; m_group_id := 1 |}
           = {| m_adlist_id := 1 + Z.of_nat k; m_group_id := 1 + Z.of_nat j |}.
Proof.
  apply (join_rows_characterised (GravityYAML.__init__ "gravity.yaml" "/etc/pihole/")
           (sample_world sample_document) sample_document);
    [reflexivity..|vm_compute; reflexivity].
Defined.

Lemma warnings_unresolved gs url refs :
  forallb valid_group gs = true ->
  warnings (expected_index gs) url refs
  = (fun r => warning r url) <$> filter (unresolved gs) refs.
Proof.
  intros Hv. induction refs as [|r refs IH]; [done|].
  rewrite warnings_cons.
  destruct (decide (declared gs r)) as [Hd|Hd].
  - rewrite filter_cons_False by (by intros [? _]).
    by destruct (expected_index_declared gs r Hv Hd) as (j & _ & ->).
  - rewrite expected_index_lookup by done. rewrite decide_False by done.
    destruct (decide (r = "Default")) as [->|Hne].
    + by rewrite filter_cons_False by (by intros [_ ?]).
    + rewrite filter_cons_True by done. simpl. by rewrite IH.
Qed.

Lemma warning_lines_due gs als :
  forallb valid_group gs = true ->
  warning_lines (expected_index gs) als = due_warnings gs als.
Proof.
  intros Hv. unfold due_warnings. induction als as [|a als IH]; [done|].
  simpl. by rewrite warnings_unresolved, IH.
Qed.

(** X23. A run that returns has printed the warnings due and nothing
    else: adlist by adlist, one line for each reference that is neither
    the name of a group of the document nor "Default", in the order of
    the document. *)
Theorem warnings_in_document_order (o : GravityYAML.t) (w : World) (d : ConfigDocument)
    (gs : list GroupSpec) (als : list AdlistSpec) :
  fs w !! GravityYAML._yaml_path o = Some (FYaml d) ->
  doc_groups d = Some gs -> doc_adlists d = Some als ->
  (GravityYAML.run (o, w)).1 = Ok tt ->
  stdout (GravityYAML.run (o, w)).2.2 = stdout w ++ due_warnings gs als.
Proof.
  intros Hy Hg Ha.
  destruct (GravityYAML.run (o, w)) as [[[]|e] [o1 w1]] eqn:Hr; [|done]. intros _.
  apply GY_run_ok in Hr as (d' & gs' & als' & sch & Hy' & Hg' & Ha' & _ & Hv & _ & Hf).
  assert (d' = d) as -> by congruence.
  assert (gs' = gs) as -> by congruence. assert (als' = als) as -> by congruence.
  simpl in Hf. subst w1. simpl.
  destruct (valid_document_inv d Hv) as (gs' & als' & Hg'' & Ha'' & Hvg & Hva).
  assert (gs' = gs) as -> by congruence. by rewrite warning_lines_due.
Qed.

Lemma warnings_in_document_order_witness :
  stdout after_first_run
  = [] ++ due_warnings (default [] (doc_groups sample_document))
            (default [] (doc_adlists sample_document)).
Proof.
  apply (warnings_in_document_order (GravityYAML.__init__ "gravity.yaml" "/etc/pihole/")
           (sample_world sample_document) sample_document);
    [reflexivity..|vm_compute; reflexivity].
Defined.

(** ** What the exit status of [cli] tells about the store *)

Lemma cli_outcome args w :
  let ran := GravityYAML.run (GravityYAML.__init__ (config args) (database args), w) in
  (ran.1 = Ok tt /\ cli args w = (0, ran.2.2))
  \/ (exists e lines, ran.1 = Raise e /\ (cli args w).1 <> 0
                      /\ (cli args w).2 = emit lines ran.2.2).
Proof.
  intros ran. subst ran. unfold cli.
  pose proof (GY_run_raises (GravityYAML.__init__ (config args) (database args), w)) as He.
  destruct (GravityYAML.run _) as [[[]|e] [o' w']] eqn:Hr.
  - left. split; [done|]. destruct (debug args); unfold guarded; by rewrite Hr.
  - right. specialize (He e eq_refl). destruct (debug args).
    + exists e, []. rewrite Hr. simpl. rewrite emit_nil. by destruct e.
    + exists e, ["FATAL - " +:+ str e].
      rewrite (guarded_raise _ _ e (o', w') Hr He). simpl.
      by destruct (errors.is_DatabaseError e).
Qed.

(** X24. Status 0 can be trusted: when [cli] ends with status 0, the
    store holds one row for each group and each adlist of the
    document, with the ids 1, 2, ... in the order of the document, and
    the join rows of the references; the store has been released. *)
Theorem zero_status_means_imported (args : Args) (w : World) (d : ConfigDocument)
    (gs : list GroupSpec) (als : list AdlistSpec) :
  fs w !! config args = Some (FYaml d) ->
  doc_groups d = Some gs -> doc_adlists d = Some als ->
  (cli args w).1 = 0 ->
  stored (cli args w).2 (path_join (database args) "gravity.db") = expected_tables gs als
  /\ connection (cli args w).2 = None.
Proof.
  intros Hy Hg Ha Hz.
  destruct (cli_outcome args w) as [[Hr ->]|(e & lines & _ & Hnz & _)]; [|done].
  destruct (GravityYAML.run _) as [[[]|e] [o1 w1]] eqn:Hrun; [|done].
  apply GY_run_ok in Hrun as (d' & gs' & als' & sch & Hy' & Hg' & Ha' & _ & _ & _ & Hf).
  simpl in Hy', Hf. assert (d' = d) as -> by congruence.
  assert (gs' = gs) as -> by congruence. assert (als' = als) as -> by congruence.
  subst w1. unfold stored. simpl. by rewrite lookup_insert_eq.
Qed.

Lemma zero_status_means_imported_witness :
  stored (cli default_args (sample_world sample_document)).2 "/etc/pihole/gravity.db"
  = expected_tables (default [] (doc_groups sample_document))
      (default [] (doc_adlists sample_document)).
Proof.
  apply (zero_status_means_imported default_args (sample_world sample_document)
           sample_document); [reflexivity..|vm_compute; reflexivity].
Defined.

(** X25. A failure imports nothing: when [cli] ends with another
    status, either no file has been changed, the configuration having
    been refused, or the store holds no row at all. *)
Theorem failure_imports_nothing (args : Args) (w : World) :
  (cli args w).1 <> 0 ->
  fs (cli args w).2 = fs w
  \/ stored (cli args w).2 (path_join (database args) "gravity.db") = empty_tables.
Proof.
  intros Hnz.
  destruct (cli_outcome args w) as [[_ Hc]|(e & lines & Hr & _ & ->)];
    [by rewrite Hc in Hnz|].
  set (o := GravityYAML.__init__ (config args) (database args)) in *.
  destruct (GravityYAML.load_yaml (o, w)) as [[[]|e0] [o1 w1]] eqn:Hl.
  - right. apply GY_load_yaml_inv in Hl as Hinv.
    destruct Hinv as (d & als & _ & _ & _ & Heq).
    assert (w1 = w) as -> by congruence. clear Heq.
    destruct (GravityYAML.populate_database (GravityYAML.init_database (o1, w)).2)
      as [[[]|e1] s2] eqn:Hp.
    + exfalso. revert Hr. unfold GravityYAML.run, bind. rewrite Hl.
      destruct (GravityYAML.init_database (o1, w)) as [[[]|e2] s1] eqn:Hi;
        [|by rewrite GY_init_database_spec in Hi].
      simpl in Hp. by rewrite Hp.
    + destruct (pkg_failed_import_rolls_back o w (GravityYAML.init_database (o1, w)).2
                  s2 e1) as [Hrun Hs]; [|exact Hp|].
      * unfold bind. rewrite Hl. by rewrite GY_init_database_spec.
      * rewrite Hrun. exact Hs.
  - left. rewrite (GY_run_load_failure o w e0) by (by rewrite Hl).
    pose proof (GY_load_yaml_world o w) as Hw. rewrite Hl in Hw |- *. simpl in *.
    by subst w1.
Qed.

Lemma failure_imports_nothing_witness :
  fs (cli default_args (sample_world no_url_document)).2
  = fs (sample_world no_url_document)
  \/ stored (cli default_args (sample_world no_url_document)).2 "/etc/pihole/gravity.db"
     = empty_tables.
Proof.
  apply (failure_imports_nothing default_args (sample_world no_url_document)).
  vm_compute. congruence.
Defined.

(** ** The lines a run prints *)

Section PrintsOnly.

Variables (Q : string -> Prop) (w0 : World).

Lemma prints_only_refl : prints_only Q w0 w0.
Proof. exists []. by rewrite app_nil_r. Qed.

Lemma prints_only_quiet w w' :
  stdout w' = stdout w -> prints_only Q w0 w -> prints_only Q w0 w'.
Proof. intros H (lines & Hl & HQ). exists lines. by rewrite H. Qed.

Lemma quiet_preserves {A} (c : M World A) :
  (forall w, stdout (c w).2 = stdout w) -> preserves (prints_only Q w0) c.
Proof. intros H w Hw. by apply (prints_only_quiet w). Qed.

Lemma print_prints_only line : Q line -> preserves (prints_only Q w0) (print line).
Proof.
  intros HQ w (lines & Hl & Hf). exists (lines ++ [line]). simpl.
  rewrite Hl, app_assoc. split; [done|]. apply Forall_app. by split; [|constructor].
Qed.

Lemma insert_prints_only insert s :
  inserts insert -> preserves (prints_only Q w0) (insert s).
Proof.
  intros Hi. apply quiet_preserves. intros w.
  destruct (insert_step insert Hi s w) as [[e ->]|(id & w1 & -> & Hx)]; [done|].
  apply exec_ok_inv in Hx as (_ & _ & ->). simpl.
  unfold with_tables. by destruct (connection w).
Qed.

Lemma import_document_prints_only insert data :
  inserts insert -> (forall g url, Q (warning g url)) ->
  preserves (prints_only Q w0) (import_document insert data).
Proof.
  intros Hi HQ. unfold import_document.
  apply preserves_bind.
  { destruct data; [apply preserves_subscript | apply preserves_raise]. }
  intros gs. apply preserves_bind.
  { generalize ({[ "Default" := 0 ]} : gmap string Z).
    induction gs as [|g gs IH]; intros idx; simpl; [apply preserves_ret|].
    apply preserves_bind; [apply preserves_subscript|]. intros name.
    apply preserves_bind; [by apply insert_prints_only|]. intros id. apply IH. }
  intros idx. apply preserves_bind.
  { destruct data; [apply preserves_subscript | apply preserves_raise]. }
  intros als. apply preserves_for_each. intros a. unfold import_adlist.
  apply preserves_bind; [apply preserves_subscript|]. intros url.
  apply preserves_bind; [by apply insert_prints_only|]. intros list_id.
  apply preserves_bind; [apply preserves_subscript|]. intros refs.
  apply preserves_for_each. intros r. unfold link_group.
  destruct (idx !! r) as [gid|]; [|apply print_prints_only, HQ].
  destruct (bool_decide (gid = 0)); [apply preserves_ret|].
  apply preserves_bind; [by apply insert_prints_only|]. intros _. apply preserves_ret.
Qed.

End PrintsOnly.

Lemma connect_quiet p w : stdout (sqlite3.connect p w).2 = stdout w.
Proof. unfold sqlite3.connect. by destruct (fs w !! p) as [[]|]. Qed.

Lemma read_file_quiet p w : stdout (read_file p w).2 = stdout w.
Proof. unfold read_file. by destruct (fs w !! p). Qed.

Lemma executescript_quiet sql w : stdout (sqlite3.executescript sql w).2 = stdout w.
Proof.
  unfold sqlite3.executescript. destruct (connection w) as [c|]; [|by destruct sql].
  destruct sql; try done. by destruct (schema (conn_db c)).
Qed.

Lemma commit_quiet w : stdout (sqlite3.commit w).2 = stdout w.
Proof. unfold sqlite3.commit. by destruct (connection w). Qed.

Lemma close_quiet w : stdout (sqlite3.close w).2 = stdout w.
Proof. unfold sqlite3.close. by destruct (connection w). Qed.

Lemma with_Database_prints_only p path data w :
  prints_only is_warning w
    (with_Database p
       (Database.loadFile path ;;; import_document Database.insert data ;;;
        Database.commit) w).2.
Proof.
  assert (preserves (prints_only is_warning w)
            (try_finally (Database.loadFile path ;;;
                          import_document Database.insert data ;;;
                          Database.commit) Database.__exit__)) as Hbody.
  { apply preserves_try_finally;
      [|apply store_error_preserves, quiet_preserves, close_quiet].
    apply preserves_bind.
    { unfold Database.loadFile.
      apply preserves_bind; [apply quiet_preserves, read_file_quiet|].
      intros sql. apply store_error_preserves, quiet_preserves, executescript_quiet. }
    intros _. apply preserves_bind.
    { apply import_document_prints_only; [apply Database_insert_inserts|].
      intros g url. by exists g, url. }
    intros _. apply store_error_preserves, quiet_preserves, commit_quiet. }
  pose proof (connect_quiet p w) as Hc.
  unfold with_Database, bind, Database.__enter__, Database.store_error.
  destruct (sqlite3.connect p w) as [[conn|e] w1]; simpl in Hc.
  - apply Hbody. apply (prints_only_quiet _ _ w); [done | apply prints_only_refl].
  - assert (prints_only is_warning w w1)
      by (apply (prints_only_quiet _ _ w); [done | apply prints_only_refl]).
    by destruct e.
Qed.

Lemma GY_populate_database_prints_only o w :
  prints_only is_warning w (GravityYAML.populate_database (o, w)).2.2.
Proof.
  unfold GravityYAML.populate_database, isfile, FileNotFoundError_new.
  unfold_monad. cbn -[truthy].
  destruct (truthy (GravityYAML._data o)); cbn; [|apply prints_only_refl].
  destruct (bool_decide (is_Some (fs w !! path_join (script_path w) "database.sql")));
    cbn; [|apply prints_only_refl].
  match goal with |- context [with_Database ?p ?body w] =>
    assert (prints_only is_warning w (with_Database p body w).2) as H
      by apply (with_Database_prints_only p (path_join (script_path w) "database.sql")
                  (GravityYAML._data o) w);
    destruct (with_Database p body w) as [r w'] end.
  exact H.
Qed.

(** X26. Whatever the outcome, [GravityYAML.run] prints nothing but
    warnings about references that do not resolve: no line already
    printed is lost, and every failure is left to the caller to
    report. *)
Theorem run_prints_warnings_only (o : GravityYAML.t) (w : World) :
  exists lines,
    stdout (GravityYAML.run (o, w)).2.2 = stdout w ++ lines
    /\ Forall is_warning lines.
Proof.
  unfold GravityYAML.run, bind.
  pose proof (GY_load_yaml_world o w) as Hw.
  destruct (GravityYAML.load_yaml (o, w)) as [[[]|e] [o1 w1]]; simpl in Hw; subst w1;
    [|apply prints_only_refl].
  rewrite GY_init_database_spec.
  match goal with |- context [GravityYAML.populate_database (o1, ?w2)] =>
    pose proof (GY_populate_database_prints_only o1 w2) as H;
    destruct (GravityYAML.populate_database (o1, w2)) as [[[]|e] [o3 w3]] end;
    exact H.
Qed.

Lemma App_init_database_stdout o w :
  stdout (Application._init_database (o, w)).2.2 = stdout w
  \/ stdout (Application._init_database (o, w)).2.2
     = stdout w ++ ["ERROR - Could not find database schema"].
Proof.
  unfold Application._init_database, isfile, today_Ymd, rename, read_file, sqlite3.connect,
    sqlite3.executescript, print.
  unfold_monad.
  destruct (fs w !! Application._db_path o) as [f|] eqn:Hf; repeat (cbn; rewrite ?Hf).
  - destruct (<[_ := f]> (delete _ (fs w)) !! path_join (script_path w) "database.sql")
      as [sql|] eqn:Hs; repeat (cbn; rewrite ?Hs); [|by right].
    destruct (<[_ := f]> (delete _ (fs w)) !! Application._db_path o) as [[]|] eqn:Hd;
      repeat (cbn; rewrite ?Hd); destruct sql;
      repeat first [ progress cbn
                   | match goal with
                     | |- context [match schema ?d with _ => _ end] => destruct (schema d)
                     end ];
      by left.
  - destruct (fs w !! path_join (script_path w) "database.sql") as [sql|] eqn:Hs;
      repeat (cbn; rewrite ?Hs, ?Hf); [|by right].
    destruct sql; repeat (cbn; rewrite ?Hs, ?Hf); by left.
Qed.

Lemma warning_ne_error g url rest : warning g url <> String "E" rest.
Proof. unfold warning. by intros [=]. Qed.

(** X27. Whatever the outcome, [Application.run] prints nothing but
    warnings about references that do not resolve and, before it exits,
    one of its three reports; the two reports of [_populate_database],
    for a configuration not loaded and for a database not initialised,
    are never printed. *)
Theorem App_run_prints (o : Application.t) (w : World) :
  exists lines,
    stdout (Application.run (o, w)).2.2 = stdout w ++ lines
    /\ Forall (fun line => is_warning line \/ is_report line) lines
    /\ ("ERROR - Config file not loaded" ∉ lines)
    /\ ("ERROR - Database has not been initialized" ∉ lines).
Proof.
  set (Q := fun line => is_warning line \/ is_report line).
  assert (exists lines, stdout (Application.run (o, w)).2.2 = stdout w ++ lines
                        /\ Forall Q lines) as (lines & Hl & HQ).
  { destruct (Application._load_yaml (o, w)) as [[[]|e] [o1 w1]] eqn:Hl.
    2: { rewrite (App_run_load_failure o w e) by (by rewrite Hl).
         destruct (App_load_yaml_world o w) as (_ & _ & [H|[H|H]]); rewrite Hl in *;
           simpl in *; rewrite H.
         - exists []. by rewrite app_nil_r.
         - eexists. split; [done|]. constructor; [|done]. right. apply list_elem_of_here.
         - eexists. split; [done|]. constructor; [|done]. right.
           apply list_elem_of_further, list_elem_of_here. }
    apply App_load_yaml_inv in Hl as Hinv.
    destruct Hinv as (d & als & Hy & Had & Hne & [= -> ->]).
    pose proof (App_init_database_stdout (Application.set_data (Some d) o) w) as Hout.
    destruct (Application._init_database (Application.set_data (Some d) o, w))
      as [[[]|e] [o2 w2]] eqn:Hi.
    - apply App_init_database_inv in Hi as [sch Hs].
      destruct (App_run_spec o w d als sch Hy Had Hne Hs) as [o' ->].
      pose proof (import_document_prints_only Q (fresh (Application._db_path o) sch w)
                    sqlite3.execute (Some d) execute_inserts) as Hp.
      specialize (Hp ltac:(intros g url; left; by exists g, url) _ (prints_only_refl _ _)).
      destruct (import_document sqlite3.execute (Some d) _) as [[[]|e] w']; simpl in *.
      + unfold committed. by destruct (connection w').
      + exact Hp.
    - unfold Application.run, bind. rewrite Hl, Hi. simpl in *.
      destruct Hout as [H|H]; rewrite H.
      + exists []. by rewrite app_nil_r.
      + eexists. split; [done|]. constructor; [|done]. right.
        do 2 apply list_elem_of_further. apply list_elem_of_here. }
  exists lines. split; [done|]. split; [done|].
  split; intros Hin; apply (proj1 (Forall_forall _ _) HQ) in Hin as [(g & url & H)|H];
    try (by apply eq_sym, warning_ne_error in H);
    unfold is_report in H;
    repeat (apply elem_of_cons in H as [H|H]; [discriminate H|]);
    by apply elem_of_nil in H.
Qed.
